(** * Breed_sense: the mock classification and analytics engine of
      [backend/server.py]

    A shallow embedding of the upload gate ([_looks_like_cow]), the breed
    selector ([_mock_breed_choice]), the prediction handler
    ([predict_cattle_breed]) with its retention pruning, the two readers
    ([get_recent_predictions], [get_analytics_summary]), the status checks
    ([create_status_check], [get_status_checks]) and the selection of the
    files of the source archive ([download_source_zip]).

    Conventions of the embedding
    - a Python [str] is the list of its Unicode code points ([str]); program
      literals are written as Rocq strings and converted with [cps];
    - a Python [int] is a [Z];
    - the document store, the scratch directory and the log are an explicit
      [world]; a handler is a function from a world to a result and a world;
    - a collaborator call that raises is decided by a [faults] record, one
      flag per call site; a call that raises leaves the world as it was and
      raises an exception derived from [Exception];
    - a [BaseException] outside [Exception] (a cancellation) is an outcome
      of its own, caught by no [except Exception] clause; where the question
      is what leaves the handler, the collaborators are left open
      ([predict_over]);
    - [str.lower] is a parameter ([lower]) of the development: only its
      behaviour on ASCII text is assumed ([lower_on_ascii]);
    - where the store leaves an order open (records of equal timestamp,
      groups of equal count, the order of the groups) the model sorts
      stably from insertion order; no statement below depends on it. *)

From Stdlib Require Import String Ascii.
From Stdlib Require Import List ZArith NArith Bool Lia.
From Stdlib Require Import Permutation Sorted Finite.
Import ListNotations.
Local Open Scope Z_scope.

(** ** Python strings *)

(** A [str] is a sequence of code points. *)
Definition str := list N.

(** The code points of a literal. *)
Fixpoint cps (s : string) : str :=
  match s with
  | EmptyString => []
  | String c s' => N_of_ascii c :: cps s'
  end.

Definition str_eqb (a b : str) : bool :=
  if list_eq_dec N.eq_dec a b then true else false.

(** [x in xs] for a collection of strings. *)
Definition str_in (x : str) (xs : list str) : bool := existsb (str_eqb x) xs.

(** [s.startswith(p)]. *)
Fixpoint startswith (s p : str) : bool :=
  match p, s with
  | [], _ => true
  | _ :: _, [] => false
  | c :: p', d :: s' => N.eqb c d && startswith s' p'
  end.

(** [sub in s]: [sub] occurs in [s] as a contiguous run. *)
Fixpoint contains (s sub : str) : bool :=
  startswith s sub ||
  match s with
  | [] => false
  | _ :: s' => contains s' sub
  end.

(** Truthiness of an [Optional[str]]: [None] and the empty string are falsy. *)
Definition truthy (o : option str) : bool :=
  match o with
  | Some (_ :: _) => true
  | _ => false
  end.

(** [x or d] where [x] is an [Optional[str]] and [d] a [str]. *)
Definition py_or (x : option str) (d : str) : str :=
  match x with
  | Some (c :: s) => c :: s
  | _ => d
  end.

(** ** Constants (server.py, lines 87-90) *)

Definition BREEDS : list string :=
  ["Jersey"; "Holstein"; "Gir"; "Sahiwal"; "Tharparkar"]%string.

Definition ALLOWED_CT : list str :=
  map cps ["image/jpeg"; "image/jpg"; "image/png"; "image/webp"]%string.

Definition ALLOWED_EXT : list str :=
  map cps [".jpg"; ".jpeg"; ".png"; ".webp"]%string.

Definition COW_KEYWORDS : list str :=
  map cps ["cow"; "cattle"; "bull"; "calf"; "ox"; "heifer"; "jersey";
           "holstein"; "gir"; "sahiwal"; "tharparkar"]%string.

(** ** The breed selector (server.py, lines 93-99) *)

(** The body of [for ch in seed_text: h = (h * 131 + ord(ch)) % 1000003],
    entered with accumulator [h]. *)
Fixpoint hash_loop (h : Z) (seed_text : str) : Z :=
  match seed_text with
  | [] => h
  | ch :: rest => hash_loop ((h * 131 + Z.of_N ch) mod 1000003) rest
  end.

(** [idx = h % len(BREEDS)]. *)
Definition breed_index (seed_text : str) : Z :=
  hash_loop 0 seed_text mod Z.of_nat (length BREEDS).

(** [BREEDS[idx]] for a non-negative [idx]; [None] stands for IndexError. *)
Definition _mock_breed_choice (seed_text : str) : option string :=
  nth_error BREEDS (Z.to_nat (breed_index seed_text)).

(** The algorithm in the words of the specification: a left fold over the
    characters with the update [h := (h * 131 + code_point) mod 1000003]. *)
Definition spec_hash_index (seed : str) : Z :=
  fold_left (fun h ch => (h * 131 + Z.of_N ch) mod 1000003) seed 0
    mod Z.of_nat (length BREEDS).

(** ** [pathlib]: the suffix of a POSIX path

    [Path(filename).suffix] as CPython's [pathlib] computes it on a POSIX
    host (3.8 to 3.13): the path is cut at ['/'], empty components and ["."]
    components are dropped, [name] is the last component left (or [""]), and
    the suffix is [name[i:]] for [i = name.rfind('.')] when
    [0 < i < len(name) - 1], otherwise [""]. *)

Definition DOT : N := 46.
Definition SLASH : N := 47.

(** [s.split(sep)] for a one-character separator. *)
Fixpoint split_on (sep : N) (s : str) : list str :=
  match s with
  | [] => [[]]
  | c :: s' =>
      if N.eqb c sep then [] :: split_on sep s'
      else match split_on sep s' with
           | [] => [[c]]
           | x :: xs => (c :: x) :: xs
           end
  end.

(** [s.rfind(c)]: the index of the last [c] in [s], or [-1]. *)
Fixpoint rfind (c : N) (s : str) : Z :=
  match s with
  | [] => -1
  | d :: s' =>
      let r := rfind c s' in
      if 0 <=? r then r + 1 else if N.eqb d c then 0 else -1
  end.

Definition path_parts (p : str) : list str :=
  filter (fun x => negb (str_eqb x []) && negb (str_eqb x [DOT]))
         (split_on SLASH p).

Definition path_name (p : str) : str := last (path_parts p) [].

Definition path_suffix (p : str) : str :=
  let name := path_name p in
  let i := rfind DOT name in
  if (0 <? i) && (i <? Z.of_nat (length name) - 1)
  then skipn (Z.to_nat i) name
  else [].

(** The extension in the words of the specification: the part of the whole
    filename that starts at its last ['.'] (empty when it has none). *)
Definition ext_after_last_dot (filename : str) : str :=
  let i := rfind DOT filename in
  if 0 <=? i then skipn (Z.to_nat i) filename else [].

(** ** The upload gate (server.py, lines 102-114) *)

Section Gate.

(** [str.lower]. *)
Variable lower : str -> str.

Definition _looks_like_cow (filename content_type : option str) : bool :=
  match content_type with
  | None | Some [] => false
  | Some ct =>
      if negb (str_in (lower ct) ALLOWED_CT) then false
      else
        match filename with
        | None | Some [] => false
        | Some f =>
            let ext := lower (path_suffix f) in
            if negb (str_in ext ALLOWED_EXT) then false
            else
              let name := lower f in
              (* the loop returns True at the first keyword found and
                 falls through to [return False] otherwise *)
              existsb (fun kw => contains name kw) COW_KEYWORDS
        end
  end.

End Gate.

(** [str.lower] on ASCII text: ['A'..'Z'] move to ['a'..'z']. *)
Definition ascii_lower_cp (c : N) : N :=
  if (N.leb 65 c && N.leb c 90)%bool then (c + 32)%N else c.

Definition ascii_lower (s : str) : str := map ascii_lower_cp s.

Definition is_ascii (s : str) : bool := forallb (fun c => N.ltb c 128) s.

(** What the development assumes of [str.lower]. *)
Definition lower_on_ascii (lower : str -> str) : Prop :=
  forall s, is_ascii s = true -> lower s = ascii_lower s.

(** ** Data model (server.py, lines 45-51) *)

(** A stored prediction document. The handler stores the record's [id] a
    second time under the key [_id]; the two always coincide, so the model
    keeps one field. The timestamp is the creation instant: the stored ISO
    8601 text of a UTC instant orders as the instant does. *)
Module Prediction.
Record t : Type := mk {
  id : str;
  filename : option str;
  content_type : option str;
  breed : string;
  timestamp : Z
}.
End Prediction.

(** The part of a multipart upload the handler looks at. *)
Module UploadFile.
Record t : Type := mk {
  filename : option str;
  content_type : option str;
  body : list Byte.byte
}.
End UploadFile.

(** ** The world of a handler *)

Record world : Type := mkWorld {
  predictions : list Prediction.t;            (* db.predictions, insertion order *)
  uploads : list (str * list Byte.byte);      (* files under UPLOADS_DIR *)
  log : list string                           (* records sent to [logging] *)
}.

(** The exceptions a handler sees, by the class that decides which [except]
    clause catches them: [HTTPException], which derives from [Exception];
    any other exception derived from [Exception]; and a [BaseException]
    outside [Exception] ([asyncio.CancelledError], [KeyboardInterrupt],
    [SystemExit]), which [except Exception] does not catch. *)
Inductive exn : Type :=
| HTTPException (status_code : Z) (detail : string)
| Exception (what : string)
| BaseException (what : string).

Inductive result (A : Type) : Type :=
| Ok (a : A)
| Raise (e : exn).
Arguments Ok {A} a.
Arguments Raise {A} e.

Definition M (A : Type) : Type := world -> result A * world.

Definition ret {A} (a : A) : M A := fun w => (Ok a, w).

Definition raise {A} (e : exn) : M A := fun w => (Raise e, w).

Definition bind {A B} (m : M A) (k : A -> M B) : M B :=
  fun w =>
    match m w with
    | (Ok a, w') => k a w'
    | (Raise e, w') => (Raise e, w')
    end.

Notation "x <- m ;; k" := (bind m (fun x => k))
  (at level 61, m at next level, right associativity).
Notation "m ;;; k" := (bind m (fun _ => k))
  (at level 61, right associativity).

(** [try: m  except Exception: pass]. [HTTPException] derives from
    [Exception], so both kinds are swallowed; nothing is written to the
    log. A [BaseException] outside [Exception] is not caught. *)
Definition try_except_pass (m : M unit) : M unit :=
  fun w =>
    match m w with
    | (Ok _, w') => (Ok tt, w')
    | (Raise (BaseException b), w') => (Raise (BaseException b), w')
    | (Raise _, w') => (Ok tt, w')
    end.

(** [logging.exception(msg)]. *)
Definition logging_exception (msg : string) : M unit :=
  fun w => (Ok tt, mkWorld (predictions w) (uploads w) (msg :: log w)).

(** The handler's outer
    [except HTTPException: raise] /
    [except Exception as e: logging.exception(...); raise HTTPException(500, ...)].
    Neither clause catches a [BaseException] outside [Exception]. *)
Definition try_except_500 {A} (m : M A) : M A :=
  fun w =>
    match m w with
    | (Ok a, w') => (Ok a, w')
    | (Raise (HTTPException s d), w') => (Raise (HTTPException s d), w')
    | (Raise (Exception e), w') =>
        (logging_exception ("Prediction failed: " ++ e) ;;;
         raise (HTTPException 500 "Prediction failed")) w'
    | (Raise (BaseException b), w') => (Raise (BaseException b), w')
    end.

(** ** Collaborators: the document store and the scratch directory *)

(** Which collaborator calls of a request raise; a call that raises, raises
    an exception derived from [Exception]. *)
Record faults : Type := mkFaults {
  read_raises : bool;
  write_raises : bool;
  insert_one_raises : bool;
  count_documents_raises : bool;
  find_raises : bool;
  delete_many_raises : bool;
  unlink_raises : bool;
  aggregate_raises : bool
}.

Definition no_faults : faults :=
  mkFaults false false false false false false false false.

Definition guard (raises : bool) (what : string) : M unit :=
  if raises then raise (Exception what) else ret tt.

(** Stable insertion sort; [le x y] says that [x] may stand before [y]. *)
Fixpoint insert_by {A} (le : A -> A -> bool) (x : A) (l : list A) : list A :=
  match l with
  | [] => [x]
  | y :: l' => if le x y then x :: l else y :: insert_by le x l'
  end.

Fixpoint sort_by {A} (le : A -> A -> bool) (l : list A) : list A :=
  match l with
  | [] => []
  | x :: l' => insert_by le x (sort_by le l')
  end.

(** [.sort("timestamp", 1)] and [.sort("timestamp", -1)]. *)
Definition ts_asc (a b : Prediction.t) : bool :=
  Prediction.timestamp a <=? Prediction.timestamp b.
Definition ts_desc (a b : Prediction.t) : bool :=
  Prediction.timestamp b <=? Prediction.timestamp a.

(** [cursor.limit(n)]: [0] means no limit, a negative [n] limits to [|n|]. *)
Definition cursor_limit {A} (n : Z) (l : list A) : list A :=
  if n =? 0 then l else firstn (Z.to_nat (Z.abs n)) l.

Definition has_id (i : str) (d : Prediction.t) : bool :=
  str_eqb (Prediction.id d) i.

(** [await file.read()]. *)
Definition file_read (fl : faults) (file : UploadFile.t) : M (list Byte.byte) :=
  guard (read_raises fl) "read" ;;; ret (UploadFile.body file).

(** [with open(path, 'wb') as f: f.write(contents)]. *)
Definition write_file (fl : faults) (name : str) (contents : list Byte.byte)
  : M unit :=
  guard (write_raises fl) "open" ;;;
  fun w =>
    (Ok tt,
     mkWorld (predictions w)
       ((name, contents) :: filter (fun e => negb (str_eqb (fst e) name)) (uploads w))
       (log w)).

(** [path.unlink(missing_ok=True)]. *)
Definition unlink (fl : faults) (name : str) : M unit :=
  guard (unlink_raises fl) "unlink" ;;;
  fun w =>
    (Ok tt,
     mkWorld (predictions w)
       (filter (fun e => negb (str_eqb (fst e) name)) (uploads w))
       (log w)).

(** [await db.predictions.insert_one(doc)]; a key that is already stored is
    a DuplicateKeyError. *)
Definition insert_one (fl : faults) (doc : Prediction.t) : M unit :=
  guard (insert_one_raises fl) "insert_one" ;;;
  fun w =>
    if existsb (has_id (Prediction.id doc)) (predictions w)
    then (Raise (Exception "DuplicateKeyError"), w)
    else (Ok tt, mkWorld (predictions w ++ [doc]) (uploads w) (log w)).

(** [await db.predictions.count_documents({})]. *)
Definition count_documents (fl : faults) : M Z :=
  guard (count_documents_raises fl) "count_documents" ;;;
  fun w => (Ok (Z.of_nat (length (predictions w))), w).

(** [db.predictions.find({}, ...).sort("timestamp", dir).limit(n)], read to
    its end. *)
Definition find_sort_limit (fl : faults)
    (order : Prediction.t -> Prediction.t -> bool) (n : Z)
  : M (list Prediction.t) :=
  guard (find_raises fl) "find" ;;;
  fun w => (Ok (cursor_limit n (sort_by order (predictions w))), w).

(** [await db.predictions.delete_many({"_id": {"$in": ids}})]. *)
Definition delete_many (fl : faults) (ids : list str) : M unit :=
  guard (delete_many_raises fl) "delete_many" ;;;
  fun w =>
    (Ok tt,
     mkWorld
       (filter (fun d => negb (str_in (Prediction.id d) ids)) (predictions w))
       (uploads w) (log w)).

(** ** The prediction handler (server.py, lines 117-173) *)

(** The retention bound written in the handler. *)
Definition RETENTION : Z := 20.

(** The body of the pruning [try] block (lines 151-157). *)
Definition prune_predictions (fl : faults) : M unit :=
  total <- count_documents fl ;;
  if RETENTION <? total then
    cursor <- find_sort_limit fl ts_asc (total - RETENTION) ;;
    let to_delete := map Prediction.id cursor in
    match to_delete with
    | [] => ret tt
    | _ :: _ => delete_many fl to_delete
    end
  else ret tt.

(** A value that a pure helper failed to produce is an exception. *)
Definition lift_option {A} (what : string) (o : option A) : M A :=
  match o with
  | Some a => ret a
  | None => raise (Exception what)
  end.

(** The JSON object [{"breed": predicted}]. *)
Definition breed_response (predicted : string) : list (string * string) :=
  [("breed"%string, predicted)].

Section Handler.

Variable lower : str -> str.

(** [fl] decides which collaborator calls raise; [tmp_uuid] and [rec_uuid]
    are the two [uuid.uuid4()] draws (scratch file name, record id) and
    [now] is [datetime.now(timezone.utc)]. *)
Definition predict_cattle_breed (fl : faults) (tmp_uuid rec_uuid : str)
    (now : Z) (file : UploadFile.t) : M (list (string * string)) :=
  match UploadFile.content_type file with
  | None => raise (HTTPException 400 "Please upload an image file")
  | Some ct =>
      if negb (_looks_like_cow lower
                 (Some (py_or (UploadFile.filename file) []))
                 (Some ct))
      then raise (HTTPException 400
             "Uploaded image does not appear to be a cow (mock heuristic)")
      else
        try_except_500 (
          let suffix :=
            if truthy (UploadFile.filename file)
            then path_suffix (py_or (UploadFile.filename file) [])
            else [] in
          let temp_name := tmp_uuid ++ suffix in
          contents <- file_read fl file ;;
          write_file fl temp_name contents ;;;
          let seed := py_or (UploadFile.filename file) (cps "default") in
          predicted <- lift_option "IndexError" (_mock_breed_choice seed) ;;
          let doc := Prediction.mk rec_uuid (UploadFile.filename file)
                       (Some ct) predicted now in
          insert_one fl doc ;;;
          try_except_pass (prune_predictions fl) ;;;
          try_except_pass (unlink fl temp_name) ;;;
          ret (breed_response predicted))
  end.

End Handler.

(** The part of the handler after the upload check that touches the
    store: the insert followed by the guarded pruning. *)
Definition insert_then_prune (fl : faults) (doc : Prediction.t) : M unit :=
  insert_one fl doc ;;; try_except_pass (prune_predictions fl).

(** The store after a sequence of inserts, each followed by its pruning; an
    insert that raises leaves the store as it was. *)
Definition run_inserts (fl : faults) (docs : list Prediction.t) (w : world)
  : world :=
  fold_left (fun w d => snd (insert_then_prune fl d w)) docs w.

Definition empty_world : world := mkWorld [] [] [].

(** ** Recent predictions (server.py, lines 176-182) *)

(** [max(1, min(50, limit))]. *)
Definition clamp_limit (limit : Z) : Z := Z.max 1 (Z.min 50 limit).

(** [limit] is [None] when the query string has no [limit]: the parameter's
    default, 20, is used. The projection [{"_id": 0}] drops the second copy
    of the id. *)
Definition get_recent_predictions (fl : faults) (limit : option Z)
  : M (list Prediction.t) :=
  let limit := match limit with Some l => l | None => 20 end in
  let limit := clamp_limit limit in
  preds <- find_sort_limit fl ts_desc limit ;;
  ret (firstn (Z.to_nat limit) preds).

(** ** Analytics summary (server.py, lines 185-196) *)

(** A Python [dict] from breed to count, in insertion order. *)
Definition dict := list (string * Z).

Fixpoint dict_get (d : dict) (k : string) : option Z :=
  match d with
  | [] => None
  | (k', v) :: d' => if String.eqb k' k then Some v else dict_get d' k
  end.

(** [d[k] = v]: an existing key keeps its place. *)
Fixpoint dict_set (d : dict) (k : string) (v : Z) : dict :=
  match d with
  | [] => [(k, v)]
  | (k', v') :: d' =>
      if String.eqb k' k then (k', v) :: d' else (k', v') :: dict_set d' k v
  end.

(** [{"$group": {"_id": "$breed", "count": {"$sum": 1}}}]: one row per
    distinct breed, in order of first appearance. *)
Fixpoint group_rows (rows : dict) (breeds : list string) : dict :=
  match breeds with
  | [] => rows
  | b :: rest =>
      group_rows
        (dict_set rows b (match dict_get rows b with
                          | Some n => n + 1
                          | None => 1
                          end))
        rest
  end.

(** [{"$sort": {"count": -1}}]. *)
Definition count_desc (a b : string * Z) : bool := snd b <=? snd a.

(** [await db.predictions.aggregate(pipeline).to_list(length=100)]. *)
Definition aggregate (fl : faults) : M dict :=
  guard (aggregate_raises fl) "aggregate" ;;;
  fun w =>
    (Ok (firstn 100
           (sort_by count_desc
              (group_rows [] (map Prediction.breed (predictions w))))),
     w).

(** [max(keys, key=f)] on a non-empty sequence [best :: rest]: the first
    key of greatest value. *)
Fixpoint max_by (f : string -> Z) (best : string) (rest : list string)
  : string :=
  match rest with
  | [] => best
  | k :: rest' => if f best <? f k then max_by f k rest' else max_by f best rest'
  end.

Module Summary.
Record t : Type := mk {
  by_breed : dict;
  total : Z;
  most_common : option string
}.
End Summary.

(** [by_breed.get] as the key function of [max]: every key it is applied to
    is a key of [by_breed], so the [None] of a missing key never shows. *)
Definition get_or_zero (d : dict) (k : string) : Z :=
  match dict_get d k with
  | Some v => v
  | None => 0
  end.

Definition get_analytics_summary (fl : faults) : M Summary.t :=
  agg <- aggregate fl ;;
  let by_breed := fold_left (fun d a => dict_set d (fst a) (snd a)) agg [] in
  let total := fold_right Z.add 0 (map snd by_breed) in
  let most :=
    match map fst by_breed with
    | [] => None
    | k :: ks =>
        Some (max_by (get_or_zero by_breed) k ks)
    end in
  ret (Summary.mk by_breed total most).

(** ** Predicates used in the statements *)

(** [sub] occurs in [s] as a contiguous run. *)
Definition occurs_in (sub s : str) : Prop :=
  exists pre post, s = pre ++ sub ++ post.

(** Acceptance spelled out, with the extension taken by [extension]. *)
Definition gate_conditions (extension : str -> str) (lower : str -> str)
    (filename content_type : option str) : Prop :=
  (exists ct, content_type = Some ct /\ In (lower ct) ALLOWED_CT) /\
  (exists f, filename = Some f /\
             In (lower (extension f)) ALLOWED_EXT /\
             exists kw, In kw COW_KEYWORDS /\ occurs_in kw (lower f)).

Definition ids (l : list Prediction.t) : list str := map Prediction.id l.

Definition breeds_of (w : world) : list string :=
  map Prediction.breed (predictions w).

(** How often [b] occurs among the breeds [bs]. *)
Definition occurrences (bs : list string) (b : string) : Z :=
  Z.of_nat (count_occ string_dec bs b).

Definition older_eq (a b : Prediction.t) : Prop :=
  Prediction.timestamp a <= Prediction.timestamp b.

(** The records that the pruning of a store [l] removes: the
    [length l - 20] first of [l] sorted by ascending timestamp. *)
Definition oldest_excess (l : list Prediction.t) : list Prediction.t :=
  firstn (length l - 20) (sort_by ts_asc l).

(** What holds of every store the handlers build: ids are unique and
    every breed is one of BREEDS. *)
Definition store_ok (l : list Prediction.t) : Prop :=
  NoDup (ids l) /\ Forall (fun d => In (Prediction.breed d) BREEDS) l.

(** [m] keeps [store_ok], whether it returns or raises. *)
Definition preserves {A : Type} (m : M A) : Prop :=
  forall w, store_ok (predictions w) -> store_ok (predictions (snd (m w))).

(** The keys of a [dict], and the sum of its values. *)
Definition keys (d : dict) : list string := map fst d.
Definition sum_values (d : dict) : Z := fold_right Z.add 0 (map snd d).

(** ** Sample inputs *)

Definition sample_upload (name ct : string) : UploadFile.t :=
  UploadFile.mk (Some (cps name)) (Some (cps ct)) [].

Definition sample_uuid (n : nat) : str := cps "rec-" ++ [(97 + N.of_nat n)%N].

(** The [n]th sample record, created at instant [n]. *)
Definition sample_record (n : nat) : Prediction.t :=
  Prediction.mk (sample_uuid n) None None "Gir" (Z.of_nat n).

Definition sample_store (n : nat) : list Prediction.t :=
  map sample_record (seq 0 n).

Definition sample_world (n : nat) : world := mkWorld (sample_store n) [] [].

(** A store with the breeds Jersey, Jersey, Gir. *)
Definition three_breeds_world : world :=
  mkWorld
    [Prediction.mk (cps "a") None None "Jersey" 1;
     Prediction.mk (cps "b") None None "Jersey" 2;
     Prediction.mk (cps "c") None None "Gir" 3]
    [] [].

(** Every call of the pruning step and the cleanup raise; reading the
    upload, writing the scratch file and the insert do not. *)
Definition best_effort_faults : faults :=
  mkFaults false false false true true true true false.

(** ** Further predicates on handlers *)

(** [m] writes nothing to the log and raises no [HTTPException]. *)
Definition quiet {A : Type} (m : M A) : Prop :=
  forall w,
    log (snd (m w)) = log w /\
    forall s d, fst (m w) <> Raise (HTTPException s d).

(** [m] raises nothing outside [Exception]. *)
Definition only_exceptions {A : Type} (m : M A) : Prop :=
  forall w b, fst (m w) <> Raise (BaseException b).

(** One request to the prediction handler: what the collaborators do, the
    two uuid draws, the clock and the upload. *)
Record request : Type := mkRequest {
  req_faults : faults;
  req_tmp_uuid : str;
  req_rec_uuid : str;
  req_now : Z;
  req_file : UploadFile.t
}.

(** The world after the prediction handler has served the requests [qs],
    one after the other. *)
Definition serve_all (lower : str -> str) (qs : list request) (w : world)
  : world :=
  fold_left
    (fun w q =>
       snd (predict_cattle_breed lower (req_faults q) (req_tmp_uuid q)
              (req_rec_uuid q) (req_now q) (req_file q) w))
    qs w.

(** The entries of the scratch directory under another name than [name]. *)
Definition other_uploads (name : str) (w : world)
  : list (str * list Byte.byte) :=
  filter (fun e => negb (str_eqb (fst e) name)) (uploads w).

(** ** The prediction handler over arbitrary collaborators *)

Section HandlerOver.

Variable lower : str -> str.

(** What the handler calls: [await file.read()], the write of the scratch
    file, [await db.predictions.insert_one(doc)], the body of the pruning
    [try] block and [temp_path.unlink(missing_ok=True)]. Each may do and
    raise what it likes, a [BaseException] outside [Exception] included
    (a cancellation delivered at an [await]). *)
Variable c_read : UploadFile.t -> M (list Byte.byte).
Variable c_write : str -> list Byte.byte -> M unit.
Variable c_insert : Prediction.t -> M unit.
Variable c_prune : M unit.
Variable c_unlink : str -> M unit.

(** Lines 117-173 with the collaborators left open; [predict_cattle_breed]
    is the instance at the collaborators of a fault pattern (lemma
    [predict_cattle_breed_over]). *)
Definition predict_over (tmp_uuid rec_uuid : str) (now : Z)
    (file : UploadFile.t) : M (list (string * string)) :=
  match UploadFile.content_type file with
  | None => raise (HTTPException 400 "Please upload an image file")
  | Some ct =>
      if negb (_looks_like_cow lower
                 (Some (py_or (UploadFile.filename file) []))
                 (Some ct))
      then raise (HTTPException 400
             "Uploaded image does not appear to be a cow (mock heuristic)")
      else
        try_except_500 (
          let suffix :=
            if truthy (UploadFile.filename file)
            then path_suffix (py_or (UploadFile.filename file) [])
            else [] in
          let temp_name := tmp_uuid ++ suffix in
          contents <- c_read file ;;
          c_write temp_name contents ;;;
          let seed := py_or (UploadFile.filename file) (cps "default") in
          predicted <- lift_option "IndexError" (_mock_breed_choice seed) ;;
          let doc := Prediction.mk rec_uuid (UploadFile.filename file)
                       (Some ct) predicted now in
          c_insert doc ;;;
          try_except_pass c_prune ;;;
          try_except_pass (c_unlink temp_name) ;;;
          ret (breed_response predicted))
  end.

End HandlerOver.

(** [await file.read()] cancelled: [asyncio.CancelledError] is raised at
    the [await]. *)
Definition cancelled_read (file : UploadFile.t) : M (list Byte.byte) :=
  raise (BaseException "CancelledError").

(** ** Download of the source tree (server.py, lines 203-256) *)

(** The project tree below the project root: regular files and
    directories, every directory readable. *)
#[local] Unset Elimination Schemes.
Inductive entry : Type :=
| File (name : str)
| Dir (name : str) (children : list entry).
#[local] Set Elimination Schemes.

Definition EXCLUDE_DIRS : list str :=
  map cps ["node_modules"; "build"; "dist"; ".git"; "__pycache__";
           ".pytest_cache"; ".next"; ".cache"; ".ruff_cache"]%string.

Definition EXCLUDE_FILE_EXT : list str := map cps [".pyc"; ".log"]%string.

(** The names joined to the project root for [variant == "ready"]. *)
Definition READY_PATHS : list str :=
  map cps ["backend"; "frontend"; "scripts"; "tests"; ".github";
           "README.md"]%string.

Definition ZIP_ROOT_PREFIX : str := cps "BreedSense/".

(** ["/".join(segs)]: the path, relative to the project root, of the entry
    reached through the names [segs]; it is what [os.path.relpath(fp,
    start=project_root)] gives for [fp = os.path.join(root, f)]. *)
Fixpoint join_path (segs : list str) : str :=
  match segs with
  | [] => []
  | [s] => s
  | s :: rest => s ++ SLASH :: join_path rest
  end.

(** [os.path.splitext(p)[1]] on a POSIX host: the part from the last ['.']
    of the last component, empty when only ['.'] precede it there. *)
Definition splitext_ext (p : str) : str :=
  let sepIndex := rfind SLASH p in
  let dotIndex := rfind DOT p in
  if sepIndex <? dotIndex then
    let leading :=
      firstn (Z.to_nat (dotIndex - (sepIndex + 1)))
             (skipn (Z.to_nat (sepIndex + 1)) p) in
    if forallb (N.eqb DOT) leading then [] else skipn (Z.to_nat dotIndex) p
  else [].

(** The [files] of one step of [os.walk]: the entries that are no
    directories, in listing order. *)
Definition file_names (children : list entry) : list str :=
  flat_map (fun e => match e with File f => [f] | Dir _ _ => [] end) children.

(** [os.path.isdir] / [os.path.isfile] of a name joined to the project
    root: the entry of that name, if any. *)
Definition find_entry (name : str) (children : list entry) : option entry :=
  find (fun e => match e with
                 | File f => str_eqb f name
                 | Dir d _ => str_eqb d name
                 end) children.

Section Download.

(** [str.lower]. *)
Variable lower : str -> str.

(** The body of [for f in files] (lines 242-250) for the file [f] of the
    directory whose path below the project root is [root]: the archive
    names written, none or one. *)
Definition archive_file (exclude_dirs : list str) (root : list str) (f : str)
  : list str :=
  let ext := splitext_ext f in
  if str_in (lower ext) EXCLUDE_FILE_EXT then []
  else
    let arcname := join_path (root ++ [f]) in
    if existsb (fun seg => str_in seg exclude_dirs) (split_on SLASH arcname)
    then []
    else [ZIP_ROOT_PREFIX ++ arcname].

(** [for root, dirs, files in os.walk(base)] with its body, for the
    directory [e] whose path below the project root is [root]: the files
    of the directory first, then the directories that the pruning
    [dirs[:] = ...] leaves, each walked in turn. The archive names
    written, in order. *)
Fixpoint walk_dir (exclude_dirs : list str) (root : list str) (e : entry)
  {struct e} : list str :=
  match e with
  | File _ => []
  | Dir _ children =>
      flat_map (archive_file exclude_dirs root) (file_names children) ++
      flat_map
        (fun c =>
           match c with
           | Dir d _ =>
               if str_in d exclude_dirs then []
               else walk_dir exclude_dirs (root ++ [d]) c
           | File _ => []
           end)
        children
  end.

(** The names of the members written to the archive, in order, for the
    project root with the entries [project]. *)
Definition download_source_zip (variant : str) (project : list entry)
  : list str :=
  if str_eqb variant (cps "ready") then
    let exclude_dirs := EXCLUDE_DIRS ++ [cps "test_reports"] in
    flat_map
      (fun base =>
         match find_entry base project with
         | Some (Dir d sub) => walk_dir exclude_dirs [base] (Dir d sub)
         | Some (File _) => [ZIP_ROOT_PREFIX ++ join_path [base]]
         | None => []
         end)
      READY_PATHS
  else walk_dir EXCLUDE_DIRS [] (Dir [] project).

End Download.

(** [segs] are the names on the way from a directory with the entries
    [children] down to a file. *)
Inductive file_at : list entry -> list str -> Prop :=
| file_here (children : list entry) (f : str) :
    In (File f) children -> file_at children [f]
| file_below (children sub : list entry) (d : str) (segs : list str) :
    In (Dir d sub) children -> file_at sub segs ->
    file_at children (d :: segs).

(** No name in the tree contains ['/']. *)
Fixpoint names_ok (e : entry) : bool :=
  match e with
  | File f => negb (existsb (N.eqb SLASH) f)
  | Dir d children =>
      negb (existsb (N.eqb SLASH) d) && forallb names_ok children
  end.

(** The conditions under which the walk archives the file at [segs], with
    the set [exclude_dirs]. *)
Definition archivable (lower : str -> str) (exclude_dirs : list str)
    (segs : list str) : Prop :=
  (forall seg, In seg segs -> ~ In seg exclude_dirs) /\
  ~ In (lower (splitext_ext (last segs []))) EXCLUDE_FILE_EXT.

(** ** Status checks (server.py, lines 34-83) *)

(** The value under the key [timestamp] of a status document: a string,
    a [datetime], or something else (also: no such key). *)
Inductive timestamp_field : Type :=
| TsStr (text : str)
| TsDatetime (instant : Z)
| TsOther.

(** A status document, as stored in [db.status_checks] and as returned by
    the reader. The store gives every inserted document a key of its own,
    so an insert never meets a duplicate. *)
Module StatusDoc.
Record t : Type := mk {
  id : str;
  client_name : str;
  timestamp : timestamp_field
}.
End StatusDoc.

(** The model [StatusCheck]. *)
Module StatusCheck.
Record t : Type := mk {
  id : str;
  client_name : str;
  timestamp : Z
}.
End StatusCheck.

Section StatusChecks.

(** [datetime.isoformat] and [datetime.fromisoformat]; the latter raises
    ValueError ([None]) on a text it cannot read. *)
Variable isoformat : Z -> str.
Variable fromisoformat : str -> option Z.

(** [create_status_check]: [uuid] and [now] are the defaults drawn for
    [id] and [timestamp]; [insert_raises] says whether [insert_one]
    raises. The answer and the collection afterwards. *)
Definition create_status_check (insert_raises : bool) (uuid : str) (now : Z)
    (client_name : str) (store : list StatusDoc.t)
  : result StatusCheck.t * list StatusDoc.t :=
  let status_obj := StatusCheck.mk uuid client_name now in
  let doc := StatusDoc.mk (StatusCheck.id status_obj)
               (StatusCheck.client_name status_obj)
               (TsStr (isoformat (StatusCheck.timestamp status_obj))) in
  if insert_raises then (Raise (Exception "insert_one"), store)
  else (Ok status_obj, store ++ [doc]).

(** The loop of [get_status_checks] over the documents read: a string
    timestamp is replaced by the [datetime] it reads as. *)
Fixpoint convert_timestamps (checks : list StatusDoc.t)
  : option (list StatusDoc.t) :=
  match checks with
  | [] => Some []
  | check :: rest =>
      match
        match StatusDoc.timestamp check with
        | TsStr text =>
            match fromisoformat text with
            | Some t =>
                Some (StatusDoc.mk (StatusDoc.id check)
                        (StatusDoc.client_name check) (TsDatetime t))
            | None => None
            end
        | _ => Some check
        end
      with
      | Some check' =>
          match convert_timestamps rest with
          | Some rest' => Some (check' :: rest')
          | None => None
          end
      | None => None
      end
  end.

(** [get_status_checks]: the first 1000 documents, timestamps converted. *)
Definition get_status_checks (find_raises : bool) (store : list StatusDoc.t)
  : result (list StatusDoc.t) :=
  if find_raises then Raise (Exception "find")
  else
    match convert_timestamps (firstn 1000 store) with
    | Some checks => Ok checks
    | None => Raise (Exception "ValueError")
    end.

(** The collection after the status checks [inputs] (uuid, clock, client
    name) were created one after the other, no insert raising. *)
Definition create_all (inputs : list (str * Z * str))
    (store : list StatusDoc.t) : list StatusDoc.t :=
  fold_left
    (fun store i =>
       snd (create_status_check false (fst (fst i)) (snd (fst i)) (snd i)
              store))
    inputs store.

End StatusChecks.

(** The document the reader returns for a status check. *)
Definition status_doc (i : str * Z * str) : StatusDoc.t :=
  StatusDoc.mk (fst (fst i)) (snd i) (TsDatetime (snd (fst i))).

(** A stand-in for the ISO 8601 text of an instant, and its reader. *)
Definition sample_isoformat (t : Z) : str :=
  [if t <? 0 then 45%N else 43%N; Z.to_N (Z.abs t)].

Definition sample_fromisoformat (s : str) : option Z :=
  match s with
  | [sign; n] =>
      if N.eqb sign 45 then Some (- Z.of_N n)
      else if N.eqb sign 43 then Some (Z.of_N n) else None
  | _ => None
  end.

(** ** More sample inputs *)

(** The insert raises; nothing else does. *)
Definition insert_faults : faults :=
  mkFaults false false true false false false false false.

(** A small project tree. *)
Definition sample_project : list entry :=
  [Dir (cps "backend")
     [File (cps "server.py"); File (cps "server.pyc");
      Dir (cps "__pycache__") [File (cps "server.cpython-311.py")];
      Dir (cps "uploads") []];
   Dir (cps "node_modules") [File (cps "index.js")];
   Dir (cps "test_reports") [File (cps "iteration_1.json")];
   File (cps "README.md");
   File (cps ".log")].

(** * Properties *)

(** ** Strings *)

Lemma str_eqb_eq (a b : str) : str_eqb a b = true <-> a = b.
Proof.
  unfold str_eqb. destruct (list_eq_dec N.eq_dec a b); split; congruence.
Qed.

Lemma str_in_In (x : str) (xs : list str) : str_in x xs = true <-> In x xs.
Proof.
  unfold str_in. rewrite existsb_exists. split.
  - intros [y [Hy E]]. apply str_eqb_eq in E. now subst.
  - intros H. exists x. split; [assumption | now apply str_eqb_eq].
Qed.

Lemma startswith_prefix (p s : str) :
  startswith s p = true <-> exists post, s = p ++ post.
Proof.
  revert s. induction p as [|c p IH]; intros s.
  - split; [intros _; now exists s | intros _; now destruct s].
  - destruct s as [|d s]; cbn [startswith].
    + split; [discriminate | intros [post H]; discriminate].
    + rewrite andb_true_iff, N.eqb_eq, IH. split.
      * intros [-> [post ->]]. now exists post.
      * intros [post H]. injection H as -> ->. split; [reflexivity | now exists post].
Qed.

Lemma contains_occurs (sub s : str) :
  contains s sub = true <-> occurs_in sub s.
Proof.
  unfold occurs_in. induction s as [|d s IH].
  - cbn [contains]. rewrite orb_false_r, startswith_prefix. split.
    + intros [post H]. now exists [], post.
    + intros [pre [post H]]. destruct pre; [now exists post | discriminate].
  - cbn [contains]. rewrite orb_true_iff, startswith_prefix, IH. split.
    + intros [[post H] | [pre [post H]]].
      * now exists [], post.
      * exists (d :: pre), post. now rewrite H.
    + intros [[|e pre] [post H]].
      * left. now exists post.
      * right. injection H as _ H. now exists pre, post.
Qed.

Lemma ascii_lower_on_ascii : lower_on_ascii ascii_lower.
Proof. intros s _. reflexivity. Qed.

(** ** The breed selector *)

Lemma hash_loop_fold (seed : str) (h : Z) :
  hash_loop h seed =
  fold_left (fun h ch => (h * 131 + Z.of_N ch) mod 1000003) seed h.
Proof.
  revert h. induction seed as [|ch rest IH]; intros h; simpl.
  - reflexivity.
  - apply IH.
Qed.

Lemma breed_index_spec (seed : str) : breed_index seed = spec_hash_index seed.
Proof. unfold breed_index, spec_hash_index. now rewrite hash_loop_fold. Qed.

Lemma breed_index_range (seed : str) :
  0 <= breed_index seed < Z.of_nat (length BREEDS).
Proof. unfold breed_index. apply Z.mod_pos_bound. simpl. lia. Qed.

Lemma breed_choice_total (seed : str) :
  exists label, _mock_breed_choice seed = Some label /\ In label BREEDS.
Proof.
  unfold _mock_breed_choice.
  destruct (nth_error BREEDS (Z.to_nat (breed_index seed))) as [label|] eqn:E.
  - exists label. split; [reflexivity | eapply nth_error_In; eassumption].
  - apply nth_error_None in E. pose proof (breed_index_range seed). lia.
Qed.

(** C1. For every seed the selector's index is the left fold of
    [h := (h * 131 + code_point) mod 1000003] from 0 over the characters in
    order, reduced modulo the number of breeds; it lies in
    [0, |BREEDS|), so the selector always returns the breed at that index;
    for the empty seed the index is 0 and the label is the first breed,
    Jersey. *)
Theorem breed_choice_is_seed_hash (seed : str) :
  breed_index seed = spec_hash_index seed /\
  0 <= breed_index seed < Z.of_nat (length BREEDS) /\
  _mock_breed_choice seed = nth_error BREEDS (Z.to_nat (spec_hash_index seed)) /\
  (exists label, _mock_breed_choice seed = Some label /\ In label BREEDS) /\
  breed_index [] = 0 /\
  _mock_breed_choice [] = Some "Jersey"%string /\
  hd_error BREEDS = Some "Jersey"%string.
Proof.
  pose proof (breed_index_spec seed) as E.
  split; [exact E|].
  split; [apply breed_index_range|].
  split; [unfold _mock_breed_choice; now rewrite E|].
  split; [apply breed_choice_total|].
  repeat split.
Qed.

(** ** Paths *)

Lemma rfind_cases (c : N) (s : str) :
  (rfind c s = -1 /\ ~ In c s) \/
  (exists pre post,
     s = pre ++ c :: post /\ rfind c s = Z.of_nat (length pre) /\
     ~ In c post).
Proof.
  induction s as [|d s IH]; cbn [rfind].
  - left. split; [reflexivity | intros []].
  - destruct IH as [[E Hn] | (pre & post & -> & E & Hn)].
    + rewrite E. simpl (0 <=? -1).  cbv iota.
      destruct (N.eqb d c) eqn:Edc.
      * apply N.eqb_eq in Edc. subst d. right.
        exists [], s. repeat split; assumption.
      * apply N.eqb_neq in Edc. left. split; [reflexivity|].
        intros [H | H]; [congruence | contradiction].
    + rewrite E.
      destruct (0 <=? Z.of_nat (length pre)) eqn:E0;
        [|apply Z.leb_gt in E0; lia].
      right. exists (d :: pre), post. repeat split; try assumption.
      cbn [length]. lia.
Qed.

Lemma split_on_no_sep (sep : N) (s : str) :
  ~ In sep s -> split_on sep s = [s].
Proof.
  induction s as [|c s IH]; intros H; cbn [split_on].
  - reflexivity.
  - destruct (N.eqb c sep) eqn:E.
    + apply N.eqb_eq in E. subst c. exfalso. apply H. now left.
    + rewrite IH; [reflexivity|]. intros Hin. apply H. now right.
Qed.

(** For a filename without ['/'], the suffix is the part from the last
    ['.'], except that a filename which starts with its only ['.'] or ends
    with a ['.'] has no suffix. *)
Lemma path_suffix_no_slash (f : str) :
  ~ In SLASH f ->
  path_suffix f = ext_after_last_dot f \/
  (path_suffix f = [] /\
   (ext_after_last_dot f = f \/ ext_after_last_dot f = [DOT])).
Proof.
  intros Hns. unfold path_suffix, path_name, path_parts, ext_after_last_dot.
  rewrite (split_on_no_sep _ _ Hns). cbn [filter].
  destruct (str_eqb f []) eqn:Enil.
  { apply str_eqb_eq in Enil. subst f. left. reflexivity. }
  destruct (str_eqb f [DOT]) eqn:Edot.
  { apply str_eqb_eq in Edot. subst f. right. split; [reflexivity|].
    left. reflexivity. }
  cbn [negb andb last].
  destruct (rfind_cases DOT f) as [[E _] | (pre & post & Hf & E & Hn)].
  - rewrite E. left. reflexivity.
  - rewrite E.
    destruct (0 <=? Z.of_nat (length pre)) eqn:E0;
      [|apply Z.leb_gt in E0; lia].
    rewrite Nat2Z.id.
    destruct ((0 <? Z.of_nat (length pre)) &&
              (Z.of_nat (length pre) <? Z.of_nat (length f) - 1)) eqn:Eb.
    + left. reflexivity.
    + right. split; [reflexivity|].
      apply andb_false_iff in Eb. destruct Eb as [Eb | Eb].
      * apply Z.ltb_ge in Eb. left.
        replace (length pre) with 0%nat by lia. reflexivity.
      * apply Z.ltb_ge in Eb. right. subst f.
        rewrite length_app in Eb. cbn [length] in Eb.
        assert (post = []) by (destruct post; [reflexivity | cbn [length] in Eb; lia]).
        subst post. rewrite skipn_app, skipn_all, Nat.sub_diag. reflexivity.
Qed.

(** ** The upload gate *)

Section GateProperties.

Variable lower : str -> str.

Lemma gate_no_content_type (filename : option str) :
  _looks_like_cow lower filename None = false.
Proof. reflexivity. Qed.

Lemma gate_no_filename (content_type : option str) :
  _looks_like_cow lower None content_type = false.
Proof.
  unfold _looks_like_cow. destruct content_type as [[|c ct]|]; try reflexivity.
  now destruct (negb _).
Qed.

Lemma gate_empty_filename (content_type : option str) :
  _looks_like_cow lower (Some []) content_type = false.
Proof.
  unfold _looks_like_cow. destruct content_type as [[|c ct]|]; try reflexivity.
  now destruct (negb _).
Qed.

(** The call in the handler, with [filename or ""], decides as the upload
    gate does on the filename itself. *)
Lemma gate_py_or (filename content_type : option str) :
  _looks_like_cow lower (Some (py_or filename [])) content_type =
  _looks_like_cow lower filename content_type.
Proof.
  destruct filename as [[|c f]|]; simpl py_or.
  - reflexivity.
  - reflexivity.
  - now rewrite gate_empty_filename, gate_no_filename.
Qed.

Lemma gate_unfold (c d : N) (f ct : str) :
  _looks_like_cow lower (Some (d :: f)) (Some (c :: ct)) =
  str_in (lower (c :: ct)) ALLOWED_CT &&
  (str_in (lower (path_suffix (d :: f))) ALLOWED_EXT &&
   existsb (fun kw => contains (lower (d :: f)) kw) COW_KEYWORDS).
Proof.
  unfold _looks_like_cow.
  destruct (str_in (lower (c :: ct)) ALLOWED_CT);
    destruct (str_in (lower (path_suffix (d :: f))) ALLOWED_EXT);
    reflexivity.
Qed.

Lemma gate_unfold_ne (f ct : str) :
  f <> [] -> ct <> [] ->
  _looks_like_cow lower (Some f) (Some ct) =
  str_in (lower ct) ALLOWED_CT &&
  (str_in (lower (path_suffix f)) ALLOWED_EXT &&
   existsb (fun kw => contains (lower f) kw) COW_KEYWORDS).
Proof.
  intros Hf Hct.
  destruct ct as [|c ct]; [contradiction|].
  destruct f as [|d f]; [contradiction|].
  apply gate_unfold.
Qed.

Lemma gate_true_inv (filename content_type : option str) :
  _looks_like_cow lower filename content_type = true ->
  exists f ct,
    filename = Some f /\ f <> [] /\ content_type = Some ct /\ ct <> [] /\
    str_in (lower ct) ALLOWED_CT = true /\
    str_in (lower (path_suffix f)) ALLOWED_EXT = true /\
    existsb (fun kw => contains (lower f) kw) COW_KEYWORDS = true.
Proof.
  destruct content_type as [[|c ct]|];
    [unfold _looks_like_cow; discriminate | |
     unfold _looks_like_cow; discriminate].
  destruct filename as [[|d f]|];
    [now rewrite gate_empty_filename | | now rewrite gate_no_filename].
  rewrite gate_unfold, !andb_true_iff. intros (E1 & E2 & E3).
  exists (d :: f), (c :: ct).
  split; [reflexivity|]. split; [discriminate|].
  split; [reflexivity|]. split; [discriminate|].
  now repeat split.
Qed.

Lemma gate_true_intro (f ct : str) :
  f <> [] -> ct <> [] ->
  str_in (lower ct) ALLOWED_CT = true ->
  str_in (lower (path_suffix f)) ALLOWED_EXT = true ->
  existsb (fun kw => contains (lower f) kw) COW_KEYWORDS = true ->
  _looks_like_cow lower (Some f) (Some ct) = true.
Proof.
  intros Hf Hct E1 E2 E3.
  destruct ct as [|c ct]; [contradiction|].
  destruct f as [|d f]; [contradiction|].
  now rewrite gate_unfold, E1, E2, E3.
Qed.

Hypothesis lower_ascii : lower_on_ascii lower.

Lemma lower_nil : lower [] = [].
Proof. now rewrite lower_ascii. Qed.

Lemma nil_not_allowed_ct : ~ In (lower []) ALLOWED_CT.
Proof.
  rewrite lower_nil. rewrite <- str_in_In. now vm_compute.
Qed.

Lemma nil_not_allowed_ext : ~ In (lower []) ALLOWED_EXT.
Proof.
  rewrite lower_nil. rewrite <- str_in_In. now vm_compute.
Qed.

Lemma keywords_not_in_ext (e : str) :
  In e ALLOWED_EXT ->
  existsb (fun kw => contains e kw) COW_KEYWORDS = false.
Proof.
  intros H. apply str_in_In in H. unfold str_in, ALLOWED_EXT in H.
  cbn [map existsb] in H. rewrite !orb_true_iff, !str_eqb_eq in H.
  destruct H as [-> | [-> | [-> | [-> | H]]]];
    [vm_compute; reflexivity .. | discriminate].
Qed.

Lemma dot_not_allowed_ext : ~ In (lower [DOT]) ALLOWED_EXT.
Proof.
  rewrite (lower_ascii [DOT] eq_refl). rewrite <- str_in_In. now vm_compute.
Qed.

Lemma gate_conditions_some (extension : str -> str) (f : str)
    (content_type : option str) :
  gate_conditions extension lower (Some f) content_type <->
  (exists ct, content_type = Some ct /\ In (lower ct) ALLOWED_CT) /\
  In (lower (extension f)) ALLOWED_EXT /\
  exists kw, In kw COW_KEYWORDS /\ occurs_in kw (lower f).
Proof.
  unfold gate_conditions. split.
  - intros (Hct & g & Hg & Hrest). injection Hg as <-. now split.
  - intros (Hct & Hrest). split; [exact Hct|]. now exists f.
Qed.

(** Without a ['/'] in the filename, reading the extension as the part
    from the last ['.'] decides as the suffix does. *)
Lemma gate_conditions_no_slash (f : str) (content_type : option str) :
  ~ In SLASH f ->
  (gate_conditions path_suffix lower (Some f) content_type <->
   gate_conditions ext_after_last_dot lower (Some f) content_type).
Proof.
  intros Hns. rewrite !gate_conditions_some.
  destruct (path_suffix_no_slash f Hns) as [E | (E & [E' | E'])];
    rewrite E; [tauto | rewrite E' ..].
  - split; intros (_ & Hext & kw & Hkw & Hocc); exfalso.
    + now apply nil_not_allowed_ext in Hext.
    + apply keywords_not_in_ext in Hext.
      assert (X : existsb (fun kw => contains (lower f) kw) COW_KEYWORDS
                  = true).
      { apply existsb_exists. exists kw. split; [exact Hkw|].
        now apply contains_occurs. }
      congruence.
  - split; intros (_ & Hext & _); exfalso.
    + now apply nil_not_allowed_ext in Hext.
    + now apply dot_not_allowed_ext.
Qed.

(** C2 (amended). The upload gate accepts exactly when the content-type is
    present and its lowercase form is an allowed type, the filename is
    present, the lowercase form of the filename's [pathlib] suffix (the
    suffix of its final path component) is an allowed extension, and a
    cattle keyword occurs in the lowercased filename; nothing is accepted
    without a filename. For a filename without ['/'] the suffix may be
    read, as stated, as the part of the filename from its last ['.']. *)
Theorem gate_accepts_iff (filename content_type : option str) :
  (_looks_like_cow lower filename content_type = true <->
   gate_conditions path_suffix lower filename content_type) /\
  _looks_like_cow lower None content_type = false /\
  (forall f, filename = Some f -> ~ In SLASH f ->
     (_looks_like_cow lower filename content_type = true <->
      gate_conditions ext_after_last_dot lower filename content_type)).
Proof.
  assert (Hmain : forall filename,
            _looks_like_cow lower filename content_type = true <->
            gate_conditions path_suffix lower filename content_type);
    [clear filename; intros filename
    | split; [apply Hmain|]; split; [apply gate_no_filename|];
      intros f -> Hns; rewrite <- gate_conditions_no_slash by exact Hns;
      apply Hmain].
  unfold gate_conditions. split.
  - intros H. apply gate_true_inv in H.
    destruct H as (f & ct & -> & Hf & -> & Hct & E1 & E2 & E3).
    split.
    + exists ct. split; [reflexivity | now apply str_in_In].
    + exists f. split; [reflexivity|]. split; [now apply str_in_In|].
      apply existsb_exists in E3. destruct E3 as [kw [Hkw Hc]].
      exists kw. split; [assumption | now apply contains_occurs].
  - intros [[ct [-> Hct]] [f [-> [Hext [kw [Hkw Hocc]]]]]].
    apply gate_true_intro.
    + intros ->. now apply nil_not_allowed_ext.
    + intros ->. now apply nil_not_allowed_ct.
    + now apply str_in_In.
    + now apply str_in_In.
    + apply existsb_exists. exists kw. split; [assumption|].
      now apply contains_occurs.
Qed.

(** C9. The upload gate accepts ["jersey_cow.jpg"] sent as [image/jpeg], rejects
    ["cow.bmp"] sent as [image/png], and rejects an upload with no
    filename sent as [image/png]. *)
Theorem gate_examples :
  _looks_like_cow lower (Some (cps "jersey_cow.jpg")) (Some (cps "image/jpeg"))
    = true /\
  _looks_like_cow lower (Some (cps "cow.bmp")) (Some (cps "image/png"))
    = false /\
  _looks_like_cow lower None (Some (cps "image/png")) = false.
Proof.
  split; [|split].
  - apply gate_true_intro; try discriminate.
    + now rewrite (lower_ascii (cps "image/jpeg") eq_refl).
    + now rewrite (lower_ascii (path_suffix (cps "jersey_cow.jpg")) eq_refl).
    + now rewrite (lower_ascii (cps "jersey_cow.jpg") eq_refl).
  - rewrite gate_unfold_ne by discriminate.
    rewrite (lower_ascii (path_suffix (cps "cow.bmp")) eq_refl).
    apply andb_false_iff. right. reflexivity.
  - apply gate_no_filename.
Qed.

End GateProperties.

(** ** Sorting and deletion in the store *)

Section SortBy.

Context {A : Type} (le : A -> A -> bool).

Lemma insert_by_perm (x : A) (l : list A) :
  Permutation (insert_by le x l) (x :: l).
Proof.
  induction l as [|y l IH]; simpl.
  - apply Permutation_refl.
  - destruct (le x y).
    + apply Permutation_refl.
    + eapply perm_trans; [apply perm_skip, IH | apply perm_swap].
Qed.

Lemma sort_by_perm (l : list A) : Permutation (sort_by le l) l.
Proof.
  induction l as [|x l IH]; simpl.
  - constructor.
  - eapply perm_trans; [apply insert_by_perm | now apply perm_skip].
Qed.

Lemma sort_by_length (l : list A) : length (sort_by le l) = length l.
Proof. apply Permutation_length, sort_by_perm. Qed.

Hypothesis le_total : forall a b, le a b = true \/ le b a = true.
Hypothesis le_trans :
  forall a b c, le a b = true -> le b c = true -> le a c = true.

Let R (a b : A) : Prop := le a b = true.

Lemma insert_by_sorted (x : A) (l : list A) :
  StronglySorted R l -> StronglySorted R (insert_by le x l).
Proof.
  induction 1 as [|y l Hs IH Hall]; simpl.
  - repeat constructor.
  - destruct (le x y) eqn:E.
    + constructor; [now constructor|].
      constructor; [exact E|].
      eapply Forall_impl; [|exact Hall].
      intros z Hz. eapply le_trans; eassumption.
    + constructor; [exact IH|].
      assert (Hyx : R y x) by (destruct (le_total x y); congruence).
      eapply Permutation_Forall;
        [apply Permutation_sym, insert_by_perm|].
      now constructor.
Qed.

Lemma sort_by_sorted (l : list A) : StronglySorted R (sort_by le l).
Proof.
  induction l as [|x l IH]; simpl.
  - constructor.
  - now apply insert_by_sorted.
Qed.

Lemma sorted_app_le (l1 l2 : list A) :
  StronglySorted R (l1 ++ l2) ->
  forall a b, In a l1 -> In b l2 -> le a b = true.
Proof.
  induction l1 as [|x l1 IH]; simpl; intros Hs a b Ha Hb.
  - contradiction.
  - inversion Hs as [|? ? Hs' Hall]; subst.
    destruct Ha as [<- | Ha].
    + rewrite Forall_forall in Hall. apply Hall, in_or_app. now right.
    + now apply IH.
Qed.

Lemma sorted_firstn (n : nat) (l : list A) :
  StronglySorted R l -> StronglySorted R (firstn n l).
Proof.
  intros Hs. revert n. induction Hs as [|x l Hs IH Hall]; intros [|n]; simpl;
    try constructor.
  - apply IH.
  - rewrite Forall_forall in *. intros y Hy. apply Hall.
    rewrite <- (firstn_skipn n l). apply in_or_app. now left.
Qed.

End SortBy.

Lemma filter_perm {A : Type} (f : A -> bool) (l l' : list A) :
  Permutation l l' -> Permutation (filter f l) (filter f l').
Proof.
  induction 1 as [|x l l' _ IH|x y l|l l' l'' _ IH1 _ IH2]; simpl.
  - constructor.
  - destruct (f x); [now constructor | assumption].
  - destruct (f x), (f y); try apply Permutation_refl. apply perm_swap.
  - eapply perm_trans; eassumption.
Qed.

Lemma ts_asc_total (a b : Prediction.t) : ts_asc a b = true \/ ts_asc b a = true.
Proof. unfold ts_asc. rewrite !Z.leb_le. lia. Qed.

Lemma ts_asc_trans (a b c : Prediction.t) :
  ts_asc a b = true -> ts_asc b c = true -> ts_asc a c = true.
Proof. unfold ts_asc. rewrite !Z.leb_le. lia. Qed.

Lemma ts_desc_total (a b : Prediction.t) :
  ts_desc a b = true \/ ts_desc b a = true.
Proof. unfold ts_desc. rewrite !Z.leb_le. lia. Qed.

Lemma ts_desc_trans (a b c : Prediction.t) :
  ts_desc a b = true -> ts_desc b c = true -> ts_desc a c = true.
Proof. unfold ts_desc. rewrite !Z.leb_le. lia. Qed.

Lemma ids_app (l1 l2 : list Prediction.t) : ids (l1 ++ l2) = ids l1 ++ ids l2.
Proof. apply map_app. Qed.

Lemma has_id_existsb (i : str) (l : list Prediction.t) :
  existsb (has_id i) l = true <-> In i (ids l).
Proof.
  unfold ids. rewrite existsb_exists, in_map_iff. unfold has_id.
  split; intros [d [H1 H2]]; exists d.
  - apply str_eqb_eq in H2. now split.
  - split; [assumption | now apply str_eqb_eq].
Qed.

Lemma NoDup_app_disjoint {A : Type} (l1 l2 : list A) (a : A) :
  NoDup (l1 ++ l2) -> In a l1 -> ~ In a l2.
Proof.
  induction l1 as [|x l1 IH]; simpl; intros Hnd Hin; [contradiction|].
  inversion Hnd as [|? ? Hx Hnd']; subst.
  destruct Hin as [<- | Hin].
  - intros H. apply Hx, in_or_app. now right.
  - now apply IH.
Qed.

Lemma filter_none {A : Type} (f : A -> bool) (l : list A) :
  (forall x, In x l -> f x = false) -> filter f l = [].
Proof.
  induction l as [|x l IH]; simpl; intros H; [reflexivity|].
  rewrite (H x) by now left. apply IH. intros y Hy. apply H. now right.
Qed.

Lemma filter_all {A : Type} (f : A -> bool) (l : list A) :
  (forall x, In x l -> f x = true) -> filter f l = l.
Proof.
  induction l as [|x l IH]; simpl; intros H; [reflexivity|].
  rewrite (H x) by now left. f_equal. apply IH. intros y Hy. apply H. now right.
Qed.

(** Deleting by the id set of a prefix of a store with unique ids removes
    that prefix and nothing else. *)
Lemma delete_prefix_ids (l1 l2 : list Prediction.t) :
  NoDup (ids (l1 ++ l2)) ->
  filter (fun d => negb (str_in (Prediction.id d) (ids l1))) (l1 ++ l2) = l2.
Proof.
  intros Hnd. rewrite filter_app, filter_none, filter_all.
  - reflexivity.
  - intros d Hd.
    destruct (str_in (Prediction.id d) (ids l1)) eqn:E; [|reflexivity].
    apply str_in_In in E. rewrite ids_app in Hnd. exfalso.
    apply (NoDup_app_disjoint _ _ _ Hnd E). unfold ids. now apply in_map.
  - intros d Hd.
    assert (E : str_in (Prediction.id d) (ids l1) = true).
    { apply str_in_In. unfold ids. now apply in_map. }
    now rewrite E.
Qed.

(** ** The retention pruning *)

Lemma cursor_limit_excess {A : Type} (n : nat) (l : list A) :
  (20 < n)%nat ->
  cursor_limit (Z.of_nat n - RETENTION) l = firstn (n - 20) l.
Proof.
  intros Hn. unfold cursor_limit, RETENTION.
  destruct (Z.of_nat n - 20 =? 0) eqn:E; [apply Z.eqb_eq in E; lia|].
  f_equal. lia.
Qed.

(** The pruning step when no collaborator call raises, evaluated. *)
Lemma prune_no_faults (w : world) :
  prune_predictions no_faults w =
  (Ok tt,
   if RETENTION <? Z.of_nat (length (predictions w)) then
     match ids (cursor_limit (Z.of_nat (length (predictions w)) - RETENTION)
                  (sort_by ts_asc (predictions w))) with
     | [] => w
     | i :: to_delete =>
         mkWorld
           (filter (fun d => negb (str_in (Prediction.id d) (i :: to_delete)))
                   (predictions w))
           (uploads w) (log w)
     end
   else w).
Proof.
  unfold prune_predictions, bind, count_documents, find_sort_limit,
    delete_many, guard, ret, ids. simpl.
  destruct (RETENTION <? Z.of_nat (length (predictions w))); [|reflexivity].
  destruct (map Prediction.id _); reflexivity.
Qed.

Lemma prune_spec (w : world) :
  NoDup (ids (predictions w)) ->
  exists w',
    prune_predictions no_faults w = (Ok tt, w') /\
    uploads w' = uploads w /\ log w' = log w /\
    Permutation (predictions w')
      (skipn (length (predictions w) - 20) (sort_by ts_asc (predictions w))) /\
    ((length (predictions w) <= 20)%nat -> w' = w).
Proof.
  intros Hnd. rewrite prune_no_faults. eexists. split; [reflexivity|].
  set (l := predictions w) in *. set (s := sort_by ts_asc l).
  unfold RETENTION.
  destruct (20 <? Z.of_nat (length l)) eqn:E.
  - apply Z.ltb_lt in E. assert (Hn : (20 < length l)%nat) by lia.
    rewrite cursor_limit_excess by exact Hn. fold s.
    assert (Hs : Permutation s l) by apply sort_by_perm.
    assert (Hnd' : NoDup (ids (firstn (length l - 20) s ++ skipn (length l - 20) s))).
    { rewrite firstn_skipn. unfold ids.
      eapply Permutation_NoDup; [|exact Hnd].
      apply Permutation_map, Permutation_sym, Hs. }
    destruct (ids (firstn (length l - 20) s)) as [|i td] eqn:Eids.
    + repeat split; try lia.
      assert (firstn (length l - 20) s = []) as E0.
      { unfold ids in Eids. now apply map_eq_nil in Eids. }
      rewrite <- (firstn_skipn (length l - 20) s) in Hs at 1.
      rewrite E0 in Hs. simpl in Hs. now apply Permutation_sym.
    + cbn [predictions uploads log]. repeat split; try lia.
      rewrite <- Eids.
      eapply perm_trans.
      * apply filter_perm, Permutation_sym, Hs.
      * rewrite <- (firstn_skipn (length l - 20) s) at 1.
        rewrite delete_prefix_ids by exact Hnd'. apply Permutation_refl.
  - apply Z.ltb_ge in E. repeat split.
    replace (length l - 20)%nat with 0%nat by lia. simpl.
    apply Permutation_sym, sort_by_perm.
Qed.

(** Whatever raises, the pruning step touches neither the log nor the
    scratch directory. *)
Lemma prune_keeps_log (fl : faults) (w : world) :
  log (snd (prune_predictions fl w)) = log w /\
  uploads (snd (prune_predictions fl w)) = uploads w.
Proof.
  unfold prune_predictions, bind, count_documents, find_sort_limit,
    delete_many, guard, ret, raise.
  destruct (count_documents_raises fl); simpl; [now split|].
  destruct (RETENTION <? _); simpl; [|now split].
  destruct (find_raises fl); simpl; [now split|].
  destruct (map Prediction.id _); simpl; [now split|].
  destruct (delete_many_raises fl); simpl; now split.
Qed.

Lemma oldest_excess_length (l : list Prediction.t) :
  length (oldest_excess l) = (length l - 20)%nat.
Proof.
  unfold oldest_excess. rewrite length_firstn, sort_by_length. lia.
Qed.

(** What a successful pruning leaves: unique ids, records of the store
    only, and the smaller of the old count and 20 of them. *)
Lemma prune_result (w : world) :
  NoDup (ids (predictions w)) ->
  exists w',
    prune_predictions no_faults w = (Ok tt, w') /\
    NoDup (ids (predictions w')) /\
    incl (predictions w') (predictions w) /\
    length (predictions w') = Nat.min (length (predictions w)) 20 /\
    Permutation (oldest_excess (predictions w) ++ predictions w')
                (predictions w) /\
    ((length (predictions w) <= 20)%nat -> w' = w) /\
    log w' = log w.
Proof.
  intros Hnd. destruct (prune_spec w Hnd) as (w' & E & _ & Hlog & Hp & Hsmall).
  exists w'. split; [exact E|].
  set (l := predictions w) in *. set (s := sort_by ts_asc l) in *.
  assert (Hs : Permutation s l) by apply sort_by_perm.
  assert (Hall : Permutation (oldest_excess l ++ predictions w') l).
  { eapply perm_trans; [|exact Hs].
    eapply perm_trans; [apply Permutation_app_head, Hp|].
    unfold oldest_excess. fold s. now rewrite firstn_skipn. }
  split; [|split; [|split; [|split; [exact Hall | now split]]]].
  - apply NoDup_app_remove_l with (l := ids (oldest_excess l)).
    rewrite <- ids_app. unfold ids.
    eapply Permutation_NoDup; [|exact Hnd].
    apply Permutation_map, Permutation_sym, Hall.
  - intros d Hd. eapply Permutation_in; [exact Hall|].
    apply in_or_app. now right.
  - apply Permutation_length in Hall.
    rewrite length_app, oldest_excess_length in Hall. lia.
Qed.

Lemma insert_one_no_faults (d : Prediction.t) (w : world) :
  insert_one no_faults d w =
  if existsb (has_id (Prediction.id d)) (predictions w)
  then (Raise (Exception "DuplicateKeyError"), w)
  else (Ok tt, mkWorld (predictions w ++ [d]) (uploads w) (log w)).
Proof. reflexivity. Qed.

(** One insert followed by its pruning, no collaborator call raising. *)
Lemma insert_then_prune_step (d : Prediction.t) (w : world) :
  NoDup (ids (predictions w)) ->
  let w' := snd (insert_then_prune no_faults d w) in
  NoDup (ids (predictions w')) /\
  incl (ids (predictions w')) (Prediction.id d :: ids (predictions w)) /\
  (length (predictions w') <= Nat.max (length (predictions w)) 20)%nat /\
  (~ In (Prediction.id d) (ids (predictions w)) ->
   length (predictions w') = Nat.min (length (predictions w) + 1) 20).
Proof.
  intros Hnd. unfold insert_then_prune, bind.
  rewrite insert_one_no_faults.
  destruct (existsb (has_id (Prediction.id d)) (predictions w)) eqn:Edup.
  - cbn [snd]. split; [exact Hnd|]. split; [apply incl_tl, incl_refl|].
    split; [lia|]. intros Hfresh. apply has_id_existsb in Edup. contradiction.
  - set (w1 := mkWorld (predictions w ++ [d]) (uploads w) (log w)).
    assert (Hfresh : ~ In (Prediction.id d) (ids (predictions w))).
    { intros H. apply has_id_existsb in H. congruence. }
    assert (Hnd1 : NoDup (ids (predictions w1))).
    { cbn [w1 predictions]. rewrite ids_app. apply NoDup_app; [exact Hnd | |].
      - repeat constructor. simpl. tauto.
      - intros a Ha [<- | []]. contradiction. }
    destruct (prune_result w1 Hnd1) as (w' & E & Hnd' & Hincl & Hlen & _).
    unfold try_except_pass. rewrite E. cbn [snd].
    split; [exact Hnd'|]. split.
    + intros i Hi. unfold ids in Hi. apply in_map_iff in Hi.
      destruct Hi as (x & <- & Hx). apply Hincl in Hx.
      cbn [w1 predictions] in Hx. apply in_app_or in Hx.
      destruct Hx as [Hx | [<- | []]].
      * right. unfold ids. now apply in_map.
      * now left.
    + cbn [w1 predictions] in Hlen. rewrite length_app in Hlen. simpl in Hlen.
      split; [lia | intros _; lia].
Qed.

Lemma run_inserts_cons (fl : faults) (d : Prediction.t)
    (docs : list Prediction.t) (w : world) :
  run_inserts fl (d :: docs) w =
  run_inserts fl docs (snd (insert_then_prune fl d w)).
Proof. reflexivity. Qed.

Lemma run_inserts_bound (docs : list Prediction.t) (w : world) :
  NoDup (ids (predictions w)) ->
  (length (predictions w) <= 20)%nat ->
  (length (predictions (run_inserts no_faults docs w)) <= 20)%nat.
Proof.
  revert w. induction docs as [|d docs IH]; intros w Hnd Hlen.
  - exact Hlen.
  - rewrite run_inserts_cons. destruct (insert_then_prune_step d w Hnd) as (N & _ & L & _).
    apply IH; [exact N | lia].
Qed.

Lemma run_inserts_count (docs : list Prediction.t) (w : world) :
  NoDup (ids (predictions w)) ->
  (length (predictions w) <= 20)%nat ->
  NoDup (ids docs) ->
  (forall i, In i (ids docs) -> ~ In i (ids (predictions w))) ->
  length (predictions (run_inserts no_faults docs w)) =
  Nat.min (length (predictions w) + length docs) 20.
Proof.
  revert w. induction docs as [|d docs IH]; intros w Hnd Hlen Hdocs Hfresh.
  - simpl. lia.
  - rewrite run_inserts_cons.
    destruct (insert_then_prune_step d w Hnd) as (N & I & _ & L).
    simpl in Hdocs. inversion Hdocs as [|? ? Hd Hdocs']; subst.
    specialize (L (Hfresh _ (or_introl eq_refl))).
    rewrite IH.
    + rewrite L. simpl length. lia.
    + exact N.
    + lia.
    + exact Hdocs'.
    + intros i Hi Hin. apply I in Hin. destruct Hin as [<- | Hin].
      * contradiction.
      * apply (Hfresh i); [now right | exact Hin].
Qed.

(** C3. With unique ids and no collaborator call raising, the pruning step
    reads the count and, above 20, deletes in one [delete_many] by id set
    exactly the count - 20 records that come first by ascending timestamp,
    and no others: the removed and the kept records together are the old
    store, every removed record is at most as recent as every kept one, and
    a store of at most 20 records is left as it is. Consequently any
    sequence of inserts into an empty store, each followed by its pruning,
    leaves at most 20 records (for 25 records of distinct ids, exactly
    20). *)
Theorem retention_prune (w : world) (docs : list Prediction.t) :
  NoDup (ids (predictions w)) ->
  (exists w',
     prune_predictions no_faults w = (Ok tt, w') /\
     Permutation (oldest_excess (predictions w) ++ predictions w')
                 (predictions w) /\
     length (oldest_excess (predictions w)) =
       (length (predictions w) - 20)%nat /\
     (forall a b, In a (oldest_excess (predictions w)) ->
                  In b (predictions w') -> older_eq a b) /\
     ((20 < length (predictions w))%nat ->
      predictions w' =
      filter (fun d => negb (str_in (Prediction.id d)
                               (ids (oldest_excess (predictions w)))))
             (predictions w)) /\
     ((length (predictions w) <= 20)%nat -> w' = w)) /\
  (length (predictions (run_inserts no_faults docs empty_world)) <= 20)%nat /\
  (NoDup (ids docs) ->
   length (predictions (run_inserts no_faults docs empty_world)) =
   Nat.min (length docs) 20) /\
  (NoDup (ids docs) -> length docs = 25%nat ->
   length (predictions (run_inserts no_faults docs empty_world)) = 20%nat).
Proof.
  intros Hnd.
  assert (Hcount : NoDup (ids docs) ->
            length (predictions (run_inserts no_faults docs empty_world)) =
            Nat.min (length docs) 20).
  { intros Hdocs. rewrite run_inserts_count; simpl; auto; try lia.
    constructor. }
  split; [|split; [|split]].
  - destruct (prune_spec w Hnd) as (w' & E & _ & _ & Hp & Hsmall).
    destruct (prune_result w Hnd) as (w'' & E' & _ & _ & _ & Hall & _).
    assert (w'' = w') by congruence. subst w''.
    exists w'. split; [exact E|]. split; [exact Hall|].
    split; [apply oldest_excess_length|]. split; [|split; [|exact Hsmall]].
    + intros a b Ha Hb. unfold older_eq. apply Z.leb_le.
      change (ts_asc a b = true).
      apply (sorted_app_le ts_asc
               (firstn (length (predictions w) - 20)
                  (sort_by ts_asc (predictions w)))
               (skipn (length (predictions w) - 20)
                  (sort_by ts_asc (predictions w)))).
      * rewrite firstn_skipn.
        apply sort_by_sorted; [apply ts_asc_total | apply ts_asc_trans].
      * exact Ha.
      * eapply Permutation_in; [exact Hp | exact Hb].
    + intros Hn. rewrite prune_no_faults in E.
      assert (Hlt : (RETENTION <? Z.of_nat (length (predictions w))) = true)
        by (apply Z.ltb_lt; unfold RETENTION; lia).
      rewrite Hlt, cursor_limit_excess in E by exact Hn.
      fold (oldest_excess (predictions w)) in E.
      destruct (ids (oldest_excess (predictions w))) as [|i td] eqn:Eids.
      * exfalso. pose proof (oldest_excess_length (predictions w)) as Hl.
        unfold ids in Eids. apply map_eq_nil in Eids. rewrite Eids in Hl.
        simpl in Hl. lia.
      * injection E as <-. reflexivity.
  - apply run_inserts_bound; simpl; [constructor | lia].
  - exact Hcount.
  - intros Hdocs H25. rewrite Hcount by exact Hdocs. lia.
Qed.

(** ** The prediction handler *)

Lemma try_except_pass_run (m : M unit) (w : world) :
  only_exceptions m -> try_except_pass m w = (Ok tt, snd (m w)).
Proof.
  intros Hm. specialize (Hm w). unfold try_except_pass.
  destruct (m w) as [[[]|[s d|e|b]] w']; cbn [fst snd] in *;
    [reflexivity | reflexivity | reflexivity | now destruct (Hm b)].
Qed.

Lemma only_exceptions_ret {A : Type} (a : A) : only_exceptions (ret a).
Proof. intros w b. discriminate. Qed.

Lemma only_exceptions_bind {A B : Type} (m : M A) (k : A -> M B) :
  only_exceptions m -> (forall a, only_exceptions (k a)) ->
  only_exceptions (bind m k).
Proof.
  intros Hm Hk w b. unfold bind. specialize (Hm w b).
  destruct (m w) as [[a|e] w']; cbn [fst] in *.
  - apply Hk.
  - intros H. apply Hm. congruence.
Qed.

Lemma only_exceptions_guard (raises : bool) (what : string) :
  only_exceptions (guard raises what).
Proof. intros w b. destruct raises; discriminate. Qed.

Lemma only_exceptions_after_guard {A : Type} (raises : bool) (what : string)
    (m : M A) :
  (forall w, exists a w', m w = (Ok a, w')) ->
  only_exceptions (guard raises what ;;; m).
Proof.
  intros Hm. apply only_exceptions_bind; [apply only_exceptions_guard|].
  intros _ w b. destruct (Hm w) as (a & w' & ->). discriminate.
Qed.

Lemma only_exceptions_unlink (fl : faults) (name : str) :
  only_exceptions (unlink fl name).
Proof. apply only_exceptions_after_guard. intros w. now eexists _, _. Qed.

Lemma only_exceptions_prune (fl : faults) :
  only_exceptions (prune_predictions fl).
Proof.
  unfold prune_predictions. apply only_exceptions_bind.
  { apply only_exceptions_after_guard. intros w. now eexists _, _. }
  intros total. destruct (RETENTION <? total); [|apply only_exceptions_ret].
  apply only_exceptions_bind.
  { apply only_exceptions_after_guard. intros w. now eexists _, _. }
  intros cursor.
  destruct (map Prediction.id cursor); [apply only_exceptions_ret|].
  apply only_exceptions_after_guard. intros w. now eexists _, _.
Qed.

Lemma try_pass_prune_run (fl : faults) (w : world) :
  try_except_pass (prune_predictions fl) w =
  (Ok tt, snd (prune_predictions fl w)).
Proof. apply try_except_pass_run, only_exceptions_prune. Qed.

Lemma try_pass_unlink_run (fl : faults) (name : str) (w : world) :
  try_except_pass (unlink fl name) w = (Ok tt, snd (unlink fl name w)).
Proof. apply try_except_pass_run, only_exceptions_unlink. Qed.

Lemma unlink_keeps (fl : faults) (name : str) (w : world) :
  predictions (snd (unlink fl name w)) = predictions w /\
  log (snd (unlink fl name w)) = log w.
Proof.
  unfold unlink, bind, guard, ret, raise.
  destruct (unlink_raises fl); simpl; now split.
Qed.

Lemma bind_ok {A B : Type} (m : M A) (k : A -> M B) (w w' : world) (a : A) :
  m w = (Ok a, w') -> bind m k w = k a w'.
Proof. intros E. unfold bind. now rewrite E. Qed.

Lemma bind_raise {A B : Type} (m : M A) (k : A -> M B) (w w' : world)
    (e : exn) :
  m w = (Raise e, w') -> bind m k w = (Raise e, w').
Proof. intros E. unfold bind. now rewrite E. Qed.

Lemma file_read_ok (fl : faults) (file : UploadFile.t) (w : world) :
  read_raises fl = false ->
  file_read fl file w = (Ok (UploadFile.body file), w).
Proof. intros E. unfold file_read, guard. now rewrite E. Qed.

Lemma write_file_ok (fl : faults) (name : str) (contents : list Byte.byte)
    (w : world) :
  write_raises fl = false ->
  write_file fl name contents w =
  (Ok tt,
   mkWorld (predictions w)
     ((name, contents)
        :: filter (fun e => negb (str_eqb (fst e) name)) (uploads w))
     (log w)).
Proof. intros E. unfold write_file, guard. now rewrite E. Qed.

Lemma insert_one_ok (fl : faults) (d : Prediction.t) (w : world) :
  insert_one_raises fl = false ->
  existsb (has_id (Prediction.id d)) (predictions w) = false ->
  insert_one fl d w =
  (Ok tt, mkWorld (predictions w ++ [d]) (uploads w) (log w)).
Proof.
  intros E X. unfold insert_one, guard. rewrite E.
  unfold bind, ret. now rewrite X.
Qed.

Lemma bind_ok_inv {A B : Type} (m : M A) (k : A -> M B) (w w'' : world)
    (b : B) :
  bind m k w = (Ok b, w'') ->
  exists a w', m w = (Ok a, w') /\ k a w' = (Ok b, w'').
Proof.
  unfold bind. destruct (m w) as [[a|e] w'] eqn:E; intros H.
  - now exists a, w'.
  - discriminate.
Qed.

Section HandlerProperties.

Variable lower : str -> str.

(** The part of the handler inside its outer [try], for an upload with
    filename [f] and content type [ct]. *)
Let guarded_body (fl : faults) (tmp_uuid rec_uuid : str) (now : Z)
    (file : UploadFile.t) (f ct : str) : M (list (string * string)) :=
  contents <- file_read fl file ;;
  write_file fl (tmp_uuid ++ path_suffix f) contents ;;;
  predicted <- lift_option "IndexError" (_mock_breed_choice f) ;;
  insert_one fl (Prediction.mk rec_uuid (Some f) (Some ct) predicted now) ;;;
  try_except_pass (prune_predictions fl) ;;;
  try_except_pass (unlink fl (tmp_uuid ++ path_suffix f)) ;;;
  ret (breed_response predicted).

Lemma predict_accepted_eval (fl : faults) (tmp_uuid rec_uuid : str)
    (now : Z) (file : UploadFile.t) (w : world) :
  _looks_like_cow lower (UploadFile.filename file)
    (UploadFile.content_type file) = true ->
  exists f ct,
    UploadFile.filename file = Some f /\ f <> [] /\
    UploadFile.content_type file = Some ct /\
    py_or (UploadFile.filename file) (cps "default") = f /\
    predict_cattle_breed lower fl tmp_uuid rec_uuid now file w =
    try_except_500 (guarded_body fl tmp_uuid rec_uuid now file f ct) w.
Proof.
  intros Hgate. pose proof Hgate as Hg.
  apply gate_true_inv in Hg.
  destruct Hg as (f & ct & Hf & Hfne & Hct & _).
  exists f, ct. split; [exact Hf|]. split; [exact Hfne|].
  split; [exact Hct|].
  rewrite Hct in Hgate.
  unfold predict_cattle_breed. rewrite Hct, gate_py_or, Hgate, Hf.
  destruct f as [|c f]; [contradiction|]. split; reflexivity.
Qed.

(** The two early exits of the handler. *)
Lemma predict_rejected_eval (fl : faults) (tmp_uuid rec_uuid : str)
    (now : Z) (file : UploadFile.t) (w : world) :
  UploadFile.content_type file = None \/
  _looks_like_cow lower (UploadFile.filename file)
    (UploadFile.content_type file) = false ->
  exists detail,
    predict_cattle_breed lower fl tmp_uuid rec_uuid now file w =
      (Raise (HTTPException 400 detail), w) /\
    detail <> EmptyString.
Proof.
  intros H. unfold predict_cattle_breed.
  destruct (UploadFile.content_type file) as [ct|] eqn:Ect.
  - destruct H as [H | H]; [discriminate|].
    rewrite gate_py_or, H. cbn [negb].
    eexists. split; [reflexivity | discriminate].
  - eexists. split; [reflexivity | discriminate].
Qed.

(** Whatever raises, a successful answer of the accepted path carries the
    selector's breed for the filename. *)
Lemma guarded_body_ok (fl : faults) (tmp_uuid rec_uuid : str) (now : Z)
    (file : UploadFile.t) (f ct : str) (w w' : world)
    (r : list (string * string)) :
  try_except_500 (guarded_body fl tmp_uuid rec_uuid now file f ct) w
    = (Ok r, w') ->
  exists label, _mock_breed_choice f = Some label /\ r = breed_response label.
Proof.
  intros E. destruct (breed_choice_total f) as (label & Hlabel & _).
  exists label. split; [exact Hlabel|].
  unfold try_except_500 in E.
  destruct (guarded_body fl tmp_uuid rec_uuid now file f ct w)
    as [[a|[s d|e|b]] w1] eqn:G; try discriminate.
  injection E as -> ->. unfold guarded_body in G. rewrite Hlabel in G.
  apply bind_ok_inv in G as (x1 & v1 & _ & G).
  apply bind_ok_inv in G as (x2 & v2 & _ & G).
  apply bind_ok_inv in G as (x3 & v3 & H3 & G).
  apply bind_ok_inv in G as (x4 & v4 & _ & G).
  apply bind_ok_inv in G as (x5 & v5 & _ & G).
  apply bind_ok_inv in G as (x6 & v6 & _ & G).
  injection H3 as <- _. now injection G as <- _.
Qed.

(** The accepted path when reading the upload, writing the scratch file
    and the insert do not raise and the record id is new. *)
Lemma predict_accepted_run (fl : faults) (tmp_uuid rec_uuid : str)
    (now : Z) (file : UploadFile.t) (w : world) :
  _looks_like_cow lower (UploadFile.filename file)
    (UploadFile.content_type file) = true ->
  read_raises fl = false -> write_raises fl = false ->
  insert_one_raises fl = false ->
  ~ In rec_uuid (ids (predictions w)) ->
  exists f ct label,
    UploadFile.filename file = Some f /\ f <> [] /\
    UploadFile.content_type file = Some ct /\
    _mock_breed_choice f = Some label /\
    let doc := Prediction.mk rec_uuid (Some f) (Some ct) label now in
    let name := tmp_uuid ++ path_suffix f in
    let w1 :=
      mkWorld (predictions w ++ [doc])
        ((name, UploadFile.body file)
           :: filter (fun e => negb (str_eqb (fst e) name)) (uploads w))
        (log w) in
    predict_cattle_breed lower fl tmp_uuid rec_uuid now file w =
    (Ok (breed_response label),
     snd (unlink fl name (snd (prune_predictions fl w1)))).
Proof.
  intros Hgate Hr Hw Hi Hfresh.
  destruct (predict_accepted_eval fl tmp_uuid rec_uuid now file w Hgate)
    as (f & ct & Hf & Hfne & Hct & _ & E).
  destruct (breed_choice_total f) as (label & Hlabel & _).
  exists f, ct, label. repeat (split; [assumption|]).
  intros doc name w1. rewrite E.
  assert (Hnew : existsb (has_id rec_uuid) (predictions w) = false).
  { destruct (existsb _ _) eqn:X; [|reflexivity].
    apply has_id_existsb in X. contradiction. }
  unfold try_except_500, guarded_body.
  erewrite bind_ok by (now apply file_read_ok).
  erewrite bind_ok by (now apply write_file_ok).
  rewrite Hlabel.
  erewrite bind_ok by reflexivity.
  erewrite bind_ok by (now apply insert_one_ok).
  erewrite bind_ok by apply try_pass_prune_run.
  erewrite bind_ok by apply try_pass_unlink_run.
  reflexivity.
Qed.

End HandlerProperties.

Section HandlerTheorems.

Variable lower : str -> str.

(** C5 (amended). When no collaborator call raises and the record id is
    new, an upload that passes the upload gate is answered with
    [{"breed": L}], [L] being the breed at the seed hash of the filename;
    exactly one record, of breed [L], is inserted, and the pruning that
    follows removes the records beyond 20: the stored count becomes the
    smaller of the old count plus one and 20, so it grows by exactly one
    when fewer than 20 records were stored. *)
Theorem predict_success (tmp_uuid rec_uuid : str) (now : Z)
    (file : UploadFile.t) (w : world) :
  _looks_like_cow lower (UploadFile.filename file)
    (UploadFile.content_type file) = true ->
  NoDup (ids (predictions w)) ->
  ~ In rec_uuid (ids (predictions w)) ->
  exists f label w',
    UploadFile.filename file = Some f /\
    nth_error BREEDS (Z.to_nat (spec_hash_index f)) = Some label /\
    predict_cattle_breed lower no_faults tmp_uuid rec_uuid now file w =
      (Ok (breed_response label), w') /\
    let doc := Prediction.mk rec_uuid (Some f)
                 (UploadFile.content_type file) label now in
    Permutation (oldest_excess (predictions w ++ [doc]) ++ predictions w')
                (predictions w ++ [doc]) /\
    length (predictions w') = Nat.min (length (predictions w) + 1) 20 /\
    ((length (predictions w) < 20)%nat ->
     predictions w' = predictions w ++ [doc]) /\
    log w' = log w.
Proof.
  intros Hgate Hnd Hfresh.
  destruct (predict_accepted_run lower no_faults tmp_uuid rec_uuid now file w
              Hgate eq_refl eq_refl eq_refl Hfresh)
    as (f & ct & label & Hf & _ & Hct & Hlabel & E).
  cbv zeta in E.
  set (doc := Prediction.mk rec_uuid (Some f) (Some ct) label now) in *.
  set (name := tmp_uuid ++ path_suffix f) in *.
  set (w1 := mkWorld (predictions w ++ [doc]) _ (log w)) in *.
  assert (Hnd1 : NoDup (ids (predictions w1))).
  { cbn [w1 predictions]. rewrite ids_app. apply NoDup_app; [exact Hnd | |].
    - repeat constructor. simpl. tauto.
    - intros a Ha [<- | []]. contradiction. }
  destruct (prune_result w1 Hnd1)
    as (w2 & E2 & _ & _ & Hlen & Hperm & Hsmall & Hlog).
  rewrite E2 in E. cbn [snd] in E.
  destruct (unlink_keeps no_faults name w2) as (Kp & Kl).
  exists f, label, (snd (unlink no_faults name w2)).
  split; [exact Hf|]. split.
  { rewrite <- breed_index_spec. exact Hlabel. }
  split; [exact E|]. rewrite Hct. fold doc. rewrite Kp, Kl.
  cbn [w1 predictions] in Hperm, Hlen, Hsmall.
  rewrite length_app in Hlen, Hsmall. simpl length in Hlen, Hsmall.
  split; [exact Hperm|]. split; [exact Hlen|]. split; [|exact Hlog].
  intros Hlt. rewrite Hsmall by lia. reflexivity.
Qed.

(** C6. An upload without a content type, or one that the upload gate rejects,
    is answered with a 4xx error that carries a reason, whatever the
    collaborators do, and the world, so the stored records and their
    count, is left as it was. *)
Theorem predict_rejects (fl : faults) (tmp_uuid rec_uuid : str) (now : Z)
    (file : UploadFile.t) (w : world) :
  UploadFile.content_type file = None \/
  _looks_like_cow lower (UploadFile.filename file)
    (UploadFile.content_type file) = false ->
  exists status detail,
    predict_cattle_breed lower fl tmp_uuid rec_uuid now file w =
      (Raise (HTTPException status detail), w) /\
    400 <= status < 500 /\
    detail <> EmptyString /\
    length (predictions
              (snd (predict_cattle_breed lower fl tmp_uuid rec_uuid now
                      file w))) = length (predictions w).
Proof.
  intros H.
  destruct (predict_rejected_eval lower fl tmp_uuid rec_uuid now file w H)
    as (detail & E & Hd).
  exists 400, detail. rewrite E. split; [reflexivity|].
  split; [lia|]. split; [exact Hd | reflexivity].
Qed.

(** C7 (amended). When reading the upload, writing the scratch file and
    the insert succeed, a failure of any call of the pruning step or of
    the scratch-file cleanup is swallowed: it is not propagated, the
    handler still answers [{"breed": label}], and nothing is written to
    the log. *)
Theorem best_effort_failures_swallowed (fl : faults)
    (tmp_uuid rec_uuid : str) (now : Z) (file : UploadFile.t) (w : world) :
  _looks_like_cow lower (UploadFile.filename file)
    (UploadFile.content_type file) = true ->
  read_raises fl = false -> write_raises fl = false ->
  insert_one_raises fl = false ->
  ~ In rec_uuid (ids (predictions w)) ->
  exists f label w',
    UploadFile.filename file = Some f /\
    _mock_breed_choice f = Some label /\
    predict_cattle_breed lower fl tmp_uuid rec_uuid now file w =
      (Ok (breed_response label), w') /\
    log w' = log w /\
    (count_documents_raises fl = true ->
     forall w1, prune_predictions fl w1 =
                (Raise (Exception "count_documents"), w1)) /\
    (unlink_raises fl = true ->
     forall name w1, unlink fl name w1 = (Raise (Exception "unlink"), w1)).
Proof.
  intros Hgate Hr Hw Hi Hfresh.
  destruct (predict_accepted_run lower fl tmp_uuid rec_uuid now file w
              Hgate Hr Hw Hi Hfresh)
    as (f & ct & label & Hf & _ & Hct & Hlabel & E).
  cbv zeta in E.
  eexists f, label, _. split; [exact Hf|]. split; [exact Hlabel|].
  split; [exact E|]. split; [|split].
  - rewrite (proj2 (unlink_keeps _ _ _)).
    now rewrite (proj1 (prune_keeps_log _ _)).
  - intros Hc w1. unfold prune_predictions, count_documents, guard.
    rewrite Hc. reflexivity.
  - intros Hu name w1. unfold unlink, guard. rewrite Hu. reflexivity.
Qed.

(** C10. A request that passes the upload gate has a non-empty filename, so the
    seed [filename or "default"] is the filename: the literal is never
    used, and every successful answer carries the breed that the
    selector gives for the uploaded filename. *)
Theorem seed_is_filename (fl : faults) (tmp_uuid rec_uuid : str) (now : Z)
    (file : UploadFile.t) (w : world) :
  (_looks_like_cow lower (Some (py_or (UploadFile.filename file) []))
     (UploadFile.content_type file) = true ->
   exists f,
     UploadFile.filename file = Some f /\ f <> [] /\
     py_or (UploadFile.filename file) (cps "default") = f) /\
  (forall r w',
     predict_cattle_breed lower fl tmp_uuid rec_uuid now file w = (Ok r, w') ->
     exists f label,
       UploadFile.filename file = Some f /\ f <> [] /\
       _mock_breed_choice f = Some label /\ r = breed_response label).
Proof.
  split.
  - rewrite gate_py_or. intros Hgate.
    destruct (predict_accepted_eval lower fl tmp_uuid rec_uuid now file w
                Hgate) as (f & ct & Hf & Hfne & _ & Hseed & _).
    now exists f.
  - intros r w' E.
    destruct (_looks_like_cow lower (UploadFile.filename file)
                (UploadFile.content_type file)) eqn:Hgate.
    + destruct (predict_accepted_eval lower fl tmp_uuid rec_uuid now file w
                  Hgate) as (f & ct & Hf & Hfne & _ & _ & E').
      rewrite E' in E. apply guarded_body_ok in E.
      destruct E as (label & Hlabel & ->). now exists f, label.
    + destruct (predict_rejected_eval lower fl tmp_uuid rec_uuid now file w
                  (or_intror Hgate)) as (d & E' & _).
      congruence.
Qed.

End HandlerTheorems.

(** ** Recent predictions *)

Lemma StronglySorted_impl {A : Type} (R R' : A -> A -> Prop) (l : list A) :
  (forall a b, R a b -> R' a b) -> StronglySorted R l -> StronglySorted R' l.
Proof.
  intros HR. induction 1 as [|x l Hs IH Hall]; constructor.
  - exact IH.
  - eapply Forall_impl; [|exact Hall]. intros b. apply HR.
Qed.

Lemma clamp_limit_range (limit : Z) : 1 <= clamp_limit limit <= 50.
Proof. unfold clamp_limit. lia. Qed.

Lemma recent_eval (fl : faults) (limit : option Z) (w : world) :
  get_recent_predictions fl limit w =
  if find_raises fl then (Raise (Exception "find"), w)
  else
    (Ok (firstn
           (Z.to_nat (clamp_limit (match limit with Some l => l | None => 20 end)))
           (sort_by ts_desc (predictions w))),
     w).
Proof.
  unfold get_recent_predictions, find_sort_limit, guard.
  set (k := clamp_limit _). pose proof (clamp_limit_range
    (match limit with Some l => l | None => 20 end)) as Hk. fold k in Hk.
  destruct (find_raises fl); [reflexivity|].
  unfold bind, ret, cursor_limit.
  destruct (k =? 0) eqn:E; [apply Z.eqb_eq in E; lia|].
  rewrite firstn_firstn. do 2 f_equal. f_equal. lia.
Qed.

(** C8. The reader answers with the first [k] stored records by descending
    timestamp, where [k] is 20 when no limit is given, 1 for a limit below
    1, 50 for a limit above 50, and the limit itself for a limit from 1 to
    50: exactly [k] records when [k] or more are stored and all of them
    otherwise, most recent first, none of the records left out more recent
    than one returned; the world is left as it was, so nothing is pruned.
    A limit of 0 or less behaves as 1, and 1000 as 50. *)
Theorem recent_returns_latest (fl : faults) (limit : option Z) (w : world) :
  let k := match limit with
           | None => 20
           | Some l => if l <? 1 then 1 else if 50 <? l then 50 else l
           end in
  1 <= k <= 50 /\
  (exists preds,
     get_recent_predictions no_faults limit w = (Ok preds, w) /\
     preds = firstn (Z.to_nat k) (sort_by ts_desc (predictions w)) /\
     (length preds <= Z.to_nat k)%nat /\
     length preds = Nat.min (Z.to_nat k) (length (predictions w)) /\
     StronglySorted (fun a b => older_eq b a) preds /\
     exists rest,
       Permutation (preds ++ rest) (predictions w) /\
       forall a b, In a preds -> In b rest -> older_eq b a) /\
  snd (get_recent_predictions fl limit w) = w /\
  (forall l, l <= 0 ->
     get_recent_predictions fl (Some l) w =
     get_recent_predictions fl (Some 1) w) /\
  get_recent_predictions fl (Some 1000) w =
    get_recent_predictions fl (Some 50) w /\
  get_recent_predictions fl None w = get_recent_predictions fl (Some 20) w.
Proof.
  intros k.
  assert (Hk : clamp_limit (match limit with Some l => l | None => 20 end)
               = k).
  { subst k. unfold clamp_limit. destruct limit as [l|]; [|reflexivity].
    destruct (Z.ltb_spec l 1); [lia|]. destruct (Z.ltb_spec 50 l); lia. }
  split; [rewrite <- Hk; apply clamp_limit_range|].
  set (s := sort_by ts_desc (predictions w)).
  assert (Hsorted : StronglySorted (fun a b => ts_desc a b = true) s)
    by (apply sort_by_sorted; [apply ts_desc_total | apply ts_desc_trans]).
  assert (Hle : forall a b, ts_desc a b = true -> older_eq b a)
    by (intros a b H; unfold older_eq; now apply Z.leb_le).
  split; [|split; [|split; [|split]]].
  - exists (firstn (Z.to_nat k) s).
    split; [rewrite recent_eval, Hk; reflexivity|].
    split; [reflexivity|]. split; [apply firstn_le_length|].
    split; [unfold s; now rewrite length_firstn, sort_by_length|].
    split.
    + eapply StronglySorted_impl; [exact Hle|]. now apply sorted_firstn.
    + exists (skipn (Z.to_nat k) s). split.
      * rewrite firstn_skipn. apply sort_by_perm.
      * intros a b Ha Hb. apply Hle.
        apply (sorted_app_le ts_desc (firstn (Z.to_nat k) s)
                 (skipn (Z.to_nat k) s)); try assumption.
        now rewrite firstn_skipn.
  - rewrite recent_eval. now destruct (find_raises fl).
  - intros l Hl. rewrite !recent_eval.
    replace (clamp_limit l) with (clamp_limit 1)
      by (unfold clamp_limit; lia).
    reflexivity.
  - now rewrite !recent_eval.
  - now rewrite !recent_eval.
Qed.

(** ** Analytics summary *)

Lemma dict_get_set (d : dict) (k k' : string) (v : Z) :
  dict_get (dict_set d k v) k' =
  if String.eqb k k' then Some v else dict_get d k'.
Proof.
  induction d as [|[k0 v0] d IH]; simpl.
  - reflexivity.
  - destruct (String.eqb k0 k) eqn:E0; simpl.
    + apply String.eqb_eq in E0. subst k0. now destruct (String.eqb k k').
    + rewrite IH. destruct (String.eqb k0 k') eqn:E1; [|reflexivity].
      apply String.eqb_eq in E1. subst k'. now rewrite String.eqb_sym, E0.
Qed.

Lemma dict_get_None (d : dict) (k : string) :
  dict_get d k = None <-> ~ In k (keys d).
Proof.
  induction d as [|[k0 v0] d IH]; simpl.
  - tauto.
  - destruct (String.eqb k0 k) eqn:E.
    + apply String.eqb_eq in E. split; [discriminate | tauto].
    + apply String.eqb_neq in E. rewrite IH. tauto.
Qed.

Lemma dict_get_In (d : dict) (k : string) (v : Z) :
  NoDup (keys d) -> (In (k, v) d <-> dict_get d k = Some v).
Proof.
  induction d as [|[k0 v0] d IH]; simpl; intros Hnd.
  - split; [contradiction | discriminate].
  - inversion Hnd as [|? ? Hk0 Hnd']; subst.
    destruct (String.eqb k0 k) eqn:E.
    + apply String.eqb_eq in E. subst k0. split.
      * intros [H | H]; [congruence|].
        exfalso. apply Hk0. unfold keys. change k with (fst (k, v)).
        now apply in_map.
      * intros H. left. congruence.
    + apply String.eqb_neq in E. rewrite <- IH by exact Hnd'. split.
      * intros [H | H]; [congruence | exact H].
      * tauto.
Qed.

Lemma dict_set_absent (d : dict) (k : string) (v : Z) :
  ~ In k (keys d) -> dict_set d k v = d ++ [(k, v)].
Proof.
  induction d as [|[k0 v0] d IH]; simpl; intros H; [reflexivity|].
  destruct (String.eqb k0 k) eqn:E.
  - apply String.eqb_eq in E. tauto.
  - f_equal. apply IH. tauto.
Qed.

Lemma keys_set (d : dict) (k k' : string) (v : Z) :
  In k' (keys (dict_set d k v)) <-> k' = k \/ In k' (keys d).
Proof.
  induction d as [|[k0 v0] d IH]; simpl.
  - intuition congruence.
  - destruct (String.eqb k0 k) eqn:E; simpl.
    + apply String.eqb_eq in E. intuition congruence.
    + rewrite IH. tauto.
Qed.

Lemma keys_set_NoDup (d : dict) (k : string) (v : Z) :
  NoDup (keys d) -> NoDup (keys (dict_set d k v)).
Proof.
  induction d as [|[k0 v0] d IH]; simpl; intros Hnd.
  - repeat constructor. simpl. tauto.
  - inversion Hnd as [|? ? Hk0 Hnd']; subst.
    destruct (String.eqb k0 k) eqn:E; simpl.
    + now constructor.
    + constructor; [|now apply IH].
      apply String.eqb_neq in E. fold (keys (dict_set d k v)).
      rewrite keys_set. intuition congruence.
Qed.

Lemma sum_values_set (d : dict) (k : string) (v : Z) :
  sum_values (dict_set d k v) = sum_values d - get_or_zero d k + v.
Proof.
  unfold sum_values, get_or_zero.
  induction d as [|[k0 v0] d IH]; simpl.
  - lia.
  - destruct (String.eqb k0 k); simpl; lia.
Qed.

Lemma sum_values_perm (d d' : dict) :
  Permutation d d' -> sum_values d = sum_values d'.
Proof.
  unfold sum_values. induction 1; simpl; lia.
Qed.

Lemma occurrences_cons (b0 b : string) (bs : list string) :
  occurrences (b0 :: bs) b =
  (if String.eqb b0 b then 1 else 0) + occurrences bs b.
Proof.
  unfold occurrences. simpl.
  destruct (string_dec b0 b) as [->|N].
  - rewrite String.eqb_refl. lia.
  - apply String.eqb_neq in N. rewrite N. lia.
Qed.

Lemma occurrences_pos (bs : list string) (b : string) :
  0 < occurrences bs b <-> In b bs.
Proof.
  unfold occurrences. rewrite (count_occ_In string_dec). lia.
Qed.

(** The grouping stage counts every breed. *)
Lemma group_rows_spec (bs : list string) (rows : dict) :
  NoDup (keys rows) ->
  NoDup (keys (group_rows rows bs)) /\
  sum_values (group_rows rows bs) = sum_values rows + Z.of_nat (length bs) /\
  forall b,
    dict_get (group_rows rows bs) b =
    if occurrences bs b =? 0 then dict_get rows b
    else Some (get_or_zero rows b + occurrences bs b).
Proof.
  revert rows. induction bs as [|b0 bs IH]; intros rows Hnd.
  - simpl. split; [exact Hnd|]. split; [lia|]. intros b. reflexivity.
  - cbn [group_rows].
    assert (Ev : match dict_get rows b0 with Some n => n + 1 | None => 1 end
                 = get_or_zero rows b0 + 1).
    { unfold get_or_zero. now destruct (dict_get rows b0). }
    rewrite Ev.
    destruct (IH (dict_set rows b0 (get_or_zero rows b0 + 1))
                (keys_set_NoDup _ _ _ Hnd)) as (N & S & G).
    split; [exact N|]. split.
    + rewrite S, sum_values_set. cbn [length]. rewrite Nat2Z.inj_succ. lia.
    + intros b. rewrite G, occurrences_cons.
      assert (Hgoz : get_or_zero (dict_set rows b0 (get_or_zero rows b0 + 1)) b
                     = if String.eqb b0 b then get_or_zero rows b0 + 1
                       else get_or_zero rows b).
      { unfold get_or_zero at 1. rewrite dict_get_set.
        now destruct (String.eqb b0 b). }
      rewrite Hgoz, dict_get_set.
      assert (Hocc : 0 <= occurrences bs b) by (unfold occurrences; lia).
      destruct (String.eqb b0 b) eqn:E.
      * apply String.eqb_eq in E. subst b0.
        destruct (1 + occurrences bs b =? 0) eqn:E1;
          [apply Z.eqb_eq in E1; lia|].
        destruct (occurrences bs b =? 0) eqn:E0; f_equal.
        apply Z.eqb_eq in E0. lia. lia.
      * change (0 + occurrences bs b) with (occurrences bs b).
        reflexivity.
Qed.

Lemma fold_dict_set_app (agg d : dict) :
  NoDup (keys (d ++ agg)) ->
  fold_left (fun d a => dict_set d (fst a) (snd a)) agg d = d ++ agg.
Proof.
  revert d. induction agg as [|[k v] agg IH]; intros d Hnd; simpl.
  - now rewrite app_nil_r.
  - rewrite dict_set_absent.
    + rewrite IH; rewrite <- app_assoc; [reflexivity | exact Hnd].
    + unfold keys in Hnd. rewrite map_app in Hnd. intros Hin.
      apply (NoDup_app_disjoint _ _ _ Hnd Hin). simpl. now left.
Qed.

Lemma max_by_spec (f : string -> Z) (rest : list string) (best : string) :
  In (max_by f best rest) (best :: rest) /\
  forall x, In x (best :: rest) -> f x <= f (max_by f best rest).
Proof.
  revert best. induction rest as [|k rest IH]; intros best; simpl.
  - split; [now left|]. intros x [<- | []]. lia.
  - destruct (f best <? f k) eqn:E.
    + apply Z.ltb_lt in E. destruct (IH k) as (I & M). split.
      * simpl in I. tauto.
      * intros x [<- | Hx].
        -- specialize (M k (or_introl eq_refl)). lia.
        -- now apply M.
    + apply Z.ltb_ge in E. destruct (IH best) as (I & M). split.
      * simpl in I. tauto.
      * intros x [<- | [<- | Hx]].
        -- apply M. now left.
        -- specialize (M best (or_introl eq_refl)). lia.
        -- apply M. now right.
Qed.

Lemma dict_get_perm (d d' : dict) (k : string) :
  NoDup (keys d) -> Permutation d d' -> dict_get d' k = dict_get d k.
Proof.
  intros Hnd Hp.
  assert (Hnd' : NoDup (keys d')).
  { eapply Permutation_NoDup; [|exact Hnd]. now apply Permutation_map. }
  destruct (dict_get d k) as [v|] eqn:E.
  - apply dict_get_In; [exact Hnd'|].
    eapply Permutation_in; [exact Hp|]. now apply dict_get_In.
  - apply dict_get_None. apply dict_get_None in E. intros H. apply E.
    eapply Permutation_in; [|exact H].
    now apply Permutation_map, Permutation_sym.
Qed.

(** The handler when the aggregation does not raise, evaluated. *)
Lemma summary_eval (w : world) :
  get_analytics_summary no_faults w =
  (let agg := firstn 100
                (sort_by count_desc (group_rows [] (breeds_of w))) in
   let by_breed := fold_left (fun d a => dict_set d (fst a) (snd a)) agg [] in
   (Ok (Summary.mk by_breed (sum_values by_breed)
          match keys by_breed with
          | [] => None
          | k :: ks => Some (max_by (get_or_zero by_breed) k ks)
          end),
    w)).
Proof. reflexivity. Qed.

(** With at most 100 distinct breeds stored, the dictionary built by the
    handler holds the rows of the grouping stage, reordered. *)
Lemma by_breed_rows (bs : list string) :
  (length (nodup string_dec bs) <= 100)%nat ->
  let by_breed :=
    fold_left (fun d a => dict_set d (fst a) (snd a))
      (firstn 100 (sort_by count_desc (group_rows [] bs))) [] in
  NoDup (keys by_breed) /\
  sum_values by_breed = Z.of_nat (length bs) /\
  forall b, dict_get by_breed b =
            if occurrences bs b =? 0 then None else Some (occurrences bs b).
Proof.
  intros Hdistinct.
  destruct (group_rows_spec bs [] (NoDup_nil _)) as (N & S & G).
  set (rows := group_rows [] bs) in *.
  set (sorted := sort_by count_desc rows).
  assert (Hp : Permutation rows sorted)
    by apply Permutation_sym, sort_by_perm.
  assert (Ns : NoDup (keys sorted)).
  { eapply Permutation_NoDup; [|exact N]. now apply Permutation_map. }
  assert (Hlen : (length sorted <= 100)%nat).
  { unfold sorted. rewrite sort_by_length.
    replace (length rows) with (length (keys rows))
      by (unfold keys; apply length_map).
    etransitivity; [|exact Hdistinct].
    apply NoDup_incl_length; [exact N|].
    intros k Hk. apply nodup_In. apply occurrences_pos.
    destruct (dict_get rows k) as [v|] eqn:E.
    - rewrite G in E. destruct (occurrences bs k =? 0) eqn:E0.
      + discriminate.
      + apply Z.eqb_neq in E0. unfold occurrences in *. lia.
    - apply dict_get_None in E. contradiction. }
  cbv zeta. rewrite firstn_all2 by exact Hlen.
  rewrite fold_dict_set_app by exact Ns. cbn [app].
  split; [exact Ns|]. split.
  - rewrite <- (sum_values_perm _ _ Hp), S. unfold sum_values. simpl. lia.
  - intros b. rewrite (dict_get_perm rows sorted b N Hp), G.
    destruct (occurrences bs b =? 0); [reflexivity|].
    unfold get_or_zero. simpl. reflexivity.
Qed.

(** C4. For a store with at most 100 distinct breeds (the store of this
    service holds at most the five of BREEDS), the summary holds one count
    per distinct stored breed, the number of stored records of that breed;
    [total] is the sum of the counts, which is the number of stored
    records; [most_common] is a stored breed whose count no breed exceeds;
    the empty store gives [{}], 0 and no [most_common]; the breeds Jersey,
    Jersey, Gir give [{Jersey: 2, Gir: 1}], 3 and Jersey. The world is left
    as it was. *)
Theorem summary_counts_breeds (w : world) :
  (length (nodup string_dec (breeds_of w)) <= 100)%nat ->
  exists s,
    get_analytics_summary no_faults w = (Ok s, w) /\
    NoDup (map fst (Summary.by_breed s)) /\
    (forall b,
       dict_get (Summary.by_breed s) b =
       if occurrences (breeds_of w) b =? 0 then None
       else Some (occurrences (breeds_of w) b)) /\
    Summary.total s = fold_right Z.add 0 (map snd (Summary.by_breed s)) /\
    Summary.total s = Z.of_nat (length (predictions w)) /\
    (predictions w = [] -> s = Summary.mk [] 0 None) /\
    (predictions w <> [] ->
     exists m,
       Summary.most_common s = Some m /\ In m (breeds_of w) /\
       forall b, occurrences (breeds_of w) b <= occurrences (breeds_of w) m) /\
    (breeds_of w = ["Jersey"; "Jersey"; "Gir"]%string ->
     s = Summary.mk [("Jersey", 2); ("Gir", 1)]%string 3
           (Some "Jersey"%string)).
Proof.
  intros Hdistinct. rewrite summary_eval. cbv zeta.
  destruct (by_breed_rows (breeds_of w) Hdistinct) as (N & S & G).
  cbv zeta in N, S, G.
  set (by_breed := fold_left _ _ _) in *.
  eexists. split; [reflexivity|]. cbn [Summary.by_breed Summary.total
                                        Summary.most_common].
  split; [exact N|]. split; [exact G|]. split; [reflexivity|].
  split; [|split; [|split]].
  - rewrite S. unfold breeds_of. now rewrite length_map.
  - intros Hempty. subst by_breed. unfold breeds_of. rewrite Hempty.
    reflexivity.
  - intros Hne.
    assert (Hocc : forall b, 0 <= occurrences (breeds_of w) b)
      by (intros b; unfold occurrences; lia).
    assert (Hkey : forall b, In b (keys by_breed) ->
              get_or_zero by_breed b = occurrences (breeds_of w) b /\
              In b (breeds_of w)).
    { intros b Hb. unfold get_or_zero.
      destruct (dict_get by_breed b) as [v|] eqn:E.
      - rewrite G in E.
        destruct (occurrences (breeds_of w) b =? 0) eqn:E0; [discriminate|].
        apply Z.eqb_neq in E0. split; [congruence|].
        apply occurrences_pos. specialize (Hocc b). lia.
      - apply dict_get_None in E. contradiction. }
    destruct (keys by_breed) as [|k ks] eqn:Ek.
    + exfalso. destruct (predictions w) as [|d l] eqn:Ep; [now apply Hne|].
      assert (Hin : In (Prediction.breed d) (breeds_of w))
        by (unfold breeds_of; rewrite Ep; now left).
      apply occurrences_pos in Hin.
      specialize (G (Prediction.breed d)).
      destruct (occurrences (breeds_of w) (Prediction.breed d) =? 0) eqn:E0;
        [apply Z.eqb_eq in E0; lia|].
      assert (Hnone : dict_get by_breed (Prediction.breed d) = None)
        by (apply dict_get_None; rewrite Ek; tauto).
      congruence.
    + destruct (max_by_spec (get_or_zero by_breed) ks k) as (I & Mx).
      set (m := max_by (get_or_zero by_breed) k ks) in *.
      exists m. split; [reflexivity|].
      destruct (Hkey m I) as (Em & Hm). split; [exact Hm|].
      intros b. destruct (occurrences (breeds_of w) b =? 0) eqn:E0.
      * apply Z.eqb_eq in E0. rewrite E0. apply Hocc.
      * assert (Hb : In b (k :: ks)).
        { destruct (dict_get by_breed b) as [v|] eqn:E.
          - rewrite <- Ek.
            destruct (in_dec string_dec b (keys by_breed)) as [Y|Y];
              [exact Y|].
            apply dict_get_None in Y. congruence.
          - rewrite G, E0 in E. discriminate. }
        destruct (Hkey b Hb) as (Eb & _).
        rewrite <- Eb, <- Em. now apply Mx.
  - intros Hex. subst by_breed. rewrite Hex. reflexivity.
Qed.

(** ** The store invariant *)

Lemma store_ok_filter (f : Prediction.t -> bool) (l : list Prediction.t) :
  store_ok l -> store_ok (filter f l).
Proof.
  intros [Hnd Hb]. split.
  - clear Hb. induction l as [|d l IH]; simpl; [constructor|].
    simpl in Hnd. inversion Hnd as [|? ? Hd Hnd']; subst.
    destruct (f d); [|now apply IH]. simpl. constructor; [|now apply IH].
    intros Hin. apply Hd. unfold ids in *. apply in_map_iff in Hin.
    destruct Hin as (x & Ex & Hx). apply filter_In in Hx.
    apply in_map_iff. exists x. tauto.
  - apply Forall_forall. intros d Hd. apply filter_In in Hd.
    rewrite Forall_forall in Hb. now apply Hb.
Qed.

Lemma preserves_ret {A : Type} (a : A) : preserves (ret a).
Proof. now intros w H. Qed.

Lemma preserves_raise {A : Type} (e : exn) : preserves (@raise A e).
Proof. now intros w H. Qed.

Lemma preserves_bind {A B : Type} (m : M A) (k : A -> M B) :
  preserves m -> (forall a, preserves (k a)) -> preserves (bind m k).
Proof.
  intros Hm Hk w H. unfold bind. specialize (Hm w H).
  destruct (m w) as [[a|e] w']; cbn [snd] in *.
  - now apply Hk.
  - exact Hm.
Qed.

Lemma preserves_guard (b : bool) (what : string) : preserves (guard b what).
Proof. now intros w H; destruct b. Qed.

Lemma preserves_try_except_pass (m : M unit) :
  preserves m -> preserves (try_except_pass m).
Proof.
  intros Hm w H. unfold try_except_pass. specialize (Hm w H).
  now destruct (m w) as [[[]|[st d|e|b]] w'].
Qed.

Lemma preserves_try_except_500 {A : Type} (m : M A) :
  preserves m -> preserves (try_except_500 m).
Proof.
  intros Hm w H. unfold try_except_500. specialize (Hm w H).
  now destruct (m w) as [[a|[st d|e|b]] w'].
Qed.

Lemma preserves_insert_one (fl : faults) (doc : Prediction.t) :
  In (Prediction.breed doc) BREEDS -> preserves (insert_one fl doc).
Proof.
  intros Hb. apply preserves_bind; [apply preserves_guard|].
  intros _ w [Hnd Hall].
  destruct (existsb (has_id (Prediction.id doc)) (predictions w)) eqn:E;
    cbn [snd predictions]; [now split|].
  split.
  - rewrite ids_app. apply NoDup_app; [exact Hnd | |].
    + repeat constructor. simpl. tauto.
    + intros a Ha [<- | []]. apply has_id_existsb in Ha. congruence.
  - apply Forall_app. split; [exact Hall|].
    constructor; [exact Hb | constructor].
Qed.

Lemma preserves_bind_lift {A B : Type} (what : string) (o : option A)
    (k : A -> M B) :
  (forall a, o = Some a -> preserves (k a)) ->
  preserves (bind (lift_option what o) k).
Proof.
  intros Hk. destruct o as [a|].
  - intros w H. now apply (Hk a eq_refl).
  - now intros w H.
Qed.

Lemma preserves_prune (fl : faults) : preserves (prune_predictions fl).
Proof.
  unfold prune_predictions.
  apply preserves_bind.
  { apply preserves_bind; [apply preserves_guard | now intros _ w H]. }
  intros total. destruct (RETENTION <? total); [|apply preserves_ret].
  apply preserves_bind.
  { apply preserves_bind; [apply preserves_guard | now intros _ w H]. }
  intros cursor. destruct (map Prediction.id cursor); [apply preserves_ret|].
  apply preserves_bind; [apply preserves_guard|].
  intros _ w H. cbn [snd predictions]. now apply store_ok_filter.
Qed.

Lemma preserves_unlink (fl : faults) (name : str) : preserves (unlink fl name).
Proof.
  apply preserves_bind; [apply preserves_guard | now intros _ w H].
Qed.

(** Every store reached from a good one by the prediction handler is good,
    whatever raises on the way. *)
Lemma predict_preserves (lower : str -> str) (fl : faults)
    (tmp_uuid rec_uuid : str) (now : Z) (file : UploadFile.t) :
  preserves (predict_cattle_breed lower fl tmp_uuid rec_uuid now file).
Proof.
  unfold predict_cattle_breed.
  destruct (UploadFile.content_type file) as [ct|]; [|apply preserves_raise].
  destruct (negb _); [apply preserves_raise|].
  apply preserves_try_except_500.
  apply preserves_bind.
  { apply preserves_bind; [apply preserves_guard | now intros _ w H]. }
  intros contents. apply preserves_bind.
  { apply preserves_bind; [apply preserves_guard | now intros _ w H]. }
  intros _. apply preserves_bind_lift. intros predicted Hp.
  assert (Hin : In predicted BREEDS).
  { unfold _mock_breed_choice in Hp. eapply nth_error_In. exact Hp. }
  apply preserves_bind; [now apply preserves_insert_one|].
  intros _. apply preserves_bind;
    [apply preserves_try_except_pass, preserves_prune|].
  intros _. apply preserves_bind;
    [apply preserves_try_except_pass, preserves_unlink|].
  intros _. apply preserves_ret.
Qed.

(** A good store holds at most five distinct breeds. *)
Lemma store_ok_distinct_breeds (w : world) :
  store_ok (predictions w) ->
  (length (nodup string_dec (breeds_of w)) <= 5)%nat.
Proof.
  intros [_ Hall].
  change 5%nat with (length BREEDS).
  apply NoDup_incl_length; [apply NoDup_nodup|].
  intros b Hb. apply nodup_In in Hb. unfold breeds_of in Hb.
  apply in_map_iff in Hb. destruct Hb as (d & <- & Hd).
  rewrite Forall_forall in Hall. now apply Hall.
Qed.

(** * Concrete inputs *)

Lemma sample_uuid_inj (n m : nat) : sample_uuid n = sample_uuid m -> n = m.
Proof.
  unfold sample_uuid. intros H. apply app_inv_head in H.
  assert (E : (97 + N.of_nat n = 97 + N.of_nat m)%N) by congruence.
  lia.
Qed.

Lemma sample_store_NoDup (n : nat) : NoDup (ids (sample_store n)).
Proof.
  unfold ids, sample_store. rewrite map_map.
  apply Finite.Injective_map_NoDup; [|apply seq_NoDup].
  intros a b H. now apply sample_uuid_inj.
Qed.

(** C2, as stated, fails. With the extension read as the part of the whole
    filename from its last ['.'], ["cow/.jpg"] sent as [image/jpeg] meets
    every stated condition, yet the upload gate rejects it: the final path
    component [".jpg"] has no suffix. Conversely ["cow.jpg/"] is accepted,
    though the part from its last ['.'] is [".jpg/"]. *)
Lemma gate_extension_counterexample :
  (gate_conditions ext_after_last_dot ascii_lower
     (Some (cps "cow/.jpg")) (Some (cps "image/jpeg")) /\
   _looks_like_cow ascii_lower (Some (cps "cow/.jpg"))
     (Some (cps "image/jpeg")) = false) /\
  (_looks_like_cow ascii_lower (Some (cps "cow.jpg/"))
     (Some (cps "image/jpeg")) = true /\
   ~ gate_conditions ext_after_last_dot ascii_lower
       (Some (cps "cow.jpg/")) (Some (cps "image/jpeg"))).
Proof.
  split; split.
  - split.
    + exists (cps "image/jpeg"). split; [reflexivity|].
      apply str_in_In. vm_compute. reflexivity.
    + exists (cps "cow/.jpg"). split; [reflexivity|]. split.
      * apply str_in_In. vm_compute. reflexivity.
      * exists (cps "cow").
        split; [apply str_in_In; vm_compute; reflexivity|].
        exists [], (cps "/.jpg"). reflexivity.
  - vm_compute. reflexivity.
  - vm_compute. reflexivity.
  - intros (_ & f & Hf & Hext & _). injection Hf as <-.
    apply str_in_In in Hext. vm_compute in Hext. discriminate.
Qed.

(** C5, as stated, fails. With 20 records stored, the upload
    ["holstein1.png"] sent as [image/png] is answered with
    [{"breed": "Gir"}], and the store holds 20 records afterwards, not
    21: the pruning of the same call has removed the oldest one. *)
Lemma predict_full_store_counterexample :
  _looks_like_cow ascii_lower (Some (cps "holstein1.png"))
    (Some (cps "image/png")) = true /\
  length (predictions (sample_world 20)) = 20%nat /\
  fst (predict_cattle_breed ascii_lower no_faults (cps "tmp") (cps "new") 100
         (sample_upload "holstein1.png" "image/png") (sample_world 20))
    = Ok (breed_response "Gir") /\
  length (predictions
            (snd (predict_cattle_breed ascii_lower no_faults (cps "tmp")
                    (cps "new") 100
                    (sample_upload "holstein1.png" "image/png")
                    (sample_world 20))))
    = 20%nat.
Proof. repeat (split; [vm_compute; reflexivity|]). vm_compute. reflexivity. Qed.

(** C7, as stated, fails. With every call of the pruning step and the
    cleanup raising, the upload ["holstein1.png"] is answered with
    [{"breed": "Gir"}] and the log is as empty as before: the failures
    are swallowed without a log record. *)
Lemma best_effort_failure_not_logged :
  fst (prune_predictions best_effort_faults (sample_world 21))
    = Raise (Exception "count_documents") /\
  fst (unlink best_effort_faults (cps "tmp.png") (sample_world 21))
    = Raise (Exception "unlink") /\
  fst (predict_cattle_breed ascii_lower best_effort_faults (cps "tmp")
         (cps "new") 100 (sample_upload "holstein1.png" "image/png")
         (sample_world 20))
    = Ok (breed_response "Gir") /\
  log (sample_world 20) = [] /\
  log (snd (predict_cattle_breed ascii_lower best_effort_faults (cps "tmp")
              (cps "new") 100 (sample_upload "holstein1.png" "image/png")
              (sample_world 20)))
    = [] /\
  length (predictions
            (snd (predict_cattle_breed ascii_lower best_effort_faults
                    (cps "tmp") (cps "new") 100
                    (sample_upload "holstein1.png" "image/png")
                    (sample_world 20))))
    = 21%nat.
Proof. repeat (split; [vm_compute; reflexivity|]). vm_compute. reflexivity. Qed.

(** The amended C2 at ["jersey_cow.jpg"] sent as [image/jpeg]. *)
Lemma gate_accepts_iff_witness :
  lower_on_ascii ascii_lower /\
  ((_looks_like_cow ascii_lower (Some (cps "jersey_cow.jpg"))
      (Some (cps "image/jpeg")) = true <->
    gate_conditions path_suffix ascii_lower (Some (cps "jersey_cow.jpg"))
      (Some (cps "image/jpeg"))) /\
   _looks_like_cow ascii_lower None (Some (cps "image/jpeg")) = false /\
   (forall f, Some (cps "jersey_cow.jpg") = Some f -> ~ In SLASH f ->
      (_looks_like_cow ascii_lower (Some (cps "jersey_cow.jpg"))
         (Some (cps "image/jpeg")) = true <->
       gate_conditions ext_after_last_dot ascii_lower
         (Some (cps "jersey_cow.jpg")) (Some (cps "image/jpeg"))))).
Proof.
  split.
  - intros s _. reflexivity.
  - apply (gate_accepts_iff ascii_lower).
    intros s _. reflexivity.
Defined.

(** C9 with ASCII lowering for [str.lower]. *)
Lemma gate_examples_witness :
  lower_on_ascii ascii_lower /\
  (_looks_like_cow ascii_lower (Some (cps "jersey_cow.jpg"))
     (Some (cps "image/jpeg")) = true /\
   _looks_like_cow ascii_lower (Some (cps "cow.bmp"))
     (Some (cps "image/png")) = false /\
   _looks_like_cow ascii_lower None (Some (cps "image/png")) = false).
Proof.
  split.
  - intros s _. reflexivity.
  - apply (gate_examples ascii_lower).
    intros s _. reflexivity.
Defined.

(** C3 at a store of 21 records and a sequence of 25 inserts. *)
Lemma retention_prune_witness :
  NoDup (ids (predictions (sample_world 21))) /\
  ((exists w',
     prune_predictions no_faults (sample_world 21) = (Ok tt, w') /\
     Permutation
       (oldest_excess (predictions (sample_world 21)) ++ predictions w')
       (predictions (sample_world 21)) /\
     length (oldest_excess (predictions (sample_world 21))) =
       (length (predictions (sample_world 21)) - 20)%nat /\
     (forall a b, In a (oldest_excess (predictions (sample_world 21))) ->
                  In b (predictions w') -> older_eq a b) /\
     ((20 < length (predictions (sample_world 21)))%nat ->
      predictions w' =
      filter (fun d => negb (str_in (Prediction.id d)
                (ids (oldest_excess (predictions (sample_world 21))))))
             (predictions (sample_world 21))) /\
     ((length (predictions (sample_world 21)) <= 20)%nat ->
      w' = sample_world 21)) /\
   (length (predictions (run_inserts no_faults (sample_store 25) empty_world))
      <= 20)%nat /\
   (NoDup (ids (sample_store 25)) ->
    length (predictions (run_inserts no_faults (sample_store 25) empty_world)) =
    Nat.min (length (sample_store 25)) 20) /\
   (NoDup (ids (sample_store 25)) -> length (sample_store 25) = 25%nat ->
    length (predictions (run_inserts no_faults (sample_store 25) empty_world)) =
    20%nat)).
Proof.
  split.
  - apply sample_store_NoDup.
  - apply (retention_prune (sample_world 21) (sample_store 25)).
    apply sample_store_NoDup.
Defined.

(** C4 at the store with the breeds Jersey, Jersey, Gir. *)
Lemma summary_counts_breeds_witness :
  (length (nodup string_dec (breeds_of three_breeds_world)) <= 100)%nat /\
  get_analytics_summary no_faults three_breeds_world =
  (Ok (Summary.mk [("Jersey", 2); ("Gir", 1)]%string 3 (Some "Jersey"%string)),
   three_breeds_world).
Proof.
  assert (H : (length (nodup string_dec (breeds_of three_breeds_world))
               <= 100)%nat) by (vm_compute; lia).
  split; [exact H|].
  destruct (summary_counts_breeds three_breeds_world H)
    as (s & E & _ & _ & _ & _ & _ & _ & Hex).
  rewrite E, (Hex eq_refl). reflexivity.
Defined.

(** The amended C5 at ["holstein1.png"] sent as [image/png], on the empty
    store: the answer is Gir and one record is stored. *)
Lemma predict_success_witness :
  _looks_like_cow ascii_lower
    (UploadFile.filename (sample_upload "holstein1.png" "image/png"))
    (UploadFile.content_type (sample_upload "holstein1.png" "image/png"))
    = true /\
  NoDup (ids (predictions empty_world)) /\
  ~ In (cps "new") (ids (predictions empty_world)) /\
  exists f label w',
    UploadFile.filename (sample_upload "holstein1.png" "image/png") = Some f /\
    nth_error BREEDS (Z.to_nat (spec_hash_index f)) = Some label /\
    predict_cattle_breed ascii_lower no_faults (cps "tmp") (cps "new") 100
      (sample_upload "holstein1.png" "image/png") empty_world =
      (Ok (breed_response label), w') /\
    let doc := Prediction.mk (cps "new") (Some f)
                 (UploadFile.content_type
                    (sample_upload "holstein1.png" "image/png")) label 100 in
    Permutation
      (oldest_excess (predictions empty_world ++ [doc]) ++ predictions w')
      (predictions empty_world ++ [doc]) /\
    length (predictions w') =
      Nat.min (length (predictions empty_world) + 1) 20 /\
    ((length (predictions empty_world) < 20)%nat ->
     predictions w' = predictions empty_world ++ [doc]) /\
    log w' = log empty_world.
Proof.
  split; [vm_compute; reflexivity|].
  split; [constructor|].
  split; [intros []|].
  apply (predict_success ascii_lower (cps "tmp") (cps "new") 100
           (sample_upload "holstein1.png" "image/png") empty_world).
  - vm_compute. reflexivity.
  - constructor.
  - intros [].
Defined.

(** C6 at ["sunset.jpg"] sent as [image/jpeg], which the upload gate rejects. *)
Lemma predict_rejects_witness :
  (UploadFile.content_type (sample_upload "sunset.jpg" "image/jpeg") = None \/
   _looks_like_cow ascii_lower
     (UploadFile.filename (sample_upload "sunset.jpg" "image/jpeg"))
     (UploadFile.content_type (sample_upload "sunset.jpg" "image/jpeg"))
     = false) /\
  exists status detail,
    predict_cattle_breed ascii_lower no_faults (cps "tmp") (cps "new") 100
      (sample_upload "sunset.jpg" "image/jpeg") (sample_world 3) =
      (Raise (HTTPException status detail), sample_world 3) /\
    400 <= status < 500 /\
    detail <> EmptyString /\
    length (predictions
              (snd (predict_cattle_breed ascii_lower no_faults (cps "tmp")
                      (cps "new") 100
                      (sample_upload "sunset.jpg" "image/jpeg")
                      (sample_world 3)))) =
    length (predictions (sample_world 3)).
Proof.
  split.
  - right. vm_compute. reflexivity.
  - apply (predict_rejects ascii_lower no_faults (cps "tmp") (cps "new") 100
             (sample_upload "sunset.jpg" "image/jpeg") (sample_world 3)).
    right. vm_compute. reflexivity.
Defined.

(** The amended C7 with every call of the pruning step and the cleanup
    raising. *)
Lemma best_effort_failures_swallowed_witness :
  _looks_like_cow ascii_lower
    (UploadFile.filename (sample_upload "holstein1.png" "image/png"))
    (UploadFile.content_type (sample_upload "holstein1.png" "image/png"))
    = true /\
  read_raises best_effort_faults = false /\
  write_raises best_effort_faults = false /\
  insert_one_raises best_effort_faults = false /\
  ~ In (cps "new") (ids (predictions (sample_world 20))) /\
  exists f label w',
    UploadFile.filename (sample_upload "holstein1.png" "image/png") = Some f /\
    _mock_breed_choice f = Some label /\
    predict_cattle_breed ascii_lower best_effort_faults (cps "tmp") (cps "new")
      100 (sample_upload "holstein1.png" "image/png") (sample_world 20) =
      (Ok (breed_response label), w') /\
    log w' = log (sample_world 20) /\
    (count_documents_raises best_effort_faults = true ->
     forall w1, prune_predictions best_effort_faults w1 =
                (Raise (Exception "count_documents"), w1)) /\
    (unlink_raises best_effort_faults = true ->
     forall name w1,
       unlink best_effort_faults name w1 = (Raise (Exception "unlink"), w1)).
Proof.
  assert (Hfresh : ~ In (cps "new") (ids (predictions (sample_world 20)))).
  { intros H. apply str_in_In in H. vm_compute in H. discriminate. }
  split; [vm_compute; reflexivity|].
  split; [reflexivity|]. split; [reflexivity|]. split; [reflexivity|].
  split; [exact Hfresh|].
  apply (best_effort_failures_swallowed ascii_lower best_effort_faults
           (cps "tmp") (cps "new") 100
           (sample_upload "holstein1.png" "image/png") (sample_world 20)).
  - vm_compute. reflexivity.
  - reflexivity.
  - reflexivity.
  - reflexivity.
  - exact Hfresh.
Defined.

(** C8 at the limits 0 and -3 on a store of three records. *)
Lemma recent_returns_latest_witness :
  -3 <= 0 /\
  get_recent_predictions no_faults (Some (-3)) three_breeds_world =
  get_recent_predictions no_faults (Some 1) three_breeds_world.
Proof.
  split; [lia|].
  destruct (recent_returns_latest no_faults (Some 0) three_breeds_world)
    as (_ & _ & _ & H & _).
  apply H. lia.
Defined.

(** C10 at ["holstein1.png"] sent as [image/png]. *)
Lemma seed_is_filename_witness :
  _looks_like_cow ascii_lower
    (Some (py_or (UploadFile.filename
                    (sample_upload "holstein1.png" "image/png")) []))
    (UploadFile.content_type (sample_upload "holstein1.png" "image/png"))
    = true /\
  exists f,
    UploadFile.filename (sample_upload "holstein1.png" "image/png") = Some f /\
    f <> [] /\
    py_or (UploadFile.filename (sample_upload "holstein1.png" "image/png"))
      (cps "default") = f.
Proof.
  split; [vm_compute; reflexivity|].
  apply (proj1 (seed_is_filename ascii_lower no_faults (cps "tmp") (cps "new")
                  100 (sample_upload "holstein1.png" "image/png")
                  empty_world)).
  vm_compute. reflexivity.
Defined.

(** * Further properties of the prediction handler *)

Lemma file_read_raise (fl : faults) (file : UploadFile.t) (w : world) :
  read_raises fl = true ->
  file_read fl file w = (Raise (Exception "read"), w).
Proof. intros E. unfold file_read, guard. now rewrite E. Qed.

Lemma write_file_raise (fl : faults) (name : str)
    (contents : list Byte.byte) (w : world) :
  write_raises fl = true ->
  write_file fl name contents w = (Raise (Exception "open"), w).
Proof. intros E. unfold write_file, guard. now rewrite E. Qed.

Lemma insert_one_raise (fl : faults) (d : Prediction.t) (w : world) :
  insert_one_raises fl = true \/
  existsb (has_id (Prediction.id d)) (predictions w) = true ->
  exists what, insert_one fl d w = (Raise (Exception what), w).
Proof.
  intros H. unfold insert_one, guard.
  destruct (insert_one_raises fl) eqn:E.
  - now eexists.
  - destruct H as [H | H]; [discriminate|].
    unfold bind, ret. rewrite H. now eexists.
Qed.

Lemma try_except_500_exception {A : Type} (m : M A) (w w' : world)
    (what : string) :
  m w = (Raise (Exception what), w') ->
  try_except_500 m w =
  (Raise (HTTPException 500 "Prediction failed"),
   mkWorld (predictions w') (uploads w')
     (("Prediction failed: " ++ what)%string :: log w')).
Proof. intros E. unfold try_except_500. now rewrite E. Qed.

Section HandlerFailures.

Variable lower : str -> str.

(** X1. An accepted upload whose body cannot be read, whose scratch file
    cannot be written, or whose record cannot be inserted (the insert
    raises, or the id is already stored) is answered with the 500 error
    "Prediction failed"; one record is written to the log, and the stored
    predictions are left as they were. *)
Theorem predict_internal_failure (fl : faults) (tmp_uuid rec_uuid : str)
    (now : Z) (file : UploadFile.t) (w : world) :
  _looks_like_cow lower (UploadFile.filename file)
    (UploadFile.content_type file) = true ->
  read_raises fl = true \/ write_raises fl = true \/
  insert_one_raises fl = true \/ In rec_uuid (ids (predictions w)) ->
  exists w' msg,
    predict_cattle_breed lower fl tmp_uuid rec_uuid now file w =
      (Raise (HTTPException 500 "Prediction failed"), w') /\
    predictions w' = predictions w /\
    log w' = msg :: log w.
Proof.
  intros Hgate Hfail.
  destruct (predict_accepted_eval lower fl tmp_uuid rec_uuid now file w Hgate)
    as (f & ct & _ & _ & _ & _ & E).
  cbv beta in E. rewrite E. clear E.
  destruct (breed_choice_total f) as (label & Hlabel & _).
  destruct (read_raises fl) eqn:Hr.
  { eexists _, _. split; [apply try_except_500_exception, bind_raise;
            now apply file_read_raise
           | split; reflexivity]. }
  destruct (write_raises fl) eqn:Hw.
  { eexists _, _. split; [apply try_except_500_exception;
            erewrite bind_ok by (now apply file_read_ok);
            apply bind_raise; now apply write_file_raise
           | split; reflexivity]. }
  assert (Hins : insert_one_raises fl = true \/
                 existsb (has_id rec_uuid) (predictions w) = true).
  { destruct Hfail as [H | [H | [H | H]]]; try discriminate.
    - now left.
    - right. now apply has_id_existsb. }
  destruct (insert_one_raise fl
              (Prediction.mk rec_uuid (Some f) (Some ct) label now)
              (mkWorld (predictions w)
                 ((tmp_uuid ++ path_suffix f, UploadFile.body file)
                    :: filter (fun e => negb (str_eqb (fst e)
                                               (tmp_uuid ++ path_suffix f)))
                         (uploads w))
                 (log w)) Hins) as (what & Ei).
  eexists _, _. split;
    [apply try_except_500_exception;
     erewrite bind_ok by (now apply file_read_ok);
     erewrite bind_ok by (now apply write_file_ok);
     rewrite Hlabel; erewrite bind_ok by reflexivity;
     apply bind_raise; exact Ei
    | split; reflexivity].
Qed.

End HandlerFailures.

(** ** What the handler raises and logs *)

Lemma quiet_ret {A : Type} (a : A) : quiet (ret a).
Proof. intros w. split; [reflexivity | discriminate]. Qed.

Lemma quiet_raise {A : Type} (what : string) : quiet (@raise A (Exception what)).
Proof. intros w. split; [reflexivity | discriminate]. Qed.

Lemma quiet_bind {A B : Type} (m : M A) (k : A -> M B) :
  quiet m -> (forall a, quiet (k a)) -> quiet (bind m k).
Proof.
  intros Hm Hk w. unfold bind. destruct (Hm w) as [Hl Hr].
  destruct (m w) as [[a|e] w'] eqn:E; cbn [fst snd] in *.
  - destruct (Hk a w') as [Hl' Hr']. split; [congruence | exact Hr'].
  - split; [exact Hl|]. intros s d H. apply (Hr s d). congruence.
Qed.

Lemma quiet_guard (b : bool) (what : string) : quiet (guard b what).
Proof. destruct b; [apply quiet_raise | apply quiet_ret]. Qed.

Lemma quiet_raise_base {A : Type} (what : string) :
  quiet (@raise A (BaseException what)).
Proof. intros w. split; [reflexivity | discriminate]. Qed.

Lemma quiet_try_except_pass (m : M unit) : quiet m -> quiet (try_except_pass m).
Proof.
  intros Hm w. destruct (Hm w) as [Hl Hr]. unfold try_except_pass.
  destruct (m w) as [[[]|[s d|e|b]] w']; cbn [fst snd] in *;
    (split; [exact Hl | discriminate]).
Qed.

Lemma quiet_lift_option {A : Type} (what : string) (o : option A) :
  quiet (lift_option what o).
Proof. destruct o; [apply quiet_ret | apply quiet_raise]. Qed.

Lemma quiet_file_read (fl : faults) (file : UploadFile.t) :
  quiet (file_read fl file).
Proof. apply quiet_bind; [apply quiet_guard | intros _; apply quiet_ret]. Qed.

Lemma quiet_write_file (fl : faults) (name : str) (c : list Byte.byte) :
  quiet (write_file fl name c).
Proof.
  apply quiet_bind; [apply quiet_guard|].
  intros _ w. split; [reflexivity | discriminate].
Qed.

Lemma quiet_unlink (fl : faults) (name : str) : quiet (unlink fl name).
Proof.
  apply quiet_bind; [apply quiet_guard|].
  intros _ w. split; [reflexivity | discriminate].
Qed.

Lemma quiet_insert_one (fl : faults) (d : Prediction.t) :
  quiet (insert_one fl d).
Proof.
  apply quiet_bind; [apply quiet_guard|].
  intros _ w. destruct (existsb _ _); split; try reflexivity; discriminate.
Qed.

Lemma quiet_prune (fl : faults) : quiet (prune_predictions fl).
Proof.
  unfold prune_predictions. apply quiet_bind.
  { apply quiet_bind; [apply quiet_guard|].
    intros _ w. split; [reflexivity | discriminate]. }
  intros total. destruct (RETENTION <? total); [|apply quiet_ret].
  apply quiet_bind.
  { apply quiet_bind; [apply quiet_guard|].
    intros _ w. split; [reflexivity | discriminate]. }
  intros cursor. destruct (map Prediction.id cursor); [apply quiet_ret|].
  apply quiet_bind; [apply quiet_guard|].
  intros _ w. split; [reflexivity | discriminate].
Qed.

Lemma try_except_500_quiet {A : Type} (m : M A) (w : world) :
  quiet m ->
  match try_except_500 m w with
  | (Ok _, w') => log w' = log w
  | (Raise (HTTPException s d), w') =>
      s = 500 /\ d = "Prediction failed"%string /\
      exists msg, log w' = msg :: log w
  | (Raise (Exception _), _) => False
  | (Raise (BaseException _), w') => log w' = log w
  end.
Proof.
  intros Hm. destruct (Hm w) as [Hl Hr]. unfold try_except_500.
  destruct (m w) as [[a|[s d|e|b]] w'] eqn:E; cbn [fst snd] in *.
  - exact Hl.
  - now destruct (Hr s d).
  - cbn. split; [reflexivity|]. split; [reflexivity|].
    eexists. now rewrite Hl.
  - exact Hl.
Qed.

Lemma only_exceptions_lift_option {A : Type} (what : string) (o : option A) :
  only_exceptions (lift_option what o).
Proof. intros w b. destruct o; discriminate. Qed.

Lemma only_exceptions_try_except_pass (m : M unit) :
  only_exceptions m -> only_exceptions (try_except_pass m).
Proof.
  intros Hm w b. rewrite try_except_pass_run by exact Hm. discriminate.
Qed.

Lemma only_exceptions_try_except_500 {A : Type} (m : M A) :
  only_exceptions m -> only_exceptions (try_except_500 m).
Proof.
  intros Hm w b. specialize (Hm w). unfold try_except_500.
  destruct (m w) as [[a|[s d|e|b']] w']; cbn [fst] in *;
    [discriminate | discriminate | discriminate | now destruct (Hm b')].
Qed.

Lemma only_exceptions_file_read (fl : faults) (file : UploadFile.t) :
  only_exceptions (file_read fl file).
Proof. apply only_exceptions_after_guard. intros w. now eexists _, _. Qed.

Lemma only_exceptions_write_file (fl : faults) (name : str)
    (c : list Byte.byte) :
  only_exceptions (write_file fl name c).
Proof. apply only_exceptions_after_guard. intros w. now eexists _, _. Qed.

Lemma only_exceptions_insert_one (fl : faults) (d : Prediction.t) :
  only_exceptions (insert_one fl d).
Proof.
  apply only_exceptions_bind; [apply only_exceptions_guard|].
  intros _ w b. destruct (existsb _ _); discriminate.
Qed.

Section HandlerOutcomes.

Variable lower : str -> str.

(** The handler is the handler over the collaborators of its fault
    pattern. *)
Lemma predict_cattle_breed_over (fl : faults) (tmp_uuid rec_uuid : str)
    (now : Z) (file : UploadFile.t) :
  predict_cattle_breed lower fl tmp_uuid rec_uuid now file =
  predict_over lower (file_read fl) (write_file fl) (insert_one fl)
    (prune_predictions fl) (unlink fl) tmp_uuid rec_uuid now file.
Proof. reflexivity. Qed.

Section Collaborators.

Variable c_read : UploadFile.t -> M (list Byte.byte).
Variable c_write : str -> list Byte.byte -> M unit.
Variable c_insert : Prediction.t -> M unit.
Variable c_prune : M unit.
Variable c_unlink : str -> M unit.

Lemma predict_over_outcomes (tmp_uuid rec_uuid : str) (now : Z)
    (file : UploadFile.t) (w : world) :
  quiet (c_read file) ->
  (forall name contents, quiet (c_write name contents)) ->
  (forall doc, quiet (c_insert doc)) ->
  quiet c_prune ->
  (forall name, quiet (c_unlink name)) ->
  match predict_over lower c_read c_write c_insert c_prune c_unlink
          tmp_uuid rec_uuid now file w with
  | (Ok _, w') => log w' = log w
  | (Raise (HTTPException s d), w') =>
      (s = 400 /\ w' = w) \/
      (s = 500 /\ d = "Prediction failed"%string /\
       exists msg, log w' = msg :: log w)
  | (Raise (Exception _), _) => False
  | (Raise (BaseException _), w') => log w' = log w
  end.
Proof.
  intros Hread Hwrite Hinsert Hprune Hunlink.
  unfold predict_over.
  destruct (UploadFile.content_type file) as [ct|]; [|left; now split].
  destruct (negb _); [left; now split|].
  cbv zeta.
  match goal with
  | |- context [try_except_500 ?m w] =>
      assert (Hq : quiet m);
      [| pose proof (try_except_500_quiet m w Hq) as H;
         destruct (try_except_500 m w) as [[a|[s d|e|b]] w'];
         [exact H | right; exact H | exact H | exact H]]
  end.
  apply quiet_bind; [exact Hread|]. intros contents.
  apply quiet_bind; [apply Hwrite|]. intros _.
  apply quiet_bind; [apply quiet_lift_option|]. intros predicted.
  apply quiet_bind; [apply Hinsert|]. intros _.
  apply quiet_bind; [apply quiet_try_except_pass, Hprune|]. intros _.
  apply quiet_bind; [apply quiet_try_except_pass, Hunlink|]. intros _.
  apply quiet_ret.
Qed.

Lemma predict_over_only_exceptions (tmp_uuid rec_uuid : str) (now : Z)
    (file : UploadFile.t) :
  only_exceptions (c_read file) ->
  (forall name contents, only_exceptions (c_write name contents)) ->
  (forall doc, only_exceptions (c_insert doc)) ->
  only_exceptions c_prune ->
  (forall name, only_exceptions (c_unlink name)) ->
  only_exceptions
    (predict_over lower c_read c_write c_insert c_prune c_unlink
       tmp_uuid rec_uuid now file).
Proof.
  intros Hread Hwrite Hinsert Hprune Hunlink.
  unfold predict_over.
  destruct (UploadFile.content_type file) as [ct|];
    [|intros w b; discriminate].
  destruct (negb _); [intros w b; discriminate|].
  cbv zeta. apply only_exceptions_try_except_500.
  apply only_exceptions_bind; [exact Hread|]. intros contents.
  apply only_exceptions_bind; [apply Hwrite|]. intros _.
  apply only_exceptions_bind; [apply only_exceptions_lift_option|].
  intros predicted.
  apply only_exceptions_bind; [apply Hinsert|]. intros _.
  apply only_exceptions_bind;
    [apply only_exceptions_try_except_pass, Hprune|]. intros _.
  apply only_exceptions_bind;
    [apply only_exceptions_try_except_pass, Hunlink|]. intros _.
  apply only_exceptions_ret.
Qed.

(** A [BaseException] raised by [await file.read()] on an accepted upload
    leaves the handler as it is. *)
Lemma predict_over_read_escapes (tmp_uuid rec_uuid : str) (now : Z)
    (file : UploadFile.t) (w w1 : world) (b : string) :
  _looks_like_cow lower (UploadFile.filename file)
    (UploadFile.content_type file) = true ->
  c_read file w = (Raise (BaseException b), w1) ->
  predict_over lower c_read c_write c_insert c_prune c_unlink
    tmp_uuid rec_uuid now file w = (Raise (BaseException b), w1).
Proof.
  intros Hgate Hread. pose proof Hgate as Hg.
  apply gate_true_inv in Hg.
  destruct Hg as (f & ct & Hf & Hfne & Hct & _).
  rewrite Hct in Hgate.
  unfold predict_over. rewrite Hct, gate_py_or, Hgate.
  cbn [negb]. cbv zeta. unfold try_except_500.
  erewrite bind_raise by exact Hread. reflexivity.
Qed.

(** The accepted path of the handler over arbitrary collaborators. *)
Lemma predict_over_accepted (tmp_uuid rec_uuid : str) (now : Z)
    (file : UploadFile.t) (f ct : str) :
  UploadFile.filename file = Some f ->
  UploadFile.content_type file = Some ct ->
  _looks_like_cow lower (Some f) (Some ct) = true ->
  predict_over lower c_read c_write c_insert c_prune c_unlink
    tmp_uuid rec_uuid now file =
  try_except_500 (
    contents <- c_read file ;;
    c_write (tmp_uuid ++ path_suffix f) contents ;;;
    predicted <- lift_option "IndexError" (_mock_breed_choice f) ;;
    c_insert (Prediction.mk rec_uuid (Some f) (Some ct) predicted now) ;;;
    try_except_pass c_prune ;;;
    try_except_pass (c_unlink (tmp_uuid ++ path_suffix f)) ;;;
    ret (breed_response predicted)).
Proof.
  intros Hf Hct Hgate.
  assert (Hfne : f <> []).
  { destruct (gate_true_inv lower _ _ Hgate)
      as (f' & ct' & Hf' & Hfne & _). now injection Hf' as ->. }
  unfold predict_over. rewrite Hct, gate_py_or, Hf, Hgate.
  destruct f as [|c f]; [contradiction | reflexivity].
Qed.

(** A [BaseException] raised inside the pruning block, after the record
    was inserted, passes [except Exception: pass] and the outer clauses. *)
Lemma predict_over_prune_escapes (tmp_uuid rec_uuid : str) (now : Z)
    (file : UploadFile.t) (f ct : str) (label : string)
    (contents : list Byte.byte) (b : string) (w w1 w2 w3 w4 : world) :
  UploadFile.filename file = Some f ->
  UploadFile.content_type file = Some ct ->
  _looks_like_cow lower (Some f) (Some ct) = true ->
  _mock_breed_choice f = Some label ->
  c_read file w = (Ok contents, w1) ->
  c_write (tmp_uuid ++ path_suffix f) contents w1 = (Ok tt, w2) ->
  c_insert (Prediction.mk rec_uuid (Some f) (Some ct) label now) w2
    = (Ok tt, w3) ->
  c_prune w3 = (Raise (BaseException b), w4) ->
  predict_over lower c_read c_write c_insert c_prune c_unlink
    tmp_uuid rec_uuid now file w = (Raise (BaseException b), w4).
Proof.
  intros Hf Hct Hgate Hlabel Hread Hwrite Hins Hprune.
  rewrite (predict_over_accepted tmp_uuid rec_uuid now file f ct Hf Hct Hgate).
  unfold try_except_500.
  erewrite bind_ok by exact Hread.
  erewrite bind_ok by exact Hwrite.
  rewrite Hlabel. erewrite bind_ok by reflexivity.
  erewrite bind_ok by exact Hins.
  erewrite bind_raise
    by (unfold try_except_pass; rewrite Hprune; reflexivity).
  reflexivity.
Qed.

End Collaborators.

(** X2. When every collaborator failure is an exception derived from
    [Exception] (the fault patterns [fl]), the prediction handler either
    answers, leaving the log as it was, or raises an [HTTPException] of
    status 400, leaving the whole world as it was, or one of status 500
    with detail "Prediction failed", having written exactly one log
    record; nothing else leaves it. Over arbitrary collaborators that
    write no log record and raise no [HTTPException] of their own there
    is a fourth outcome: a [BaseException] outside [Exception]
    ([asyncio.CancelledError]) raised by a collaborator passes the three
    [except Exception] clauses and leaves the handler, with no log record
    written and no 400 or 500 in its place, and it is the only way such
    an exception leaves the handler. It does so from [await file.read()]
    on every accepted upload, and from the pruning block, whose
    [except Exception: pass] does not hold it back, once the record is
    inserted. *)
Theorem predict_outcomes (tmp_uuid rec_uuid : str) (now : Z)
    (file : UploadFile.t) (w : world) :
  (forall fl : faults,
     match predict_cattle_breed lower fl tmp_uuid rec_uuid now file w with
     | (Ok _, w') => log w' = log w
     | (Raise (HTTPException s d), w') =>
         (s = 400 /\ w' = w) \/
         (s = 500 /\ d = "Prediction failed"%string /\
          exists msg, log w' = msg :: log w)
     | (Raise (Exception _), _) => False
     | (Raise (BaseException _), _) => False
     end) /\
  (forall (c_read : UploadFile.t -> M (list Byte.byte))
          (c_write : str -> list Byte.byte -> M unit)
          (c_insert : Prediction.t -> M unit)
          (c_prune : M unit) (c_unlink : str -> M unit),
     quiet (c_read file) ->
     (forall name contents, quiet (c_write name contents)) ->
     (forall doc, quiet (c_insert doc)) ->
     quiet c_prune ->
     (forall name, quiet (c_unlink name)) ->
     match predict_over lower c_read c_write c_insert c_prune c_unlink
             tmp_uuid rec_uuid now file w with
     | (Ok _, w') => log w' = log w
     | (Raise (HTTPException s d), w') =>
         (s = 400 /\ w' = w) \/
         (s = 500 /\ d = "Prediction failed"%string /\
          exists msg, log w' = msg :: log w)
     | (Raise (Exception _), _) => False
     | (Raise (BaseException _), w') =>
         log w' = log w /\
         ~ (only_exceptions (c_read file) /\
            (forall name contents, only_exceptions (c_write name contents)) /\
            (forall doc, only_exceptions (c_insert doc)) /\
            only_exceptions c_prune /\
            (forall name, only_exceptions (c_unlink name)))
     end /\
     (forall b w1,
        _looks_like_cow lower (UploadFile.filename file)
          (UploadFile.content_type file) = true ->
        c_read file w = (Raise (BaseException b), w1) ->
        predict_over lower c_read c_write c_insert c_prune c_unlink
          tmp_uuid rec_uuid now file w = (Raise (BaseException b), w1)) /\
     (forall f ct label contents b w1 w2 w3 w4,
        UploadFile.filename file = Some f ->
        UploadFile.content_type file = Some ct ->
        _looks_like_cow lower (Some f) (Some ct) = true ->
        _mock_breed_choice f = Some label ->
        c_read file w = (Ok contents, w1) ->
        c_write (tmp_uuid ++ path_suffix f) contents w1 = (Ok tt, w2) ->
        c_insert (Prediction.mk rec_uuid (Some f) (Some ct) label now) w2
          = (Ok tt, w3) ->
        c_prune w3 = (Raise (BaseException b), w4) ->
        predict_over lower c_read c_write c_insert c_prune c_unlink
          tmp_uuid rec_uuid now file w = (Raise (BaseException b), w4))).
Proof.
  split.
  - intros fl. rewrite predict_cattle_breed_over.
    pose proof (predict_over_outcomes (file_read fl) (write_file fl)
                  (insert_one fl) (prune_predictions fl) (unlink fl)
                  tmp_uuid rec_uuid now file w
                  (quiet_file_read fl file) (quiet_write_file fl)
                  (quiet_insert_one fl) (quiet_prune fl) (quiet_unlink fl))
      as H.
    pose proof (predict_over_only_exceptions (file_read fl) (write_file fl)
                  (insert_one fl) (prune_predictions fl) (unlink fl)
                  tmp_uuid rec_uuid now file
                  (only_exceptions_file_read fl file)
                  (only_exceptions_write_file fl)
                  (only_exceptions_insert_one fl)
                  (only_exceptions_prune fl) (only_exceptions_unlink fl) w)
      as Hb.
    destruct (predict_over lower (file_read fl) (write_file fl)
                (insert_one fl) (prune_predictions fl) (unlink fl)
                tmp_uuid rec_uuid now file w) as [[a|[s d|e|b]] w'];
      cbn [fst] in Hb; [exact H | exact H | exact H | now destruct (Hb b)].
  - intros c_read c_write c_insert c_prune c_unlink
      Hread Hwrite Hinsert Hprune Hunlink.
    split.
    + pose proof (predict_over_outcomes c_read c_write c_insert c_prune
                    c_unlink tmp_uuid rec_uuid now file w
                    Hread Hwrite Hinsert Hprune Hunlink) as H.
      destruct (predict_over lower c_read c_write c_insert c_prune c_unlink
                  tmp_uuid rec_uuid now file w) as [[a|[s d|e|b]] w'] eqn:E;
        [exact H | exact H | exact H |].
      split; [exact H|].
      intros (H1 & H2 & H3 & H4 & H5).
      apply (predict_over_only_exceptions c_read c_write c_insert c_prune
               c_unlink tmp_uuid rec_uuid now file H1 H2 H3 H4 H5 w b).
      now rewrite E.
    + split.
      * intros b w1. apply predict_over_read_escapes.
      * intros f ct label contents b w1 w2 w3 w4.
        apply predict_over_prune_escapes.
Qed.

End HandlerOutcomes.

(** ** The scratch file *)

Lemma filter_twice {A : Type} (f : A -> bool) (l : list A) :
  filter f (filter f l) = filter f l.
Proof.
  induction l as [|x l IH]; simpl; [reflexivity|].
  destruct (f x) eqn:E; simpl; [rewrite E; now f_equal | exact IH].
Qed.

Lemma unlink_uploads (fl : faults) (name : str) (w : world) :
  uploads (snd (unlink fl name w)) =
  if unlink_raises fl then uploads w else other_uploads name w.
Proof.
  unfold unlink, bind, guard, ret, raise, other_uploads.
  now destruct (unlink_raises fl).
Qed.

Section ScratchFile.

Variable lower : str -> str.

(** X3. When an accepted upload is served and the cleanup does not raise,
    the scratch file is gone afterwards: the scratch directory holds what
    it held before under other names, so it is left as it was when no
    file of the scratch name existed. A failing pruning step does not
    prevent the cleanup. *)
Theorem scratch_file_removed (fl : faults) (tmp_uuid rec_uuid : str)
    (now : Z) (file : UploadFile.t) (w : world) :
  _looks_like_cow lower (UploadFile.filename file)
    (UploadFile.content_type file) = true ->
  read_raises fl = false -> write_raises fl = false ->
  insert_one_raises fl = false -> unlink_raises fl = false ->
  ~ In rec_uuid (ids (predictions w)) ->
  exists f label w',
    UploadFile.filename file = Some f /\
    predict_cattle_breed lower fl tmp_uuid rec_uuid now file w =
      (Ok (breed_response label), w') /\
    uploads w' = other_uploads (tmp_uuid ++ path_suffix f) w /\
    (forall e, In e (uploads w') -> fst e <> tmp_uuid ++ path_suffix f) /\
    ((forall e, In e (uploads w) -> fst e <> tmp_uuid ++ path_suffix f) ->
     uploads w' = uploads w).
Proof.
  intros Hgate Hr Hw Hi Hu Hfresh.
  destruct (predict_accepted_run lower fl tmp_uuid rec_uuid now file w
              Hgate Hr Hw Hi Hfresh)
    as (f & ct & label & Hf & _ & _ & _ & E).
  cbv zeta in E. set (name := tmp_uuid ++ path_suffix f) in *.
  match type of E with _ = (_, ?x) => set (wfin := x) in * end.
  assert (Eu : uploads wfin = other_uploads name w).
  { subst wfin. rewrite unlink_uploads, Hu. unfold other_uploads at 1.
    rewrite (proj2 (prune_keeps_log _ _)). cbn [uploads filter fst].
    assert (Hn : str_eqb name name = true) by now apply str_eqb_eq.
    rewrite Hn. cbn [negb]. apply filter_twice. }
  exists f, label, wfin.
  split; [exact Hf|]. split; [exact E|]. split; [exact Eu|]. split.
  - intros e He. rewrite Eu in He. unfold other_uploads in He.
    apply filter_In in He. destruct He as [_ He]. intros Heq.
    change (fst e = name) in Heq. cbv beta in He. rewrite Heq, (proj2 (str_eqb_eq name name) eq_refl) in He.
    discriminate.
  - intros Hnone. rewrite Eu. unfold other_uploads. apply filter_all.
    intros e He. specialize (Hnone e He).
    destruct (str_eqb (fst e) name) eqn:X; [|reflexivity].
    apply str_eqb_eq in X. now elim Hnone.
Qed.

(** X4. The scratch file of an accepted upload stays in the scratch
    directory when the request fails after the file was written (the
    insert raises or the record id is already stored: answer 500), and
    when the cleanup itself raises (answer [{"breed": label}]). *)
Theorem scratch_file_left_behind (fl : faults) (tmp_uuid rec_uuid : str)
    (now : Z) (file : UploadFile.t) (w : world) :
  _looks_like_cow lower (UploadFile.filename file)
    (UploadFile.content_type file) = true ->
  read_raises fl = false -> write_raises fl = false ->
  insert_one_raises fl = true \/ In rec_uuid (ids (predictions w)) \/
  unlink_raises fl = true ->
  exists f r w',
    UploadFile.filename file = Some f /\
    predict_cattle_breed lower fl tmp_uuid rec_uuid now file w = (r, w') /\
    In (tmp_uuid ++ path_suffix f, UploadFile.body file) (uploads w') /\
    (r = Raise (HTTPException 500 "Prediction failed") \/
     exists label, r = Ok (breed_response label)).
Proof.
  intros Hgate Hr Hw Hfail.
  destruct (predict_accepted_eval lower fl tmp_uuid rec_uuid now file w Hgate)
    as (f & ct & Hf & _ & _ & _ & E).
  cbv beta in E.
  destruct (breed_choice_total f) as (label & Hlabel & _).
  set (name := tmp_uuid ++ path_suffix f) in *.
  set (doc := Prediction.mk rec_uuid (Some f) (Some ct) label now).
  set (w0 := mkWorld (predictions w)
               ((name, UploadFile.body file) :: other_uploads name w) (log w)).
  destruct (insert_one_raises fl) eqn:Hi;
    [|destruct (existsb (has_id rec_uuid) (predictions w)) eqn:Hdup].
  - destruct (insert_one_raise fl doc w0 (or_introl Hi)) as (what & Ei).
    eexists f, _, _. split; [exact Hf|]. split.
    + rewrite E. apply try_except_500_exception.
      erewrite bind_ok by (now apply file_read_ok).
      erewrite bind_ok by (now apply write_file_ok).
      rewrite Hlabel. erewrite bind_ok by reflexivity.
      apply bind_raise. exact Ei.
    + split; [now left | now left].
  - destruct (insert_one_raise fl doc w0 (or_intror Hdup)) as (what & Ei).
    eexists f, _, _. split; [exact Hf|]. split.
    + rewrite E. apply try_except_500_exception.
      erewrite bind_ok by (now apply file_read_ok).
      erewrite bind_ok by (now apply write_file_ok).
      rewrite Hlabel. erewrite bind_ok by reflexivity.
      apply bind_raise. exact Ei.
    + split; [now left | now left].
  - assert (Hu : unlink_raises fl = true).
    { destruct Hfail as [H | [H | H]]; [discriminate | | exact H].
      apply has_id_existsb in H. congruence. }
    assert (Hfresh : ~ In rec_uuid (ids (predictions w))).
    { intros H. apply has_id_existsb in H. congruence. }
    destruct (predict_accepted_run lower fl tmp_uuid rec_uuid now file w
                Hgate Hr Hw Hi Hfresh)
      as (f' & ct' & label' & Hf' & _ & _ & _ & E').
    cbv zeta in E'. assert (f' = f) by congruence. subst f'.
    eexists f, _, _. split; [exact Hf|]. split; [exact E'|]. split.
    + rewrite unlink_uploads, Hu, (proj2 (prune_keeps_log _ _)).
      cbn [uploads]. now left.
    + right. now exists label'.
Qed.

End ScratchFile.

(** ** Stores the service can reach *)

Lemma serve_all_preserves (lower : str -> str) (qs : list request)
    (w : world) :
  store_ok (predictions w) -> store_ok (predictions (serve_all lower qs w)).
Proof.
  revert w. induction qs as [|q qs IH]; intros w H; [exact H|].
  apply IH. now apply predict_preserves.
Qed.

(** X5. Whatever requests the prediction handler has served since the
    store was empty, and whichever collaborator calls raised on the way,
    the stored records have pairwise different ids and every stored breed
    is one of BREEDS; so at most five distinct breeds are stored. *)
Theorem served_store_ok (lower : str -> str) (qs : list request) :
  NoDup (ids (predictions (serve_all lower qs empty_world))) /\
  Forall (fun d => In (Prediction.breed d) BREEDS)
    (predictions (serve_all lower qs empty_world)) /\
  (length (nodup string_dec (breeds_of (serve_all lower qs empty_world)))
     <= 5)%nat.
Proof.
  assert (H : store_ok (predictions (serve_all lower qs empty_world))).
  { apply serve_all_preserves. split; constructor. }
  split; [apply H|]. split; [apply H|].
  now apply store_ok_distinct_breeds.
Qed.

(** ** The new record and the pruning of its own request *)

Lemma insert_by_before_last {A : Type} (le : A -> A -> bool) (x last : A)
    (s : list A) :
  le x last = true ->
  insert_by le x (s ++ [last]) = insert_by le x s ++ [last].
Proof.
  intros H. induction s as [|y s IH]; simpl.
  - now rewrite H.
  - destruct (le x y); [reflexivity | now rewrite IH].
Qed.

(** A record that may stand after every stored one is sorted last. *)
Lemma sort_by_append_last {A : Type} (le : A -> A -> bool) (last : A)
    (l : list A) :
  (forall x, In x l -> le x last = true) ->
  sort_by le (l ++ [last]) = sort_by le l ++ [last].
Proof.
  induction l as [|x l IH]; intros H; simpl; [reflexivity|].
  rewrite IH by (intros y Hy; apply H; now right).
  apply insert_by_before_last. apply H. now left.
Qed.

(** A record that no stored one may stand before is sorted first. *)
Lemma sort_by_append_first {A : Type} (le : A -> A -> bool) (first : A)
    (l : list A) :
  (forall x, In x l -> le x first = false) ->
  sort_by le (l ++ [first]) = first :: sort_by le l.
Proof.
  induction l as [|x l IH]; intros H; simpl; [reflexivity|].
  rewrite IH by (intros y Hy; apply H; now right).
  simpl. now rewrite (H x (or_introl eq_refl)).
Qed.

(** The record of strictly greatest timestamp heads the descending sort. *)
Lemma sort_desc_head (doc : Prediction.t) (l : list Prediction.t) :
  In doc l ->
  (forall x, In x l ->
     x = doc \/ Prediction.timestamp x < Prediction.timestamp doc) ->
  exists rest, sort_by ts_desc l = doc :: rest.
Proof.
  intros Hin Hmax.
  pose proof (sort_by_perm ts_desc l) as Hp.
  pose proof (sort_by_sorted ts_desc ts_desc_total ts_desc_trans l) as Hs.
  destruct (sort_by ts_desc l) as [|h rest] eqn:E.
  - apply Permutation_nil in Hp. subst l. contradiction.
  - exists rest. f_equal.
    assert (Hh : In h l) by (eapply Permutation_in; [exact Hp | now left]).
    assert (Hd : In doc (h :: rest))
      by (eapply Permutation_in; [apply Permutation_sym, Hp | exact Hin]).
    destruct Hd as [Hd | Hd]; [exact Hd|].
    inversion Hs as [|? ? _ Hall]; subst.
    rewrite Forall_forall in Hall. specialize (Hall doc Hd).
    unfold ts_desc in Hall. apply Z.leb_le in Hall.
    destruct (Hmax h Hh) as [-> | Hlt]; [reflexivity | lia].
Qed.

Lemma store_with_new_NoDup (l : list Prediction.t) (doc : Prediction.t) :
  NoDup (ids l) -> ~ In (Prediction.id doc) (ids l) ->
  NoDup (ids (l ++ [doc])).
Proof.
  intros Hnd Hfresh. rewrite ids_app. apply NoDup_app; [exact Hnd | |].
  - repeat constructor. simpl. tauto.
  - intros a Ha [<- | []]. contradiction.
Qed.

Section NewRecord.

Variable lower : str -> str.

(** X6. When no collaborator call raises and the clock reads later than
    the timestamp of every stored record, the record of an accepted upload
    survives the pruning of its own request, and a following read of the
    recent predictions with limit 1 returns exactly that record. *)
Theorem newest_record_kept (tmp_uuid rec_uuid : str) (now : Z)
    (file : UploadFile.t) (w : world) :
  _looks_like_cow lower (UploadFile.filename file)
    (UploadFile.content_type file) = true ->
  NoDup (ids (predictions w)) ->
  ~ In rec_uuid (ids (predictions w)) ->
  (forall d, In d (predictions w) -> Prediction.timestamp d < now) ->
  exists f label w',
    UploadFile.filename file = Some f /\
    predict_cattle_breed lower no_faults tmp_uuid rec_uuid now file w =
      (Ok (breed_response label), w') /\
    let doc := Prediction.mk rec_uuid (Some f)
                 (UploadFile.content_type file) label now in
    In doc (predictions w') /\
    get_recent_predictions no_faults (Some 1) w' = (Ok [doc], w').
Proof.
  intros Hgate Hnd Hfresh Hnew.
  destruct (predict_accepted_run lower no_faults tmp_uuid rec_uuid now file w
              Hgate eq_refl eq_refl eq_refl Hfresh)
    as (f & ct & label & Hf & _ & Hct & _ & E).
  cbv zeta in E.
  set (doc := Prediction.mk rec_uuid (Some f) (Some ct) label now) in *.
  set (name := tmp_uuid ++ path_suffix f) in *.
  match type of E with
  | context [prune_predictions no_faults ?x] => set (w1 := x) in *
  end.
  assert (Hnd1 : NoDup (ids (predictions w1)))
    by now apply store_with_new_NoDup.
  destruct (prune_spec w1 Hnd1) as (w2 & E2 & _ & _ & Hp & _).
  destruct (prune_result w1 Hnd1) as (w2' & E2' & _ & Hincl & _).
  assert (w2' = w2) by congruence. subst w2'.
  rewrite E2 in E. cbn [snd] in E.
  destruct (unlink_keeps no_faults name w2) as (Kp & _).
  set (w' := snd (unlink no_faults name w2)) in *.
  exists f, label, w'. split; [exact Hf|]. split; [exact E|].
  rewrite Hct. fold doc. cbv zeta.
  assert (Hkept : In doc (predictions w')).
  { rewrite Kp. eapply Permutation_in; [apply Permutation_sym, Hp|].
    cbn [w1 predictions].
    rewrite sort_by_append_last.
    - rewrite skipn_app. apply in_or_app. right.
      rewrite sort_by_length, length_app. cbn [length].
      replace (length (predictions w) + 1 - 20 - length (predictions w))%nat
        with 0%nat by lia.
      now left.
    - intros x Hx. unfold ts_asc. apply Z.leb_le.
      specialize (Hnew x Hx). cbn [doc Prediction.timestamp]. lia. }
  split; [exact Hkept|].
  rewrite recent_eval. cbn [find_raises no_faults].
  destruct (sort_desc_head doc (predictions w') Hkept) as (rest & Es).
  - intros x Hx. rewrite Kp in Hx. apply Hincl in Hx.
    cbn [w1 predictions] in Hx. apply in_app_or in Hx.
    destruct Hx as [Hx | [<- | []]]; [right | now left].
    cbn [doc Prediction.timestamp]. now apply Hnew.
  - rewrite Es. reflexivity.
Qed.

(** X7. When no collaborator call raises, at least 20 records are stored
    and the clock reads earlier than the timestamp of every one of them,
    an accepted upload is still answered with its breed, but its record is
    deleted by the pruning of its own request: afterwards the store holds
    20 of the records it held before and no record of the new id. *)
Theorem stale_record_pruned (tmp_uuid rec_uuid : str) (now : Z)
    (file : UploadFile.t) (w : world) :
  _looks_like_cow lower (UploadFile.filename file)
    (UploadFile.content_type file) = true ->
  NoDup (ids (predictions w)) ->
  ~ In rec_uuid (ids (predictions w)) ->
  (20 <= length (predictions w))%nat ->
  (forall d, In d (predictions w) -> now < Prediction.timestamp d) ->
  exists f label w',
    UploadFile.filename file = Some f /\
    predict_cattle_breed lower no_faults tmp_uuid rec_uuid now file w =
      (Ok (breed_response label), w') /\
    ~ In rec_uuid (ids (predictions w')) /\
    incl (predictions w') (predictions w) /\
    length (predictions w') = 20%nat.
Proof.
  intros Hgate Hnd Hfresh Hfull Hold.
  destruct (predict_accepted_run lower no_faults tmp_uuid rec_uuid now file w
              Hgate eq_refl eq_refl eq_refl Hfresh)
    as (f & ct & label & Hf & _ & _ & _ & E).
  cbv zeta in E.
  set (doc := Prediction.mk rec_uuid (Some f) (Some ct) label now) in *.
  set (name := tmp_uuid ++ path_suffix f) in *.
  match type of E with
  | context [prune_predictions no_faults ?x] => set (w1 := x) in *
  end.
  assert (Hnd1 : NoDup (ids (predictions w1)))
    by now apply store_with_new_NoDup.
  destruct (prune_result w1 Hnd1)
    as (w2 & E2 & _ & Hincl & Hlen & Hperm & _).
  rewrite E2 in E. cbn [snd] in E.
  destruct (unlink_keeps no_faults name w2) as (Kp & _).
  set (w' := snd (unlink no_faults name w2)) in *.
  exists f, label, w'. split; [exact Hf|]. split; [exact E|].
  rewrite Kp.
  assert (Hout : ~ In rec_uuid (ids (predictions w2))).
  { assert (Hnd2 : NoDup (ids (oldest_excess (predictions w1)
                                 ++ predictions w2))).
    { unfold ids. eapply Permutation_NoDup; [|exact Hnd1].
      apply Permutation_map, Permutation_sym, Hperm. }
    unfold oldest_excess in Hnd2. cbn [w1 predictions] in Hnd2.
    rewrite sort_by_append_first in Hnd2.
    - rewrite length_app in Hnd2. cbn [length] in Hnd2.
      replace (length (predictions w) + 1 - 20)%nat
        with (S (length (predictions w) - 20)) in Hnd2 by lia.
      cbn [firstn app] in Hnd2. unfold ids in Hnd2. cbn [map] in Hnd2.
      inversion Hnd2 as [|? ? Hx _]; subst. intros Hin. apply Hx.
      rewrite map_app. apply in_or_app. now right.
    - intros x Hx. unfold ts_asc. apply Z.leb_gt.
      specialize (Hold x Hx). cbn [doc Prediction.timestamp]. lia. }
  split; [exact Hout|]. split.
  - intros x Hx. pose proof (Hincl x Hx) as Hx1.
    cbn [w1 predictions] in Hx1. apply in_app_or in Hx1.
    destruct Hx1 as [Hx1 | [<- | []]]; [exact Hx1|].
    exfalso. apply Hout. unfold ids.
    change rec_uuid with (Prediction.id doc). now apply in_map.
  - rewrite Hlen. cbn [w1 predictions]. rewrite length_app. cbn [length]. lia.
Qed.

End NewRecord.

(** ** More on the pruning step *)

(** X8. When no collaborator call raises and ids are unique, pruning a
    pruned store changes nothing: the step leaves at most 20 records, and
    run again on its result it returns that result. *)
Theorem prune_idempotent (w : world) :
  NoDup (ids (predictions w)) ->
  exists w1,
    prune_predictions no_faults w = (Ok tt, w1) /\
    (length (predictions w1) <= 20)%nat /\
    prune_predictions no_faults w1 = (Ok tt, w1).
Proof.
  intros Hnd.
  destruct (prune_result w Hnd) as (w1 & E1 & Hnd1 & _ & Hlen & _).
  exists w1. split; [exact E1|]. split; [lia|].
  destruct (prune_result w1 Hnd1) as (w2 & E2 & _ & _ & _ & _ & Hsmall & _).
  rewrite E2. f_equal. apply Hsmall. lia.
Qed.

(** X9. Whichever of its calls raise, the pruning step only deletes: the
    records it leaves are a selection of the stored ones, in their order;
    it never touches the scratch directory or the log; and a store of at
    most 20 records is left exactly as it was. *)
Theorem prune_only_deletes (fl : faults) (w : world) :
  (exists keep : Prediction.t -> bool,
     predictions (snd (prune_predictions fl w)) =
     filter keep (predictions w)) /\
  uploads (snd (prune_predictions fl w)) = uploads w /\
  log (snd (prune_predictions fl w)) = log w /\
  ((length (predictions w) <= 20)%nat -> snd (prune_predictions fl w) = w).
Proof.
  assert (Hsame : exists keep : Prediction.t -> bool,
            predictions w = filter keep (predictions w)).
  { exists (fun _ => true). symmetry. now apply filter_all. }
  unfold prune_predictions, bind, count_documents, find_sort_limit,
    delete_many, guard, ret, raise.
  destruct (count_documents_raises fl); simpl; [now repeat split|].
  destruct (RETENTION <? _) eqn:Et; simpl; [|now repeat split].
  apply Z.ltb_lt in Et. unfold RETENTION in Et.
  destruct (find_raises fl); simpl;
    [repeat split; try assumption; reflexivity|].
  destruct (map Prediction.id _) as [|i td]; simpl;
    [repeat split; try assumption; reflexivity|].
  destruct (delete_many_raises fl); simpl;
    [repeat split; try assumption; reflexivity|].
  split; [now eexists|]. split; [reflexivity|]. split; [reflexivity|].
  intros Hle. lia.
Qed.

(** ** More on the readers *)

(** X10. When the store holds no more records than the clamped limit (so,
    with the default limit, at most 20), the reader returns every stored
    record, sorted by descending timestamp. *)
Theorem recent_returns_whole_store (limit : option Z) (w : world) :
  Z.of_nat (length (predictions w)) <=
    clamp_limit (match limit with Some l => l | None => 20 end) ->
  exists preds,
    get_recent_predictions no_faults limit w = (Ok preds, w) /\
    Permutation preds (predictions w) /\
    StronglySorted (fun a b => older_eq b a) preds.
Proof.
  intros Hfit. rewrite recent_eval. cbn [find_raises no_faults].
  eexists. split; [reflexivity|].
  rewrite firstn_all2 by (rewrite sort_by_length; lia).
  split; [apply sort_by_perm|].
  eapply StronglySorted_impl;
    [| apply sort_by_sorted; [apply ts_desc_total | apply ts_desc_trans]].
  intros a b H. unfold older_eq. now apply Z.leb_le.
Qed.

Lemma count_desc_total (a b : string * Z) :
  count_desc a b = true \/ count_desc b a = true.
Proof. unfold count_desc. rewrite !Z.leb_le. lia. Qed.

Lemma count_desc_trans (a b c : string * Z) :
  count_desc a b = true -> count_desc b c = true -> count_desc a c = true.
Proof. unfold count_desc. rewrite !Z.leb_le. lia. Qed.

Lemma max_by_first (f : string -> Z) (rest : list string) (best : string) :
  (forall x, In x rest -> f x <= f best) -> max_by f best rest = best.
Proof.
  induction rest as [|k rest IH]; intros H; simpl; [reflexivity|].
  destruct (f best <? f k) eqn:E.
  - apply Z.ltb_lt in E. specialize (H k (or_introl eq_refl)). lia.
  - apply IH. intros x Hx. apply H. now right.
Qed.

(** With at most 100 distinct breeds stored, the dictionary built by the
    handler is the sorted list of the grouping rows. *)
Lemma by_breed_sorted_rows (bs : list string) :
  (length (nodup string_dec bs) <= 100)%nat ->
  fold_left (fun d a => dict_set d (fst a) (snd a))
    (firstn 100 (sort_by count_desc (group_rows [] bs))) [] =
  sort_by count_desc (group_rows [] bs).
Proof.
  intros Hdistinct.
  destruct (group_rows_spec bs [] (NoDup_nil _)) as (N & _ & G).
  set (rows := group_rows [] bs) in *.
  assert (Ns : NoDup (keys (sort_by count_desc rows))).
  { eapply Permutation_NoDup; [|exact N].
    apply Permutation_map, Permutation_sym, sort_by_perm. }
  rewrite firstn_all2.
  - now rewrite fold_dict_set_app.
  - rewrite sort_by_length.
    replace (length rows) with (length (keys rows))
      by (unfold keys; apply length_map).
    etransitivity; [|exact Hdistinct].
    apply NoDup_incl_length; [exact N|].
    intros k Hk. apply nodup_In. apply occurrences_pos.
    destruct (dict_get rows k) as [v|] eqn:E.
    + rewrite G in E. destruct (occurrences bs k =? 0) eqn:E0.
      * discriminate.
      * apply Z.eqb_neq in E0. unfold occurrences in *. lia.
    + apply dict_get_None in E. contradiction.
Qed.

(** X11. With at most 100 distinct breeds stored, the summary lists the
    breeds by count, greatest first, every listed count is at least 1, and
    [most_common] is the first breed listed. *)
Theorem summary_sorted_by_count (w : world) :
  (length (nodup string_dec (breeds_of w)) <= 100)%nat ->
  exists s,
    get_analytics_summary no_faults w = (Ok s, w) /\
    StronglySorted (fun a b => snd b <= snd a) (Summary.by_breed s) /\
    Forall (fun a => 1 <= snd a) (Summary.by_breed s) /\
    Summary.most_common s = hd_error (map fst (Summary.by_breed s)).
Proof.
  intros Hdistinct. rewrite summary_eval. cbv zeta.
  destruct (by_breed_rows (breeds_of w) Hdistinct) as (N & _ & G).
  cbv zeta in N, G.
  rewrite by_breed_sorted_rows in * by exact Hdistinct.
  set (by_breed := sort_by count_desc (group_rows [] (breeds_of w))) in *.
  eexists. split; [reflexivity|].
  cbn [Summary.by_breed Summary.most_common].
  assert (Hs : StronglySorted (fun a b => count_desc a b = true) by_breed)
    by (apply sort_by_sorted; [apply count_desc_total | apply count_desc_trans]).
  split; [|split].
  - eapply StronglySorted_impl; [|exact Hs].
    intros a b H. unfold count_desc in H. now apply Z.leb_le.
  - apply Forall_forall. intros [k v] Hkv. cbn [snd].
    apply (dict_get_In _ _ _ N) in Hkv. rewrite G in Hkv.
    destruct (occurrences (breeds_of w) k =? 0) eqn:E0; [discriminate|].
    apply Z.eqb_neq in E0. injection Hkv as <-.
    unfold occurrences in *. lia.
  - unfold keys in *. destruct by_breed as [|[k vk] tail] eqn:Eb;
      [reflexivity|].
    cbn [map fst hd_error]. f_equal. apply max_by_first.
    intros x Hx. apply in_map_iff in Hx. destruct Hx as ([x' vx] & <- & Hx).
    cbn [fst].
    inversion Hs as [|? ? _ Hall]; subst.
    rewrite Forall_forall in Hall. specialize (Hall _ Hx).
    unfold count_desc in Hall. cbn [snd] in Hall. apply Z.leb_le in Hall.
    assert (Ex : dict_get ((k, vk) :: tail) x' = Some vx)
      by (apply (dict_get_In _ _ _ N); now right).
    assert (Ek : dict_get ((k, vk) :: tail) k = Some vk)
      by (apply (dict_get_In _ _ _ N); now left).
    unfold get_or_zero. now rewrite Ex, Ek.
Qed.

(** ** The scratch file name *)

Lemma split_on_parts (sep : N) (s part : str) :
  In part (split_on sep s) -> ~ In sep part.
Proof.
  revert part. induction s as [|c s IH]; intros part; cbn [split_on].
  - intros [<- | []]. intros [].
  - destruct (N.eqb c sep) eqn:E.
    + intros [<- | H]; [intros [] | now apply IH].
    + apply N.eqb_neq in E. destruct (split_on sep s) as [|x xs] eqn:Es.
      * intros [<- | []]. intros [H | []]. congruence.
      * intros [<- | H].
        -- intros [H | H]; [congruence|].
           apply (IH x); [now left | exact H].
        -- apply IH. now right.
Qed.

Lemma last_prop {A : Type} (P : A -> Prop) (l : list A) (d : A) :
  P d -> (forall x, In x l -> P x) -> P (last l d).
Proof.
  intros Hd. induction l as [|x l IH]; intros H; [exact Hd|].
  destruct l as [|y l].
  - apply H. now left.
  - change (last (x :: y :: l) d) with (last (y :: l) d).
    apply IH. intros z Hz. apply H. now right.
Qed.

Lemma path_name_no_slash (p : str) : ~ In SLASH (path_name p).
Proof.
  unfold path_name, path_parts. apply last_prop; [intros []|].
  intros x Hx. apply filter_In in Hx. destruct Hx as [Hx _].
  now apply split_on_parts in Hx.
Qed.

(** X12. The suffix that the handler takes from the client's filename for
    its scratch file is empty or a ['.'] followed by at least one
    character, none of them ['.'] or ['/']: whatever the filename, the
    scratch file name [uuid + suffix] has no path separator that the uuid
    does not have. *)
Theorem scratch_suffix_shape (p tmp_uuid : str) :
  (path_suffix p = [] \/
   exists rest,
     path_suffix p = DOT :: rest /\ rest <> [] /\
     ~ In DOT rest /\ ~ In SLASH rest) /\
  (In SLASH (tmp_uuid ++ path_suffix p) -> In SLASH tmp_uuid).
Proof.
  assert (Hshape : path_suffix p = [] \/
            exists rest,
              path_suffix p = DOT :: rest /\ rest <> [] /\
              ~ In DOT rest /\ ~ In SLASH rest).
  { pose proof (path_name_no_slash p) as Hns. unfold path_suffix.
    set (name := path_name p) in *.
    destruct (rfind_cases DOT name) as [[E _] | (pre & post & Hn & E & Hnd)].
    - rewrite E. now left.
    - rewrite E.
      destruct ((0 <? Z.of_nat (length pre)) &&
                (Z.of_nat (length pre) <? Z.of_nat (length name) - 1)) eqn:Eb;
        [|now left].
      right. exists post. rewrite Nat2Z.id.
      apply andb_true_iff in Eb. destruct Eb as [_ Eb].
      apply Z.ltb_lt in Eb.
      rewrite Hn in *. rewrite length_app in Eb. cbn [length] in Eb.
      rewrite skipn_app, skipn_all, Nat.sub_diag. cbn [app skipn].
      split; [reflexivity|]. split.
      + intros ->. cbn [length] in Eb. lia.
      + split; [exact Hnd|]. intros H. apply Hns.
        apply in_or_app. right. now right. }
  split; [exact Hshape|].
  intros H. apply in_app_or in H. destruct H as [H | H]; [exact H|].
  exfalso. destruct Hshape as [E | (rest & E & _ & _ & Hs)]; rewrite E in H.
  - contradiction.
  - destruct H as [H | H]; [discriminate | contradiction].
Qed.

(** ** The seed hash *)

Lemma hash_loop_app (s1 s2 : str) (h : Z) :
  hash_loop h (s1 ++ s2) = hash_loop (hash_loop h s1) s2.
Proof.
  revert h. induction s1 as [|c s1 IH]; intros h; [reflexivity|].
  simpl. apply IH.
Qed.

(** X13. The accumulator of the seed hash stays in [0, 1000003); the hash
    of a seed continues from the hash of any prefix of it, so two seeds
    that reach the same accumulator get the same breed after any common
    ending. *)
Theorem seed_hash_continues (a b t : str) :
  0 <= hash_loop 0 a < 1000003 /\
  hash_loop 0 (a ++ t) = hash_loop (hash_loop 0 a) t /\
  (hash_loop 0 a = hash_loop 0 b ->
   _mock_breed_choice (a ++ t) = _mock_breed_choice (b ++ t)).
Proof.
  split; [|split].
  - assert (G : forall s h, 0 <= h < 1000003 -> 0 <= hash_loop h s < 1000003).
    { induction s as [|c s IH]; intros h Hh; [exact Hh|].
      simpl. apply IH. apply Z.mod_pos_bound. lia. }
    apply G. lia.
  - apply hash_loop_app.
  - intros H. unfold _mock_breed_choice, breed_index.
    now rewrite !hash_loop_app, H.
Qed.

(** * The source archive *)

Lemma entry_induction (P : entry -> Prop) :
  (forall f, P (File f)) ->
  (forall d sub, Forall P sub -> P (Dir d sub)) ->
  forall e, P e.
Proof.
  intros HF HD. fix IH 1. intros [f | d sub].
  - apply HF.
  - apply HD. induction sub as [|e sub IHs]; constructor.
    + apply IH.
    + exact IHs.
Qed.

Lemma no_slash_spec (s : str) :
  negb (existsb (N.eqb SLASH) s) = true <-> ~ In SLASH s.
Proof.
  rewrite negb_true_iff. split.
  - intros H Hin. assert (X : existsb (N.eqb SLASH) s = true).
    { apply existsb_exists. exists SLASH. split; [exact Hin|].
      apply N.eqb_refl. }
    congruence.
  - intros H. destruct (existsb (N.eqb SLASH) s) eqn:E; [|reflexivity].
    apply existsb_exists in E. destruct E as (c & Hc & Ec).
    apply N.eqb_eq in Ec. subst c. contradiction.
Qed.

Lemma split_on_app_sep (sep : N) (a b : str) :
  ~ In sep a -> split_on sep (a ++ sep :: b) = a :: split_on sep b.
Proof.
  induction a as [|c a IH]; intros H; cbn [app split_on].
  - now rewrite N.eqb_refl.
  - destruct (N.eqb c sep) eqn:E.
    + apply N.eqb_eq in E. subst c. exfalso. apply H. now left.
    + rewrite IH; [reflexivity|]. intros Hin. apply H. now right.
Qed.

(** Cutting a joined path at ['/'] gives back the names, when no name
    holds a ['/']. *)
Lemma split_join_path (segs : list str) :
  segs <> [] -> (forall s, In s segs -> ~ In SLASH s) ->
  split_on SLASH (join_path segs) = segs.
Proof.
  induction segs as [|s rest IH]; intros Hne Hns; [contradiction|].
  destruct rest as [|s' rest].
  - cbn [join_path]. apply split_on_no_sep. apply Hns. now left.
  - change (join_path (s :: s' :: rest))
      with (s ++ SLASH :: join_path (s' :: rest)).
    rewrite split_on_app_sep by (apply Hns; now left).
    f_equal. apply IH; [discriminate|].
    intros x Hx. apply Hns. now right.
Qed.

Lemma file_names_In (f : str) (children : list entry) :
  In f (file_names children) <-> In (File f) children.
Proof.
  unfold file_names. rewrite in_flat_map. split.
  - intros ([g | d sub] & He & Hin); [|contradiction].
    destruct Hin as [<- | []]. exact He.
  - intros H. exists (File f). split; [exact H | now left].
Qed.

Lemma file_at_nonempty (children : list entry) (segs : list str) :
  file_at children segs -> segs <> [].
Proof. now intros []. Qed.

Lemma last_cons_nonempty {A : Type} (x d : A) (l : list A) :
  l <> [] -> last (x :: l) d = last l d.
Proof. now destruct l. Qed.

Lemma last_app_nonempty {A : Type} (l1 l2 : list A) (d : A) :
  l2 <> [] -> last (l1 ++ l2) d = last l2 d.
Proof.
  intros Hne. induction l1 as [|x l1 IH]; [reflexivity|].
  cbn [app]. rewrite last_cons_nonempty; [exact IH|].
  destruct l1; [exact Hne | discriminate].
Qed.

Section DownloadProperties.

Variable lower : str -> str.

Lemma archive_file_In (exclude_dirs root : list str) (f name : str) :
  (forall s, In s root -> ~ In SLASH s) -> ~ In SLASH f ->
  (In name (archive_file lower exclude_dirs root f) <->
   name = ZIP_ROOT_PREFIX ++ join_path (root ++ [f]) /\
   archivable lower exclude_dirs (root ++ [f])).
Proof.
  intros Hroot Hf. unfold archive_file, archivable.
  rewrite last_last.
  rewrite split_join_path.
  2: { now destruct root. }
  2: { intros s Hs. apply in_app_or in Hs.
       destruct Hs as [Hs | [<- | []]]; [now apply Hroot | exact Hf]. }
  destruct (str_in (lower (splitext_ext f)) EXCLUDE_FILE_EXT) eqn:Eext.
  { apply str_in_In in Eext. split; [intros [] | tauto]. }
  assert (Hext : ~ In (lower (splitext_ext f)) EXCLUDE_FILE_EXT).
  { intros H. apply str_in_In in H. congruence. }
  destruct (existsb (fun seg => str_in seg exclude_dirs) (root ++ [f]))
    eqn:Eseg.
  - apply existsb_exists in Eseg. destruct Eseg as (seg & Hseg & Hin).
    apply str_in_In in Hin. split; [intros []|].
    intros (_ & Hall & _). now apply (Hall seg).
  - split.
    + intros [<- | []]. split; [reflexivity|]. split; [|exact Hext].
      intros seg Hseg Hin.
      assert (X : existsb (fun seg => str_in seg exclude_dirs) (root ++ [f])
                  = true).
      { apply existsb_exists. exists seg. split; [exact Hseg|].
        now apply str_in_In. }
      congruence.
    + intros (-> & _). now left.
Qed.

(** What the walk of a directory archives: exactly the files below it
    that pass the two filters. *)
Lemma walk_dir_In (exclude_dirs : list str) (e : entry) :
  forall (root : list str) (name : str),
    (forall s, In s root -> ~ In SLASH s) ->
    names_ok e = true ->
    (In name (walk_dir lower exclude_dirs root e) <->
     exists d children segs,
       e = Dir d children /\ file_at children segs /\
       name = ZIP_ROOT_PREFIX ++ join_path (root ++ segs) /\
       archivable lower exclude_dirs (root ++ segs)).
Proof.
  induction e as [f | d children IH] using entry_induction;
    intros root name Hroot Hok.
  - cbn [walk_dir]. split; [intros [] | intros (? & ? & ? & ? & _)].
    discriminate.
  - cbn [walk_dir names_ok] in *. apply andb_true_iff in Hok.
    destruct Hok as [_ Hok]. rewrite forallb_forall in Hok.
    rewrite Forall_forall in IH.
    rewrite in_app_iff, !in_flat_map. split.
    + intros [(f & Hf & Hin) | (c & Hc & Hin)].
      * apply file_names_In in Hf.
        pose proof (Hok _ Hf) as Hfok. cbn [names_ok] in Hfok.
        apply no_slash_spec in Hfok.
        apply archive_file_In in Hin; [|assumption..].
        destruct Hin as (-> & Harch).
        exists d, children, [f]. split; [reflexivity|].
        split; [now constructor|]. now split.
      * destruct c as [f | d' sub]; [contradiction|].
        destruct (str_in d' exclude_dirs) eqn:Ed; [contradiction|].
        pose proof (Hok _ Hc) as Hcok.
        assert (Hd' : ~ In SLASH d').
        { cbn [names_ok] in Hcok. apply andb_true_iff in Hcok.
          now apply no_slash_spec. }
        apply (IH _ Hc) in Hin; [|
          intros s Hs; apply in_app_or in Hs;
          destruct Hs as [Hs | [<- | []]]; [now apply Hroot | exact Hd']
          | exact Hcok].
        destruct Hin as (d0 & ch0 & segs & E0 & Hat & -> & Harch).
        injection E0 as <- <-.
        exists d, children, (d' :: segs). split; [reflexivity|].
        split; [now apply file_below with (sub := sub)|].
        pose proof (file_at_nonempty _ _ Hat) as Hne.
        rewrite <- app_assoc in *. cbn [app] in *. split; [reflexivity|].
        destruct Harch as [Hall Hext]. split; [exact Hall|].
        rewrite last_app_nonempty in * by discriminate.
        now rewrite last_cons_nonempty in * by exact Hne.
    + intros (d0 & ch0 & segs & E0 & Hat & -> & Harch).
      injection E0 as <- <-.
      destruct Hat as [ch f Hf | ch sub d' segs Hd Hat].
      * left. exists f. split; [now apply file_names_In|].
        pose proof (Hok _ Hf) as Hfok. cbn [names_ok] in Hfok.
        apply no_slash_spec in Hfok.
        apply archive_file_In; [assumption..|]. now split.
      * right. exists (Dir d' sub). split; [exact Hd|].
        assert (Hnot : ~ In d' exclude_dirs).
        { destruct Harch as [Hall _]. apply Hall.
          apply in_or_app. right. now left. }
        destruct (str_in d' exclude_dirs) eqn:Ed;
          [apply str_in_In in Ed; contradiction|].
        pose proof (Hok _ Hd) as Hcok.
        assert (Hd' : ~ In SLASH d').
        { cbn [names_ok] in Hcok. apply andb_true_iff in Hcok.
          now apply no_slash_spec. }
        apply (IH _ Hd); [| exact Hcok |].
        { intros s Hs. apply in_app_or in Hs.
          destruct Hs as [Hs | [<- | []]]; [now apply Hroot | exact Hd']. }
        exists d', sub, segs. split; [reflexivity|]. split; [exact Hat|].
        rewrite <- app_assoc. cbn [app]. split; [reflexivity|].
        destruct Harch as [Hall Hext]. split; [exact Hall|].
        pose proof (file_at_nonempty _ _ Hat) as Hne.
        rewrite last_app_nonempty in * by discriminate.
        now rewrite last_cons_nonempty in * by exact Hne.
Qed.

End DownloadProperties.

Lemma ready_paths_facts (base : str) :
  In base READY_PATHS ->
  ~ In SLASH base /\
  ~ In base (EXCLUDE_DIRS ++ [cps "test_reports"]) /\
  is_ascii (splitext_ext base) = true /\
  str_in (ascii_lower (splitext_ext base)) EXCLUDE_FILE_EXT = false.
Proof.
  intros H. apply str_in_In in H. unfold str_in, READY_PATHS in H.
  cbn [map existsb] in H. rewrite !orb_true_iff, !str_eqb_eq in H.
  assert (G : forall b,
            negb (existsb (N.eqb SLASH) b) = true ->
            str_in b (EXCLUDE_DIRS ++ [cps "test_reports"]) = false ->
            is_ascii (splitext_ext b) = true ->
            str_in (ascii_lower (splitext_ext b)) EXCLUDE_FILE_EXT = false ->
            ~ In SLASH b /\
            ~ In b (EXCLUDE_DIRS ++ [cps "test_reports"]) /\
            is_ascii (splitext_ext b) = true /\
            str_in (ascii_lower (splitext_ext b)) EXCLUDE_FILE_EXT = false).
  { intros b H1 H2 H3 H4. split; [now apply no_slash_spec|].
    split; [|now split]. intros Hin. apply str_in_In in Hin. congruence. }
  destruct H as [-> | [-> | [-> | [-> | [-> | [-> | H]]]]]];
    [apply G; vm_compute; reflexivity .. | discriminate].
Qed.

Lemma find_entry_Some (name : str) (children : list entry) (e : entry) :
  find_entry name children = Some e ->
  In e children /\
  match e with File f => f = name | Dir d _ => d = name end.
Proof.
  intros H. apply find_some in H. destruct H as [Hin Hn].
  split; [exact Hin|]. destruct e; now apply str_eqb_eq.
Qed.

Lemma names_ok_root (project : list entry) :
  forallb names_ok project = true -> names_ok (Dir [] project) = true.
Proof. intros H. cbn [names_ok existsb negb andb]. exact H. Qed.

Section DownloadTheorems.

Variable lower : str -> str.

(** What one of the six names of the "ready" variant contributes. *)
Lemma ready_base_In (project : list entry) (base name : str) :
  In base READY_PATHS -> forallb names_ok project = true ->
  (In name
     match find_entry base project with
     | Some (Dir d sub) =>
         walk_dir lower (EXCLUDE_DIRS ++ [cps "test_reports"]) [base]
           (Dir d sub)
     | Some (File _) => [ZIP_ROOT_PREFIX ++ join_path [base]]
     | None => []
     end <->
   (In (File base) project /\
    find_entry base project = Some (File base) /\
    name = ZIP_ROOT_PREFIX ++ base) \/
   (exists sub segs,
      In (Dir base sub) project /\
      find_entry base project = Some (Dir base sub) /\
      file_at sub segs /\
      name = ZIP_ROOT_PREFIX ++ join_path (base :: segs) /\
      archivable lower (EXCLUDE_DIRS ++ [cps "test_reports"])
        (base :: segs))).
Proof.
  intros Hbase Hok. destruct (ready_paths_facts base Hbase) as (Hns & _).
  rewrite forallb_forall in Hok.
  destruct (find_entry base project) as [[f | d sub]|] eqn:Ef.
  - destruct (find_entry_Some _ _ _ Ef) as (Hin & ->).
    cbn [join_path]. split.
    + intros [<- | []]. left. now repeat split.
    + intros [(_ & _ & ->) | (sub & segs & _ & E & _)];
        [now left | discriminate].
  - destruct (find_entry_Some _ _ _ Ef) as (Hin & ->).
    rewrite walk_dir_In.
    + split.
      * intros (d0 & ch0 & segs & E0 & Hat & -> & Harch).
        injection E0 as <- <-. right. exists sub, segs.
        split; [exact Hin|]. split; [reflexivity|]. split; [exact Hat|].
        split; [reflexivity | exact Harch].
      * intros [(_ & E & _) | (sub' & segs & _ & E & Hat & -> & Harch)];
          [discriminate|].
        injection E as <-. exists base, sub, segs.
        split; [reflexivity|]. split; [exact Hat|].
        split; [reflexivity | exact Harch].
    + intros s [<- | []]. exact Hns.
    + now apply Hok.
  - split; [intros [] |].
    intros [(_ & E & _) | (sub & segs & _ & E & _)]; discriminate.
Qed.

(** X14. With any variant other than "ready", and no name in the tree
    holding a ['/'], the archive holds exactly the files of the project
    tree that have no path segment, directory or file name, in
    EXCLUDE_DIRS and whose extension, lowercased, is neither [.pyc] nor
    [.log]; each is stored as ["BreedSense/"] followed by its path below
    the project root. In particular nothing below a directory such as
    [node_modules] or [.git] is archived. *)
Theorem archive_everything_iff (variant : str) (project : list entry)
    (name : str) :
  variant <> cps "ready" -> forallb names_ok project = true ->
  (In name (download_source_zip lower variant project) <->
   exists segs,
     file_at project segs /\
     name = ZIP_ROOT_PREFIX ++ join_path segs /\
     archivable lower EXCLUDE_DIRS segs).
Proof.
  intros Hv Hok. unfold download_source_zip.
  destruct (str_eqb variant (cps "ready")) eqn:E;
    [apply str_eqb_eq in E; contradiction|].
  rewrite walk_dir_In;
    [| intros s [] | now apply names_ok_root].
  cbn [app]. split.
  - intros (d & ch & segs & E0 & H). injection E0 as <- <-. now exists segs.
  - intros (segs & H). now exists [], project, segs.
Qed.

(** X15. With the variant "ready", and no name in the tree holding a
    ['/'], the archive holds exactly: for each of the six listed names
    that is a file of the project root, that file, unfiltered; and for
    each that is a directory, the files below it that have no path segment
    in EXCLUDE_DIRS or equal to [test_reports] and whose extension,
    lowercased, is neither [.pyc] nor [.log]. *)
Theorem archive_ready_iff (project : list entry) (name : str) :
  forallb names_ok project = true ->
  (In name (download_source_zip lower (cps "ready") project) <->
   exists base,
     In base READY_PATHS /\
     ((In (File base) project /\
       find_entry base project = Some (File base) /\
       name = ZIP_ROOT_PREFIX ++ base) \/
      (exists sub segs,
         In (Dir base sub) project /\
         find_entry base project = Some (Dir base sub) /\
         file_at sub segs /\
         name = ZIP_ROOT_PREFIX ++ join_path (base :: segs) /\
         archivable lower (EXCLUDE_DIRS ++ [cps "test_reports"])
           (base :: segs)))).
Proof.
  intros Hok. unfold download_source_zip.
  assert (E : str_eqb (cps "ready") (cps "ready") = true)
    by now apply str_eqb_eq.
  rewrite E. cbv zeta. rewrite in_flat_map. split.
  - intros (base & Hbase & Hin). exists base. split; [exact Hbase|].
    now apply ready_base_In.
  - intros (base & Hbase & H). exists base. split; [exact Hbase|].
    now apply ready_base_In.
Qed.

Hypothesis lower_ascii : lower_on_ascii lower.

(** X16. Every member of the "ready" archive is a member of the archive
    of any other variant, for the same tree: "ready" only leaves files
    out. *)
Theorem archive_ready_subset (variant : str) (project : list entry)
    (name : str) :
  variant <> cps "ready" -> forallb names_ok project = true ->
  In name (download_source_zip lower (cps "ready") project) ->
  In name (download_source_zip lower variant project).
Proof.
  intros Hv Hok Hin. unfold download_source_zip in *.
  assert (E : str_eqb (cps "ready") (cps "ready") = true)
    by now apply str_eqb_eq.
  rewrite E in Hin. cbv zeta in Hin.
  destruct (str_eqb variant (cps "ready")) eqn:Ev;
    [apply str_eqb_eq in Ev; contradiction|].
  apply in_flat_map in Hin. destruct Hin as (base & Hbase & Hin).
  apply ready_base_In in Hin; [|assumption..].
  destruct (ready_paths_facts base Hbase) as (Hns & Hex & Hasc & Hext).
  assert (Hex' : ~ In base EXCLUDE_DIRS).
  { intros H. apply Hex. apply in_or_app. now left. }
  apply walk_dir_In; [intros s [] | now apply names_ok_root |].
  exists [], project. cbn [app].
  destruct Hin as [(Hf & _ & ->) | (sub & segs & Hd & _ & Hat & -> & Ha)].
  - exists [base]. split; [reflexivity|]. split; [now constructor|].
    split; [reflexivity|]. split.
    + intros seg [<- | []]. exact Hex'.
    + cbn [last]. rewrite (lower_ascii _ Hasc). intros H.
      apply str_in_In in H. congruence.
  - exists (base :: segs). split; [reflexivity|].
    split; [now apply file_below with (sub := sub)|].
    split; [reflexivity|]. destruct Ha as [Hall Hlast]. split; [|exact Hlast].
    intros seg Hseg H. apply (Hall seg Hseg). apply in_or_app. now left.
Qed.

End DownloadTheorems.

Lemma rfind_none (c : N) (s : str) : ~ In c s -> rfind c s = -1.
Proof.
  intros H. destruct (rfind_cases c s) as [[E _] | (pre & post & -> & _)];
    [exact E|].
  exfalso. apply H. apply in_or_app. right. now left.
Qed.

Lemma rfind_last (c : N) (a b : str) :
  ~ In c b -> rfind c (a ++ c :: b) = Z.of_nat (length a).
Proof.
  intros Hb. induction a as [|x a IH]; cbn [app rfind length].
  - rewrite (rfind_none c b Hb). cbn. now rewrite N.eqb_refl.
  - rewrite IH.
    destruct (0 <=? Z.of_nat (length a)) eqn:E; [lia|].
    apply Z.leb_gt in E. lia.
Qed.

(** A name made of dots followed by a part without ['.'] has no
    extension for [os.path.splitext]. *)
Lemma splitext_hidden (n : nat) (rest : str) :
  ~ In DOT rest -> ~ In SLASH rest ->
  splitext_ext (repeat DOT (S n) ++ rest) = [].
Proof.
  intros Hd Hs. unfold splitext_ext.
  assert (Ef : repeat DOT (S n) ++ rest = repeat DOT n ++ DOT :: rest).
  { cbn [repeat]. rewrite repeat_cons, <- app_assoc. reflexivity. }
  rewrite Ef, (rfind_last DOT _ _ Hd), repeat_length.
  rewrite rfind_none.
  2: { intros H. apply in_app_or in H. destruct H as [H | [H | H]].
       - apply repeat_spec in H. discriminate.
       - discriminate.
       - contradiction. }
  destruct (-1 <? Z.of_nat n) eqn:E; [|apply Z.ltb_ge in E; lia].
  replace (Z.to_nat (Z.of_nat n - (-1 + 1))) with n by lia.
  change (Z.to_nat (-1 + 1)) with 0%nat. rewrite skipn_0.
  rewrite firstn_app, repeat_length, Nat.sub_diag, firstn_all2
    by (rewrite repeat_length; lia).
  cbn [firstn]. rewrite app_nil_r.
  assert (Hall : forallb (N.eqb DOT) (repeat DOT n) = true).
  { apply forallb_forall. intros x Hx. apply repeat_spec in Hx. subst x.
    apply N.eqb_refl. }
  now rewrite Hall.
Qed.

Section HiddenFiles.

Variable lower : str -> str.
Hypothesis lower_ascii : lower_on_ascii lower.

(** X17. A file of the project root whose name is one or more dots
    followed by a part without ['.'], such as [.log] or [.pyc], has no
    extension for the filter: with any variant other than "ready" it is
    archived, unless its name is in EXCLUDE_DIRS. *)
Theorem hidden_file_archived (variant : str) (project : list entry)
    (n : nat) (rest : str) :
  variant <> cps "ready" -> forallb names_ok project = true ->
  ~ In DOT rest -> ~ In SLASH rest ->
  In (File (repeat DOT (S n) ++ rest)) project ->
  ~ In (repeat DOT (S n) ++ rest) EXCLUDE_DIRS ->
  splitext_ext (repeat DOT (S n) ++ rest) = [] /\
  In (ZIP_ROOT_PREFIX ++ repeat DOT (S n) ++ rest)
     (download_source_zip lower variant project).
Proof.
  intros Hv Hok Hd Hs Hin Hex.
  pose proof (splitext_hidden n rest Hd Hs) as Eext.
  split; [exact Eext|].
  unfold download_source_zip.
  destruct (str_eqb variant (cps "ready")) eqn:Ev;
    [apply str_eqb_eq in Ev; contradiction|].
  apply walk_dir_In; [intros s [] | now apply names_ok_root |].
  exists [], project, [repeat DOT (S n) ++ rest]. cbn [app join_path].
  split; [reflexivity|]. split; [now constructor|]. split; [reflexivity|].
  split.
  - intros seg [<- | []]. exact Hex.
  - cbn [last]. rewrite Eext, (lower_ascii [] eq_refl).
    intros H. apply str_in_In in H. vm_compute in H. discriminate.
Qed.

End HiddenFiles.

(** * Status checks *)

Section StatusProperties.

Variable isoformat : Z -> str.
Variable fromisoformat : str -> option Z.

Lemma convert_timestamps_app (a b : list StatusDoc.t) :
  convert_timestamps fromisoformat (a ++ b) =
  match convert_timestamps fromisoformat a,
        convert_timestamps fromisoformat b with
  | Some a', Some b' => Some (a' ++ b')
  | _, _ => None
  end.
Proof.
  induction a as [|x a IH]; cbn [app convert_timestamps].
  - now destruct (convert_timestamps fromisoformat b).
  - destruct (match StatusDoc.timestamp x with
              | TsStr text =>
                  match fromisoformat text with
                  | Some t => Some (StatusDoc.mk (StatusDoc.id x)
                                      (StatusDoc.client_name x) (TsDatetime t))
                  | None => None
                  end
              | _ => Some x
              end); [|reflexivity].
    rewrite IH.
    destruct (convert_timestamps fromisoformat a),
             (convert_timestamps fromisoformat b); reflexivity.
Qed.

Lemma create_all_app (inputs : list (str * Z * str)) (store : list StatusDoc.t) :
  create_all isoformat inputs store =
  store ++ map (fun i => StatusDoc.mk (fst (fst i)) (snd i)
                           (TsStr (isoformat (snd (fst i))))) inputs.
Proof.
  revert store. induction inputs as [|i inputs IH]; intros store.
  - cbn. now rewrite app_nil_r.
  - cbn [create_all fold_left map]. unfold create_all in IH. rewrite IH.
    cbn [create_status_check snd StatusCheck.id StatusCheck.client_name
           StatusCheck.timestamp].
    now rewrite <- app_assoc.
Qed.

(** X19. The reader of the status checks never returns more than 1000
    documents and returns a document whose timestamp is no string as it
    is stored; but one stored string timestamp that does not read as a
    [datetime], among at most 1000 documents, makes the whole reading
    raise. *)
Theorem status_reader_limits (store : list StatusDoc.t) (bad : StatusDoc.t)
    (text : str) :
  (forall checks, get_status_checks fromisoformat false store = Ok checks ->
     (length checks <= 1000)%nat /\
     length checks = Nat.min 1000 (length store)) /\
  ((forall d, In d store ->
      forall s, StatusDoc.timestamp d <> TsStr s) ->
   get_status_checks fromisoformat false store = Ok (firstn 1000 store)) /\
  ((length store <= 1000)%nat -> In bad store ->
   StatusDoc.timestamp bad = TsStr text -> fromisoformat text = None ->
   get_status_checks fromisoformat false store =
   Raise (Exception "ValueError")).
Proof.
  assert (Hlen : forall l l', convert_timestamps fromisoformat l = Some l' ->
                   length l' = length l).
  { induction l as [|x l IH]; intros l' H; cbn [convert_timestamps] in H.
    - now injection H as <-.
    - destruct (match StatusDoc.timestamp x with
                | TsStr text0 =>
                    match fromisoformat text0 with
                    | Some t => Some (StatusDoc.mk (StatusDoc.id x)
                                  (StatusDoc.client_name x) (TsDatetime t))
                    | None => None
                    end
                | _ => Some x
                end); [|discriminate].
      destruct (convert_timestamps fromisoformat l) as [r|]; [|discriminate].
      injection H as <-. cbn [length]. f_equal. now apply IH. }
  split; [|split].
  - intros checks H. unfold get_status_checks in H.
    destruct (convert_timestamps fromisoformat (firstn 1000 store)) as [r|]
      eqn:E; [|discriminate].
    injection H as <-. apply Hlen in E. rewrite length_firstn in E. lia.
  - intros Hns. unfold get_status_checks.
    assert (G : forall l, (forall d, In d l ->
                  forall s, StatusDoc.timestamp d <> TsStr s) ->
                convert_timestamps fromisoformat l = Some l).
    { induction l as [|x l IH]; intros H; [reflexivity|].
      cbn [convert_timestamps].
      destruct (StatusDoc.timestamp x) as [s| |] eqn:Ex.
      - exfalso. apply (H x (or_introl eq_refl) s Ex).
      - rewrite IH; [reflexivity|]. intros d Hd. apply H. now right.
      - rewrite IH; [reflexivity|]. intros d Hd. apply H. now right. }
    rewrite G; [reflexivity|].
    intros d Hd. apply Hns. rewrite <- (firstn_skipn 1000 store).
    apply in_or_app. now left.
  - intros Hsmall Hin Hts Hbad. unfold get_status_checks.
    rewrite firstn_all2 by exact Hsmall.
    apply in_split in Hin. destruct Hin as (l1 & l2 & ->).
    rewrite convert_timestamps_app. cbn [convert_timestamps].
    rewrite Hts, Hbad.
    now destruct (convert_timestamps fromisoformat l1).
Qed.

Hypothesis iso_roundtrip : forall t, fromisoformat (isoformat t) = Some t.

(** X18. When [fromisoformat] reads back what [isoformat] writes, and at
    most 1000 status checks were created since the collection was empty,
    the reader returns exactly the created status checks, each with the
    id, client name and timestamp that its creation answered with. *)
Theorem status_round_trip (inputs : list (str * Z * str)) :
  (length inputs <= 1000)%nat ->
  (exists checks,
     get_status_checks fromisoformat false (create_all isoformat inputs []) =
     Ok checks /\
     Permutation checks (map status_doc inputs)) /\
  forall pre i post, inputs = pre ++ i :: post ->
    create_status_check isoformat false (fst (fst i)) (snd (fst i)) (snd i)
      (create_all isoformat pre []) =
    (Ok (StatusCheck.mk (fst (fst i)) (snd i) (snd (fst i))),
     create_all isoformat (pre ++ [i]) []).
Proof.
  intros Hlen. split.
  - exists (map status_doc inputs). split; [|apply Permutation_refl].
    unfold get_status_checks. rewrite create_all_app. cbn [app].
    rewrite firstn_all2 by (rewrite length_map; exact Hlen).
    clear Hlen. induction inputs as [|i inputs IH]; [reflexivity|].
    cbn [map convert_timestamps StatusDoc.timestamp StatusDoc.id
           StatusDoc.client_name].
    rewrite iso_roundtrip.
    destruct (convert_timestamps fromisoformat _) as [r|]; [|discriminate].
    injection IH as ->. reflexivity.
  - intros pre i post _. rewrite !create_all_app. cbn [app].
    unfold create_status_check. cbn [StatusCheck.id StatusCheck.client_name
                                       StatusCheck.timestamp].
    f_equal. now rewrite map_app.
Qed.

End StatusProperties.

(** ** The summary of the stores the service reaches *)

(** X20. Whatever requests the prediction handler has served since the
    store was empty, the summary, when the aggregation does not raise,
    counts every stored record: [total] is the number of stored records,
    every listed breed is one of BREEDS with its number of stored records
    as count, and at most five breeds are listed. *)
Theorem summary_of_served_store (lower : str -> str) (qs : list request) :
  exists s,
    get_analytics_summary no_faults (serve_all lower qs empty_world) =
      (Ok s, serve_all lower qs empty_world) /\
    Summary.total s =
      Z.of_nat (length (predictions (serve_all lower qs empty_world))) /\
    (forall b n, dict_get (Summary.by_breed s) b = Some n ->
       In b BREEDS /\
       n = occurrences (breeds_of (serve_all lower qs empty_world)) b) /\
    (length (Summary.by_breed s) <= 5)%nat.
Proof.
  set (w := serve_all lower qs empty_world).
  assert (Hok : store_ok (predictions w)).
  { apply serve_all_preserves. split; constructor. }
  assert (Hd : (length (nodup string_dec (breeds_of w)) <= 100)%nat).
  { pose proof (store_ok_distinct_breeds w Hok). lia. }
  rewrite summary_eval. cbv zeta.
  destruct (by_breed_rows (breeds_of w) Hd) as (N & S & G).
  cbv zeta in N, S, G.
  set (by_breed := fold_left _ _ _) in *.
  eexists. split; [reflexivity|].
  cbn [Summary.by_breed Summary.total].
  assert (Hlisted : forall b n, dict_get by_breed b = Some n ->
            In b BREEDS /\ n = occurrences (breeds_of w) b).
  { intros b n Hb. rewrite G in Hb.
    destruct (occurrences (breeds_of w) b =? 0) eqn:E0; [discriminate|].
    apply Z.eqb_neq in E0. injection Hb as <-. split; [|reflexivity].
    assert (Hin : In b (breeds_of w)).
    { apply occurrences_pos. unfold occurrences in *. lia. }
    unfold breeds_of in Hin. apply in_map_iff in Hin.
    destruct Hin as (d & <- & Hdin).
    destruct Hok as [_ Hall]. rewrite Forall_forall in Hall.
    now apply Hall. }
  split; [|split; [exact Hlisted|]].
  - rewrite S. unfold breeds_of. now rewrite length_map.
  - replace (length by_breed) with (length (keys by_breed))
      by (unfold keys; apply length_map).
    change 5%nat with (length BREEDS).
    apply NoDup_incl_length; [exact N|].
    intros k Hk. destruct (dict_get by_breed k) as [n|] eqn:E.
    + now apply (Hlisted k n).
    + apply dict_get_None in E. contradiction.
Qed.

(** * The further properties at concrete inputs *)

Lemma sample_store_timestamps (n : nat) (d : Prediction.t) :
  In d (sample_store n) -> 0 <= Prediction.timestamp d < Z.of_nat n.
Proof.
  unfold sample_store. intros H. apply in_map_iff in H.
  destruct H as (k & <- & Hk). apply in_seq in Hk.
  cbn [sample_record Prediction.timestamp]. lia.
Qed.

Lemma new_uuid_fresh (n : nat) :
  ~ In (cps "new") (ids (predictions (sample_world n))).
Proof.
  cbn [sample_world predictions]. unfold ids, sample_store.
  rewrite map_map. intros H. apply in_map_iff in H.
  destruct H as (k & Hk & _). cbn [sample_record Prediction.id] in Hk.
  unfold sample_uuid in Hk.
  apply (f_equal (@length N)) in Hk. rewrite length_app in Hk.
  vm_compute in Hk. discriminate.
Qed.

Lemma sample_iso_roundtrip (t : Z) :
  sample_fromisoformat (sample_isoformat t) = Some t.
Proof.
  unfold sample_fromisoformat, sample_isoformat.
  destruct (t <? 0) eqn:E.
  - apply Z.ltb_lt in E. cbn [N.eqb Pos.eqb]. f_equal. lia.
  - apply Z.ltb_ge in E. cbn [N.eqb Pos.eqb]. f_equal. lia.
Qed.

(** X1 with the insert raising, on a store of three records. *)
Lemma predict_internal_failure_witness :
  _looks_like_cow ascii_lower
    (UploadFile.filename (sample_upload "holstein1.png" "image/png"))
    (UploadFile.content_type (sample_upload "holstein1.png" "image/png"))
    = true /\
  (read_raises insert_faults = true \/ write_raises insert_faults = true \/
   insert_one_raises insert_faults = true \/
   In (cps "new") (ids (predictions (sample_world 3)))) /\
  exists w' msg,
    predict_cattle_breed ascii_lower insert_faults (cps "tmp") (cps "new") 100
      (sample_upload "holstein1.png" "image/png") (sample_world 3) =
      (Raise (HTTPException 500 "Prediction failed"), w') /\
    predictions w' = predictions (sample_world 3) /\
    log w' = msg :: log (sample_world 3).
Proof.
  split; [vm_compute; reflexivity|].
  split; [right; right; left; reflexivity|].
  apply (predict_internal_failure ascii_lower insert_faults (cps "tmp")
           (cps "new") 100 (sample_upload "holstein1.png" "image/png")
           (sample_world 3)).
  - vm_compute. reflexivity.
  - right. right. left. reflexivity.
Defined.

(** X3 on the empty world. *)
Lemma scratch_file_removed_witness :
  _looks_like_cow ascii_lower
    (UploadFile.filename (sample_upload "holstein1.png" "image/png"))
    (UploadFile.content_type (sample_upload "holstein1.png" "image/png"))
    = true /\
  read_raises no_faults = false /\ write_raises no_faults = false /\
  insert_one_raises no_faults = false /\ unlink_raises no_faults = false /\
  ~ In (cps "new") (ids (predictions empty_world)) /\
  exists f label w',
    UploadFile.filename (sample_upload "holstein1.png" "image/png") = Some f /\
    predict_cattle_breed ascii_lower no_faults (cps "tmp") (cps "new") 100
      (sample_upload "holstein1.png" "image/png") empty_world =
      (Ok (breed_response label), w') /\
    uploads w' = other_uploads (cps "tmp" ++ path_suffix f) empty_world /\
    (forall e, In e (uploads w') -> fst e <> cps "tmp" ++ path_suffix f) /\
    ((forall e, In e (uploads empty_world) ->
        fst e <> cps "tmp" ++ path_suffix f) ->
     uploads w' = uploads empty_world).
Proof.
  split; [vm_compute; reflexivity|].
  do 4 (split; [reflexivity|]).
  split; [intros []|].
  apply (scratch_file_removed ascii_lower no_faults (cps "tmp") (cps "new")
           100 (sample_upload "holstein1.png" "image/png") empty_world).
  - vm_compute. reflexivity.
  - reflexivity.
  - reflexivity.
  - reflexivity.
  - reflexivity.
  - intros [].
Defined.

(** X4 with the cleanup raising. *)
Lemma scratch_file_left_behind_witness :
  _looks_like_cow ascii_lower
    (UploadFile.filename (sample_upload "holstein1.png" "image/png"))
    (UploadFile.content_type (sample_upload "holstein1.png" "image/png"))
    = true /\
  read_raises best_effort_faults = false /\
  write_raises best_effort_faults = false /\
  (insert_one_raises best_effort_faults = true \/
   In (cps "new") (ids (predictions (sample_world 3))) \/
   unlink_raises best_effort_faults = true) /\
  exists f r w',
    UploadFile.filename (sample_upload "holstein1.png" "image/png") = Some f /\
    predict_cattle_breed ascii_lower best_effort_faults (cps "tmp")
      (cps "new") 100 (sample_upload "holstein1.png" "image/png")
      (sample_world 3) = (r, w') /\
    In (cps "tmp" ++ path_suffix f,
        UploadFile.body (sample_upload "holstein1.png" "image/png"))
       (uploads w') /\
    (r = Raise (HTTPException 500 "Prediction failed") \/
     exists label, r = Ok (breed_response label)).
Proof.
  split; [vm_compute; reflexivity|].
  do 2 (split; [reflexivity|]).
  split; [right; right; reflexivity|].
  apply (scratch_file_left_behind ascii_lower best_effort_faults (cps "tmp")
           (cps "new") 100 (sample_upload "holstein1.png" "image/png")
           (sample_world 3)).
  - vm_compute. reflexivity.
  - reflexivity.
  - reflexivity.
  - right. right. reflexivity.
Defined.

(** X6 on a store of three records stamped 0, 1, 2, at instant 100. *)
Lemma newest_record_kept_witness :
  _looks_like_cow ascii_lower
    (UploadFile.filename (sample_upload "holstein1.png" "image/png"))
    (UploadFile.content_type (sample_upload "holstein1.png" "image/png"))
    = true /\
  NoDup (ids (predictions (sample_world 3))) /\
  ~ In (cps "new") (ids (predictions (sample_world 3))) /\
  (forall d, In d (predictions (sample_world 3)) ->
     Prediction.timestamp d < 100) /\
  exists f label w',
    UploadFile.filename (sample_upload "holstein1.png" "image/png") = Some f /\
    predict_cattle_breed ascii_lower no_faults (cps "tmp") (cps "new") 100
      (sample_upload "holstein1.png" "image/png") (sample_world 3) =
      (Ok (breed_response label), w') /\
    let doc := Prediction.mk (cps "new") (Some f)
                 (UploadFile.content_type
                    (sample_upload "holstein1.png" "image/png")) label 100 in
    In doc (predictions w') /\
    get_recent_predictions no_faults (Some 1) w' = (Ok [doc], w').
Proof.
  assert (Hts : forall d, In d (predictions (sample_world 3)) ->
                  Prediction.timestamp d < 100).
  { intros d Hd. apply sample_store_timestamps in Hd. lia. }
  split; [vm_compute; reflexivity|].
  split; [apply sample_store_NoDup|].
  split; [apply new_uuid_fresh|].
  split; [exact Hts|].
  apply (newest_record_kept ascii_lower (cps "tmp") (cps "new") 100
           (sample_upload "holstein1.png" "image/png") (sample_world 3)).
  - vm_compute. reflexivity.
  - apply sample_store_NoDup.
  - apply new_uuid_fresh.
  - exact Hts.
Defined.

(** X7 on a store of twenty records stamped 0 to 19, at instant -5. *)
Lemma stale_record_pruned_witness :
  _looks_like_cow ascii_lower
    (UploadFile.filename (sample_upload "holstein1.png" "image/png"))
    (UploadFile.content_type (sample_upload "holstein1.png" "image/png"))
    = true /\
  NoDup (ids (predictions (sample_world 20))) /\
  ~ In (cps "new") (ids (predictions (sample_world 20))) /\
  (20 <= length (predictions (sample_world 20)))%nat /\
  (forall d, In d (predictions (sample_world 20)) ->
     -5 < Prediction.timestamp d) /\
  exists f label w',
    UploadFile.filename (sample_upload "holstein1.png" "image/png") = Some f /\
    predict_cattle_breed ascii_lower no_faults (cps "tmp") (cps "new") (-5)
      (sample_upload "holstein1.png" "image/png") (sample_world 20) =
      (Ok (breed_response label), w') /\
    ~ In (cps "new") (ids (predictions w')) /\
    incl (predictions w') (predictions (sample_world 20)) /\
    length (predictions w') = 20%nat.
Proof.
  assert (Hts : forall d, In d (predictions (sample_world 20)) ->
                  -5 < Prediction.timestamp d).
  { intros d Hd. apply sample_store_timestamps in Hd. lia. }
  assert (Hlen : (20 <= length (predictions (sample_world 20)))%nat).
  { cbn [sample_world predictions]. unfold sample_store.
    rewrite length_map, length_seq. lia. }
  split; [vm_compute; reflexivity|].
  split; [apply sample_store_NoDup|].
  split; [apply new_uuid_fresh|].
  split; [exact Hlen|]. split; [exact Hts|].
  apply (stale_record_pruned ascii_lower (cps "tmp") (cps "new") (-5)
           (sample_upload "holstein1.png" "image/png") (sample_world 20)).
  - vm_compute. reflexivity.
  - apply sample_store_NoDup.
  - apply new_uuid_fresh.
  - exact Hlen.
  - exact Hts.
Defined.

(** X8 on a store of 25 records. *)
Lemma prune_idempotent_witness :
  NoDup (ids (predictions (sample_world 25))) /\
  exists w1,
    prune_predictions no_faults (sample_world 25) = (Ok tt, w1) /\
    (length (predictions w1) <= 20)%nat /\
    prune_predictions no_faults w1 = (Ok tt, w1).
Proof.
  split; [apply sample_store_NoDup|].
  apply (prune_idempotent (sample_world 25)). apply sample_store_NoDup.
Defined.

(** X9 on a store of three records with every call raising. *)
Lemma prune_only_deletes_witness :
  (length (predictions (sample_world 3)) <= 20)%nat /\
  snd (prune_predictions best_effort_faults (sample_world 3)) = sample_world 3.
Proof.
  assert (Hlen : (length (predictions (sample_world 3)) <= 20)%nat).
  { cbn [sample_world predictions]. unfold sample_store.
    rewrite length_map, length_seq. lia. }
  split; [exact Hlen|].
  destruct (prune_only_deletes best_effort_faults (sample_world 3))
    as (_ & _ & _ & H).
  exact (H Hlen).
Defined.

(** X10 with the default limit on a store of three records. *)
Lemma recent_returns_whole_store_witness :
  Z.of_nat (length (predictions (sample_world 3))) <=
    clamp_limit (match @None Z with Some l => l | None => 20 end) /\
  exists preds,
    get_recent_predictions no_faults None (sample_world 3) =
      (Ok preds, sample_world 3) /\
    Permutation preds (predictions (sample_world 3)) /\
    StronglySorted (fun a b => older_eq b a) preds.
Proof.
  assert (H : Z.of_nat (length (predictions (sample_world 3))) <=
              clamp_limit (match @None Z with Some l => l | None => 20 end)).
  { cbn [sample_world predictions]. unfold sample_store, clamp_limit.
    rewrite length_map, length_seq. lia. }
  split; [exact H|].
  apply (recent_returns_whole_store None (sample_world 3)). exact H.
Defined.

(** X11 at the store with the breeds Jersey, Jersey, Gir. *)
Lemma summary_sorted_by_count_witness :
  (length (nodup string_dec (breeds_of three_breeds_world)) <= 100)%nat /\
  exists s,
    get_analytics_summary no_faults three_breeds_world =
      (Ok s, three_breeds_world) /\
    StronglySorted (fun a b => snd b <= snd a) (Summary.by_breed s) /\
    Forall (fun a => 1 <= snd a) (Summary.by_breed s) /\
    Summary.most_common s = hd_error (map fst (Summary.by_breed s)).
Proof.
  assert (H : (length (nodup string_dec (breeds_of three_breeds_world))
               <= 100)%nat) by (vm_compute; lia).
  split; [exact H|].
  apply (summary_sorted_by_count three_breeds_world). exact H.
Defined.

(** X12 at a name with a path separator before the suffix. *)
Lemma scratch_suffix_shape_witness :
  In SLASH (cps "a/b" ++ path_suffix (cps "../../cow.png")) /\
  In SLASH (cps "a/b").
Proof.
  assert (H : In SLASH (cps "a/b" ++ path_suffix (cps "../../cow.png"))).
  { apply in_or_app. left. cbn. tauto. }
  split; [exact H|].
  exact (proj2 (scratch_suffix_shape (cps "../../cow.png") (cps "a/b")) H).
Defined.

(** X13 at the seeds ["b0"] and ["a"] followed by U+00B3, which reach the
    same accumulator. *)
Lemma seed_hash_continues_witness :
  hash_loop 0 [98%N; 48%N] = hash_loop 0 [97%N; 179%N] /\
  _mock_breed_choice ([98%N; 48%N] ++ cps ".png") =
  _mock_breed_choice ([97%N; 179%N] ++ cps ".png").
Proof.
  assert (H : hash_loop 0 [98%N; 48%N] = hash_loop 0 [97%N; 179%N])
    by (vm_compute; reflexivity).
  split; [exact H|].
  destruct (seed_hash_continues [98%N; 48%N] [97%N; 179%N] (cps ".png"))
    as (_ & _ & G).
  exact (G H).
Defined.

(** X14 at the file [backend/server.py] of the sample tree. *)
Lemma archive_everything_iff_witness :
  cps "everything" <> cps "ready" /\
  forallb names_ok sample_project = true /\
  (In (cps "BreedSense/backend/server.py")
      (download_source_zip ascii_lower (cps "everything") sample_project) <->
   exists segs,
     file_at sample_project segs /\
     cps "BreedSense/backend/server.py" = ZIP_ROOT_PREFIX ++ join_path segs /\
     archivable ascii_lower EXCLUDE_DIRS segs).
Proof.
  assert (Hv : cps "everything" <> cps "ready") by discriminate.
  assert (Hok : forallb names_ok sample_project = true)
    by (vm_compute; reflexivity).
  split; [exact Hv|]. split; [exact Hok|].
  apply (archive_everything_iff ascii_lower (cps "everything") sample_project
           (cps "BreedSense/backend/server.py") Hv Hok).
Defined.

(** X15 at the file [backend/server.py] of the sample tree. *)
Lemma archive_ready_iff_witness :
  forallb names_ok sample_project = true /\
  (In (cps "BreedSense/backend/server.py")
      (download_source_zip ascii_lower (cps "ready") sample_project) <->
   exists base,
     In base READY_PATHS /\
     ((In (File base) sample_project /\
       find_entry base sample_project = Some (File base) /\
       cps "BreedSense/backend/server.py" = ZIP_ROOT_PREFIX ++ base) \/
      (exists sub segs,
         In (Dir base sub) sample_project /\
         find_entry base sample_project = Some (Dir base sub) /\
         file_at sub segs /\
         cps "BreedSense/backend/server.py" =
           ZIP_ROOT_PREFIX ++ join_path (base :: segs) /\
         archivable ascii_lower (EXCLUDE_DIRS ++ [cps "test_reports"])
           (base :: segs)))).
Proof.
  assert (Hok : forallb names_ok sample_project = true)
    by (vm_compute; reflexivity).
  split; [exact Hok|].
  apply (archive_ready_iff ascii_lower sample_project
           (cps "BreedSense/backend/server.py") Hok).
Defined.

(** X16 at the file [backend/server.py] of the sample tree. *)
Lemma archive_ready_subset_witness :
  lower_on_ascii ascii_lower /\
  cps "everything" <> cps "ready" /\
  forallb names_ok sample_project = true /\
  In (cps "BreedSense/backend/server.py")
     (download_source_zip ascii_lower (cps "ready") sample_project) /\
  In (cps "BreedSense/backend/server.py")
     (download_source_zip ascii_lower (cps "everything") sample_project).
Proof.
  assert (Hl : lower_on_ascii ascii_lower) by (intros s _; reflexivity).
  assert (Hv : cps "everything" <> cps "ready") by discriminate.
  assert (Hok : forallb names_ok sample_project = true)
    by (vm_compute; reflexivity).
  assert (Hin : In (cps "BreedSense/backend/server.py")
                  (download_source_zip ascii_lower (cps "ready")
                     sample_project)).
  { apply str_in_In. vm_compute. reflexivity. }
  split; [exact Hl|]. split; [exact Hv|]. split; [exact Hok|].
  split; [exact Hin|].
  apply (archive_ready_subset ascii_lower Hl (cps "everything") sample_project
           (cps "BreedSense/backend/server.py") Hv Hok Hin).
Defined.

(** X17 at the file [.log] of the sample tree. *)
Lemma hidden_file_archived_witness :
  lower_on_ascii ascii_lower /\
  cps "everything" <> cps "ready" /\
  forallb names_ok sample_project = true /\
  ~ In DOT (cps "log") /\ ~ In SLASH (cps "log") /\
  In (File (repeat DOT 1 ++ cps "log")) sample_project /\
  ~ In (repeat DOT 1 ++ cps "log") EXCLUDE_DIRS /\
  splitext_ext (repeat DOT 1 ++ cps "log") = [] /\
  In (ZIP_ROOT_PREFIX ++ repeat DOT 1 ++ cps "log")
     (download_source_zip ascii_lower (cps "everything") sample_project).
Proof.
  assert (Hl : lower_on_ascii ascii_lower) by (intros s _; reflexivity).
  assert (Hv : cps "everything" <> cps "ready") by discriminate.
  assert (Hok : forallb names_ok sample_project = true)
    by (vm_compute; reflexivity).
  assert (Hd : ~ In DOT (cps "log")) by (cbn; intuition discriminate).
  assert (Hs : ~ In SLASH (cps "log")) by (cbn; intuition discriminate).
  assert (Hin : In (File (repeat DOT 1 ++ cps "log")) sample_project).
  { cbn. tauto. }
  assert (Hex : ~ In (repeat DOT 1 ++ cps "log") EXCLUDE_DIRS).
  { intros H. apply str_in_In in H. vm_compute in H. discriminate. }
  split; [exact Hl|]. split; [exact Hv|]. split; [exact Hok|].
  split; [exact Hd|]. split; [exact Hs|]. split; [exact Hin|].
  split; [exact Hex|].
  apply (hidden_file_archived ascii_lower Hl (cps "everything") sample_project
           0 (cps "log") Hv Hok Hd Hs Hin Hex).
Defined.

(** X18 at two status checks, with the stand-in for the ISO text. *)
Lemma status_round_trip_witness :
  (forall t, sample_fromisoformat (sample_isoformat t) = Some t) /\
  (length [(cps "u1", 5, cps "alice"); (cps "u2", 7, cps "bob")] <= 1000)%nat /\
  exists checks,
    get_status_checks sample_fromisoformat false
      (create_all sample_isoformat
         [(cps "u1", 5, cps "alice"); (cps "u2", 7, cps "bob")] []) =
    Ok checks /\
    Permutation checks
      (map status_doc [(cps "u1", 5, cps "alice"); (cps "u2", 7, cps "bob")]).
Proof.
  assert (Hlen : (length [(cps "u1", 5, cps "alice");
                          (cps "u2", 7, cps "bob")] <= 1000)%nat)
    by (cbn [length]; lia).
  split; [exact sample_iso_roundtrip|]. split; [exact Hlen|].
  exact (proj1 (status_round_trip sample_isoformat sample_fromisoformat
                  sample_iso_roundtrip
                  [(cps "u1", 5, cps "alice"); (cps "u2", 7, cps "bob")]
                  Hlen)).
Defined.

(** X19 at a collection with one unreadable timestamp. *)
Lemma status_reader_limits_witness :
  (length [StatusDoc.mk (cps "u1") (cps "alice") (TsStr (cps "yesterday"))]
     <= 1000)%nat /\
  In (StatusDoc.mk (cps "u1") (cps "alice") (TsStr (cps "yesterday")))
     [StatusDoc.mk (cps "u1") (cps "alice") (TsStr (cps "yesterday"))] /\
  StatusDoc.timestamp
    (StatusDoc.mk (cps "u1") (cps "alice") (TsStr (cps "yesterday"))) =
    TsStr (cps "yesterday") /\
  sample_fromisoformat (cps "yesterday") = None /\
  get_status_checks sample_fromisoformat false
    [StatusDoc.mk (cps "u1") (cps "alice") (TsStr (cps "yesterday"))] =
  Raise (Exception "ValueError").
Proof.
  assert (Hlen : (length [StatusDoc.mk (cps "u1") (cps "alice")
                            (TsStr (cps "yesterday"))] <= 1000)%nat)
    by (cbn [length]; lia).
  split; [exact Hlen|]. split; [now left|]. split; [reflexivity|].
  split; [reflexivity|].
  destruct (status_reader_limits sample_fromisoformat
              [StatusDoc.mk (cps "u1") (cps "alice") (TsStr (cps "yesterday"))]
              (StatusDoc.mk (cps "u1") (cps "alice") (TsStr (cps "yesterday")))
              (cps "yesterday")) as (_ & _ & H).
  apply H; [exact Hlen | now left | reflexivity | reflexivity].
Defined.

(** X2 at a cancelled read of ["holstein1.png"]: the cancellation leaves
    the handler, and the world is as it was. *)
Lemma predict_outcomes_witness :
  _looks_like_cow ascii_lower
    (UploadFile.filename (sample_upload "holstein1.png" "image/png"))
    (UploadFile.content_type (sample_upload "holstein1.png" "image/png"))
    = true /\
  predict_over ascii_lower cancelled_read (write_file no_faults)
    (insert_one no_faults) (prune_predictions no_faults) (unlink no_faults)
    (cps "tmp") (cps "rec-new") 30
    (sample_upload "holstein1.png" "image/png") (sample_world 3) =
  (Raise (BaseException "CancelledError"), sample_world 3).
Proof.
  assert (Hgate : _looks_like_cow ascii_lower
            (UploadFile.filename (sample_upload "holstein1.png" "image/png"))
            (UploadFile.content_type
               (sample_upload "holstein1.png" "image/png")) = true)
    by (vm_compute; reflexivity).
  split; [exact Hgate|].
  destruct (predict_outcomes ascii_lower (cps "tmp") (cps "rec-new") 30
              (sample_upload "holstein1.png" "image/png") (sample_world 3))
    as [_ H].
  destruct (H cancelled_read (write_file no_faults) (insert_one no_faults)
              (prune_predictions no_faults) (unlink no_faults)
              (quiet_raise_base "CancelledError")
              (quiet_write_file no_faults) (quiet_insert_one no_faults)
              (quiet_prune no_faults) (quiet_unlink no_faults))
    as (_ & Hesc & _).
  apply Hesc; [exact Hgate | reflexivity].
Defined.
